(** * Account Session Manager: a shallow embedding of
    [backend/src/whatsapp/accountManager.js] (class [AccountManager]) and of
    the readiness check of [backend/src/whatsapp/client.js].

    The manager is a JavaScript object driven by an event loop.  It is
    embedded as a record of its fields together with the part of the outside
    world it reads and writes (the two JSON files, the credential directories,
    the timers it has scheduled, the methods suspended at an [await], the
    events it has emitted).  Every method is a function on that record;
    whatever the method obtains from outside ([Date.now()], [Math.random()],
    what the automation client answers) is an argument of the function.

    Account objects are shared between the accounts map and the closures of
    the event handlers, so they live in a store and are named by reference.
    An [async] method is cut at each [await] on the automation library, and
    the event loop interleaves the pieces with handlers, timers and other
    calls.

    Beside the manager the file embeds [getChats] and the readiness check
    of the single-session client ([backend/src/whatsapp/client.js]), the
    helpers [hasBeenReplied], [filterByDateRange] and [applyFilters]
    ([backend/src/utils/helpers.js]), the handler of
    [GET /chats/:id/messages] and the counting loop of [GET /analytics]
    ([backend/src/routes/api.js]).

    Not embedded: [logout()] of the manager, which is [logoutAccount] of
    the active account, and its [destroy()], which writes no field; the
    rendering helpers [formatChat] and [formatMessage], of whose result
    only the id and the timestamp are kept; the other routes. *)

From Stdlib Require Import List String Ascii ZArith Bool Arith Lia DecimalString.
From Stdlib Require Import Permutation Sorted.
Import ListNotations.
Local Open Scope string_scope.
Local Open Scope list_scope.

(** ** JavaScript conventions used by the source *)

Module Js.

(** Number to string conversion, as in ['acc_' + Date.now()]. *)
Definition string_of_Z (z : Z) : string := NilZero.string_of_int (Z.to_int z).

Definition string_of_nat (n : nat) : string :=
  NilZero.string_of_uint (Nat.to_uint n).

(** A string is falsy exactly when it is empty. *)
Definition truthy (s : string) : bool := negb (String.eqb s "").

(** [x || null] on a value that is a string or [null]/[undefined]. *)
Definition or_null (x : option string) : option string :=
  match x with
  | Some s => if truthy s then Some s else None
  | None => None
  end.

(** [x || d] with a string default. *)
Definition or_default (x : option string) (d : string) : string :=
  match x with
  | Some s => if truthy s then s else d
  | None => d
  end.

(** [!x] on a string or [null]. *)
Definition falsy (x : option string) : bool :=
  match x with
  | Some s => negb (truthy s)
  | None => true
  end.

(** What a call into the automation library may hand back where the source
    expects an array: [null]/[undefined], an array, or some other (truthy)
    value.  The source tells them apart with [v && Array.isArray(v)]. *)
Inductive value (A : Type) : Type :=
| Null : value A
| Arr (l : list A) : value A
| Other : value A.
Arguments Null {A}.
Arguments Arr {A} l.
Arguments Other {A}.

Definition is_truthy {A} (v : value A) : bool :=
  match v with Null => false | _ => true end.

Definition isArray {A} (v : value A) : bool :=
  match v with Arr _ => true | _ => false end.

(** [a === b] between a string-or-null and a string. *)
Definition strict_eq (a : option string) (b : string) : bool :=
  match a with Some s => String.eqb s b | None => false end.

(** [v || []]. *)
Definition or_empty {A} (v : value A) : value A :=
  if is_truthy v then v else Arr [].

End Js.

(** ** [Map] with string keys

    A JavaScript [Map] iterates in insertion order; [set] on a key that is
    present replaces the value where it stands, [set] on a new key appends. *)

Module JsMap.
Section WithValues.
Context {V : Type}.

Definition t := list (string * V).

Definition empty : t := [].

Fixpoint get (k : string) (m : t) : option V :=
  match m with
  | [] => None
  | (k', v) :: rest => if String.eqb k' k then Some v else get k rest
  end.

Definition has (k : string) (m : t) : bool :=
  match get k m with Some _ => true | None => false end.

Fixpoint set (k : string) (v : V) (m : t) : t :=
  match m with
  | [] => [(k, v)]
  | (k', v') :: rest =>
      if String.eqb k' k then (k', v) :: rest else (k', v') :: set k v rest
  end.

Fixpoint delete (k : string) (m : t) : t :=
  match m with
  | [] => []
  | (k', v') :: rest =>
      if String.eqb k' k then rest else (k', v') :: delete k rest
  end.

Definition keys (m : t) : list string := map fst m.

Definition values (m : t) : list V := map snd m.

Definition size (m : t) : nat := List.length m.

(** [m.keys().next().value]: the first key, [undefined] on an empty map. *)
Definition first_key (m : t) : option string := hd_error (keys m).

End WithValues.
Arguments t : clear implicits.
End JsMap.

(** ** Records of the data model *)

(** The record built by the [message_revoke_everyone] handler. *)
Module DeletedMessage.
Record t := mk {
  id : string;
  chatId : option string;     (* message.from || message.to *)
  body : string;
  timestamp : Z;
  fromMe : bool;
  author : option string;
  type : string;
  hasMedia : bool;
  deletedAt : Z;
  originalType : string;
  accountId : string
}.
End DeletedMessage.

(** A chat as the automation library returns it; only its identity matters
    to the manager, which passes chats through. *)
Record Chat := { chat_id : string; chat_name : string }.

Definition Chats := Js.value Chat.

(** Handle of an automation client: the ordinal of the [new Client(...)] call
    that made it. *)
Definition Client := nat.

(** An account object.  [hasStoredSession] is only present on objects made by
    [loadAccountsConfig]. *)
Module Account.
Record t := mk {
  id : string;
  name : string;
  phone : option string;
  createdAt : Z;
  client : option Client;
  isReady : bool;
  isAuthenticated : bool;
  isInitializing : bool;
  qrCode : option string;
  hasStoredSession : option bool
}.

Definition set_name (v : string) (a : t) : t :=
  mk (id a) v (phone a) (createdAt a) (client a) (isReady a)
     (isAuthenticated a) (isInitializing a) (qrCode a) (hasStoredSession a).

Definition set_phone (v : option string) (a : t) : t :=
  mk (id a) (name a) v (createdAt a) (client a) (isReady a)
     (isAuthenticated a) (isInitializing a) (qrCode a) (hasStoredSession a).

Definition set_client (v : option Client) (a : t) : t :=
  mk (id a) (name a) (phone a) (createdAt a) v (isReady a)
     (isAuthenticated a) (isInitializing a) (qrCode a) (hasStoredSession a).

Definition set_isReady (v : bool) (a : t) : t :=
  mk (id a) (name a) (phone a) (createdAt a) (client a) v
     (isAuthenticated a) (isInitializing a) (qrCode a) (hasStoredSession a).

Definition set_isAuthenticated (v : bool) (a : t) : t :=
  mk (id a) (name a) (phone a) (createdAt a) (client a) (isReady a)
     v (isInitializing a) (qrCode a) (hasStoredSession a).

Definition set_isInitializing (v : bool) (a : t) : t :=
  mk (id a) (name a) (phone a) (createdAt a) (client a) (isReady a)
     (isAuthenticated a) v (qrCode a) (hasStoredSession a).

Definition set_qrCode (v : option string) (a : t) : t :=
  mk (id a) (name a) (phone a) (createdAt a) (client a) (isReady a)
     (isAuthenticated a) (isInitializing a) v (hasStoredSession a).

(** The object every account starts as, in [createAccount] and in
    [loadAccountsConfig]: no client, all flags cleared, no QR code. *)
Definition uninitialized (a : t) : Prop :=
  client a = None /\ isReady a = false /\ isAuthenticated a = false /\
  isInitializing a = false /\ qrCode a = None.

End Account.

(** What [saveAccountsConfig] writes for one account. *)
Record AccountMeta := {
  meta_id : string;
  meta_name : string;
  meta_phone : option string;
  meta_createdAt : Z
}.

(** The object in [data/accounts.json]. *)
Record ConfigData := {
  cfg_activeAccountId : option string;
  cfg_accounts : option (list AccountMeta)
}.

(** A file on disk: absent, not parseable as JSON, or holding a value. *)
Inductive File (A : Type) : Type :=
| Absent : File A
| Unparseable : File A
| Json (data : A) : File A.
Arguments Absent {A}.
Arguments Unparseable {A}.
Arguments Json {A} data.

(** A message object of the automation library. *)
Record Message := {
  msg_id : string;            (* id._serialized *)
  msg_from : option string;
  msg_to : option string;
  msg_body : string;
  msg_timestamp : Z;
  msg_fromMe : bool;
  msg_author : option string;
  msg_hasMedia : bool;
  msg_type : string
}.

(** ** The automation client, as the manager sees it *)

(** [client.pupPage]: missing, open, closed, or answering [isClosed()] with
    an exception. *)
Inductive Page := NoPage | OpenPage | ClosedPage | PageThrows.

(** [client.info]: the getter throws, [info] or [info.wid] is missing, or
    [info.wid.user] holds the phone number. *)
Inductive Info := InfoThrows | NoInfo | Wid (user : string).

(** What a client shows when the manager inspects it. *)
Record ClientView := {
  pupPage : Page;
  hasGetChats : bool;          (* typeof client.getChats === 'function' *)
  info : Info
}.

(** How a promise of the automation library settles. *)
Inductive Settlement :=
| Resolved (chats : Chats)     (* the value matters for getChats() only *)
| Rejected (message : string).

(** The events of a client that [initializeAccount] listens to. *)
Inductive ClientEvent :=
| Qr (qr : string)
| LoadingScreen (percent : Z) (message : string)
| Ready
| Authenticated
| AuthFailure (msg : string)
| Disconnected (reason : string)
| MessageReceived (message : Message)
| MessageCreate (message : Message)
| MessageRevokeEveryone (message : Message) (revokedMsg : option Message)
    (now : Z).

(** ** The manager *)

Module AccountManager.

(** Account objects are shared: the map holds them, and every handler
    registered in [initializeAccount] holds the object it was registered for,
    also after the map has dropped it.  Objects therefore live in a store and
    are named by their position in it. *)
Abbreviation ref := nat (only parsing).

(** The exceptions of the source, under the names the specification gives
    them. *)
Inductive Error :=
| CapacityExceeded                         (* 'Maximum 10 accounts allowed' *)
| NotFound                                 (* 'Account not found' *)
| SessionNotInitialized    (* 'Account not found or not initialized' *)
| InitializationFailed (message : string)  (* rethrown by initializeAccount *)
| AutomationLayerError (message : string)  (* thrown by a client call *)
| NoActiveSession                          (* 'No active client' *)
| FileSystemError (message : string).      (* thrown by fs.rmSync *)

Inductive result (A : Type) : Type :=
| Returns (a : A) : result A
| Throws (e : Error) : result A.
Arguments Returns {A} a.
Arguments Throws {A} e.

(** Everything the manager passes to [this.emit]. *)
Inductive Event :=
| ev_account_created (id name : string)
| ev_account_deleted (id : string)
| ev_account_renamed (id name : string)
| ev_account_switched (accountId : string)
| ev_qr (accountId qr : string)
| ev_loading (accountId : string) (percent : Z) (message : string)
| ev_ready (accountId : string)
| ev_authenticated (accountId : string)
| ev_auth_failure (accountId message : string)
| ev_disconnected (accountId reason : string)
| ev_message (accountId : string) (message : Message)
| ev_message_sent (accountId : string) (message : Message)
| ev_message_revoked (accountId : string) (message : Message)
    (revokedMsg : option Message).

(** The callbacks the manager hands to [setTimeout], with what each closes
    over. *)
Inductive Callback :=
| LoadingFallback (account : ref) (accountId : string)
    (* loading_screen: if (!account.isReady) checkAndSetReady(accountId, 0) *)
| ReadySettled (account : ref) (accountId : string)
    (* the rest of the ready handler, after its await *)
| CheckAndSetReady (accountId : string) (retryCount : nat).

Record Timer := { callback : Callback; delay : Z }.

(** *** Asynchronous methods

    An [async] method runs synchronously up to its first [await] on the
    automation library and is resumed when that promise settles; other
    handlers and methods may run in between.  Such a method is embedded as
    the functions [_begin], up to the [await], and [_end], from it, and as
    their composition for the schedule in which nothing runs in between.

    A suspended method is recorded with what the rest of it still needs.
    [switching] tells an [initializeAccount] that [switchAccount] called and
    awaits from one called directly. *)

(** Which of its [initializeAccount] calls [initialize()] is at: that of the
    active account, whose error is caught and which a wait of 5 seconds
    follows; that of the default account or of the first account, whose
    error ends [initialize()]; or one of its loop over the accounts with
    stored sessions, whose error is caught and which a wait of 3 seconds
    follows. *)
Inductive Phase := ActiveFirst | DefaultOrFirst | Sequential.

Inductive Continuation :=
| AfterTeardown (accountId : string)
    (* deleteAccount at account.client.logout() and .destroy() *)
| AfterDestroy (account : ref) (accountId : string) (switching : bool)
    (* initializeAccount at account.client.destroy() *)
| AfterInitialize (account : ref) (accountId : string) (switching : bool)
    (* initializeAccount at client.initialize() *)
| AfterLogout (account : ref)
    (* logoutAccount at account.client.logout() *)
| AfterFetch (account : ref) (now : Z)
    (* getChats at client.getChats() *)
| AfterProbe (account : ref) (accountId : string) (retryCount : nat)
    (* checkAndSetReady at account.client.getChats() *)
| AfterInitializeAccount (k : Continuation) (phase : Phase)
    (rest : list ref)
    (* initialize() at await this.initializeAccount(...), a call that is
       itself suspended at k; rest is what is left of accountsWithSessions *)
| AfterWait (ms : Z) (rest : list ref).
    (* initialize() at its wait of ms milliseconds *)

(** How far a call of an [async] method got: it settled, or it is suspended
    at an [await] on the automation library. *)
Inductive Progress (A : Type) : Type :=
| Settled (r : A) : Progress A
| Pending (k : Continuation) : Progress A.
Arguments Settled {A} r.
Arguments Pending {A} k.

Record t := mk {
  (* the object store *)
  heap : list Account.t;
  (* fields of the class *)
  accounts : JsMap.t ref;
  activeAccountId : option string;
  deletedMessages : JsMap.t DeletedMessage.t;
  _chatsCache : Chats;
  _chatsCacheTime : Z;
  (* the world the manager acts on *)
  configFile : File ConfigData;                    (* data/accounts.json *)
  deletedMessagesFile : File (list (string * DeletedMessage.t));
  authDirs : list string;        (* ids with a .wwebjs_auth/session-<id> *)
  fsWritable : bool;             (* whether writeFileSync succeeds *)
  wired : list (ref * string);   (* per client made: the account it serves *)
  timers : list Timer;           (* pending setTimeout callbacks *)
  awaiting : list Continuation;  (* methods suspended at an await *)
  emitted : list Event           (* events emitted so far, oldest first *)
}.

Definition maxAccounts : nat := 10.

Definition _chatsCacheDuration : Z := 3000.

Definition set_heap (v : list Account.t) (m : t) : t :=
  mk v (accounts m) (activeAccountId m) (deletedMessages m) (_chatsCache m)
    (_chatsCacheTime m) (configFile m) (deletedMessagesFile m) (authDirs m)
    (fsWritable m) (wired m) (timers m) (awaiting m) (emitted m).

Definition set_accounts (v : JsMap.t ref) (m : t) : t :=
  mk (heap m) v (activeAccountId m) (deletedMessages m) (_chatsCache m)
    (_chatsCacheTime m) (configFile m) (deletedMessagesFile m) (authDirs m)
    (fsWritable m) (wired m) (timers m) (awaiting m) (emitted m).

Definition set_activeAccountId (v : option string) (m : t) : t :=
  mk (heap m) (accounts m) v (deletedMessages m) (_chatsCache m)
    (_chatsCacheTime m) (configFile m) (deletedMessagesFile m) (authDirs m)
    (fsWritable m) (wired m) (timers m) (awaiting m) (emitted m).

Definition set_deletedMessages (v : JsMap.t DeletedMessage.t) (m : t) : t :=
  mk (heap m) (accounts m) (activeAccountId m) v (_chatsCache m)
    (_chatsCacheTime m) (configFile m) (deletedMessagesFile m) (authDirs m)
    (fsWritable m) (wired m) (timers m) (awaiting m) (emitted m).

Definition set_chatsCache (v : Chats) (time : Z) (m : t) : t :=
  mk (heap m) (accounts m) (activeAccountId m) (deletedMessages m) v time
    (configFile m) (deletedMessagesFile m) (authDirs m) (fsWritable m)
    (wired m) (timers m) (awaiting m) (emitted m).

Definition set_configFile (v : File ConfigData) (m : t) : t :=
  mk (heap m) (accounts m) (activeAccountId m) (deletedMessages m)
    (_chatsCache m) (_chatsCacheTime m) v (deletedMessagesFile m)
    (authDirs m) (fsWritable m) (wired m) (timers m) (awaiting m)
    (emitted m).

Definition set_deletedMessagesFile (v : File (list (string * DeletedMessage.t))) (m : t) : t :=
  mk (heap m) (accounts m) (activeAccountId m) (deletedMessages m)
    (_chatsCache m) (_chatsCacheTime m) (configFile m) v (authDirs m)
    (fsWritable m) (wired m) (timers m) (awaiting m) (emitted m).

Definition set_authDirs (v : list string) (m : t) : t :=
  mk (heap m) (accounts m) (activeAccountId m) (deletedMessages m)
    (_chatsCache m) (_chatsCacheTime m) (configFile m)
    (deletedMessagesFile m) v (fsWritable m) (wired m) (timers m)
    (awaiting m) (emitted m).

Definition set_fsWritable (v : bool) (m : t) : t :=
  mk (heap m) (accounts m) (activeAccountId m) (deletedMessages m)
    (_chatsCache m) (_chatsCacheTime m) (configFile m)
    (deletedMessagesFile m) (authDirs m) v (wired m) (timers m) (awaiting m)
    (emitted m).

Definition set_wired (v : list (ref * string)) (m : t) : t :=
  mk (heap m) (accounts m) (activeAccountId m) (deletedMessages m)
    (_chatsCache m) (_chatsCacheTime m) (configFile m)
    (deletedMessagesFile m) (authDirs m) (fsWritable m) v (timers m)
    (awaiting m) (emitted m).

Definition set_timers (v : list Timer) (m : t) : t :=
  mk (heap m) (accounts m) (activeAccountId m) (deletedMessages m)
    (_chatsCache m) (_chatsCacheTime m) (configFile m)
    (deletedMessagesFile m) (authDirs m) (fsWritable m) (wired m) v
    (awaiting m) (emitted m).

Definition set_awaiting (v : list Continuation) (m : t) : t :=
  mk (heap m) (accounts m) (activeAccountId m) (deletedMessages m)
    (_chatsCache m) (_chatsCacheTime m) (configFile m)
    (deletedMessagesFile m) (authDirs m) (fsWritable m) (wired m) (timers m)
    v (emitted m).

Definition set_emitted (v : list Event) (m : t) : t :=
  mk (heap m) (accounts m) (activeAccountId m) (deletedMessages m)
    (_chatsCache m) (_chatsCacheTime m) (configFile m)
    (deletedMessagesFile m) (authDirs m) (fsWritable m) (wired m) (timers m)
    (awaiting m) v.
(** *** The object store *)

(** A reference is only ever made by [alloc], so it is always in range; out
    of range [read] answers a blank object, a case no method reaches. *)
Definition blank : Account.t :=
  Account.mk "" "" None 0 None false false false None None.

Definition read (r : ref) (m : t) : Account.t := nth r (heap m) blank.

Definition alloc (a : Account.t) (m : t) : ref * t :=
  (List.length (heap m), set_heap (heap m ++ [a]) m).

Fixpoint update_nth {A} (n : nat) (f : A -> A) (l : list A) : list A :=
  match l, n with
  | [], _ => []
  | x :: rest, O => f x :: rest
  | x :: rest, S n' => x :: update_nth n' f rest
  end.

(** An assignment to fields of the object [r]. *)
Definition modify (r : ref) (f : Account.t -> Account.t) (m : t) : t :=
  set_heap (update_nth r f (heap m)) m.

(** [this.emit(...)]: the listeners of [index.js] only read the manager. *)
Definition emit (e : Event) (m : t) : t := set_emitted (emitted m ++ [e]) m.

Definition setTimeout (cb : Callback) (ms : Z) (m : t) : t :=
  set_timers (timers m ++ [{| callback := cb; delay := ms |}]) m.

Definition suspend (k : Continuation) (m : t) : t :=
  set_awaiting (awaiting m ++ [k]) m.

(** The account objects of the map, in iteration order. *)
Definition account_values (m : t) : list Account.t :=
  map (fun r => read r m) (JsMap.values (accounts m)).

(** *** Deleted-message ledger *)

(** [saveDeletedMessages]: a failed write is caught and logged. *)
Definition saveDeletedMessages (m : t) : t :=
  if fsWritable m
  then set_deletedMessagesFile (Json (deletedMessages m)) m
  else m.

(** [loadDeletedMessages]: [new Map(Object.entries(data))]. *)
Definition loadDeletedMessages (m : t) : t :=
  match deletedMessagesFile m with
  | Json data =>
      set_deletedMessages
        (fold_left (fun acc kv => JsMap.set (fst kv) (snd kv) acc) data
           JsMap.empty) m
  | _ => m
  end.

Definition saveDeletedMessage (messageData : DeletedMessage.t) (m : t) : t :=
  saveDeletedMessages
    (set_deletedMessages
       (JsMap.set (DeletedMessage.id messageData) messageData
          (deletedMessages m)) m).

(** The loop of [getDeletedMessagesForChat] over the entries of the map. *)
Fixpoint collectForChat (chatId : string)
  (entries : list (string * DeletedMessage.t)) : list DeletedMessage.t :=
  match entries with
  | [] => []
  | (_, msg) :: rest =>
      if Js.strict_eq (DeletedMessage.chatId msg) chatId
      then msg :: collectForChat chatId rest
      else collectForChat chatId rest
  end.

Definition getDeletedMessagesForChat (chatId : string) (m : t)
  : list DeletedMessage.t :=
  collectForChat chatId (deletedMessages m).

(** *** Account store *)

Definition meta_of (acc : Account.t) : AccountMeta :=
  {| meta_id := Account.id acc;
     meta_name := Account.name acc;
     meta_phone := Account.phone acc;
     meta_createdAt := Account.createdAt acc |}.

(** [saveAccountsConfig]: a failed write is caught and logged. *)
Definition saveAccountsConfig (m : t) : t :=
  if fsWritable m
  then set_configFile
         (Json {| cfg_activeAccountId := activeAccountId m;
                  cfg_accounts := Some (map meta_of (account_values m)) |}) m
  else m.

(** The object [loadAccountsConfig] makes of one saved account. *)
Definition loadedAccount (hasSession : bool) (acc : AccountMeta) : Account.t :=
  Account.mk (meta_id acc) (meta_name acc) (Js.or_null (meta_phone acc))
    (meta_createdAt acc) None false false false None (Some hasSession).

(** The body of the [forEach] in [loadAccountsConfig]. *)
Definition loadAccount (acc : AccountMeta) (m : t) : t :=
  let hasSession := existsb (String.eqb (meta_id acc)) (authDirs m) in
  let '(r, m1) := alloc (loadedAccount hasSession acc) m in
  set_accounts (JsMap.set (meta_id acc) r (accounts m1)) m1.

Definition loadAccountsConfig (m : t) : t :=
  match configFile m with
  | Json data =>
      let m1 := set_activeAccountId (Js.or_null (cfg_activeAccountId data)) m in
      match cfg_accounts data with
      | Some accs => fold_left (fun s acc => loadAccount acc s) accs m1
      | None => m1
      end
  | _ => m   (* no file, or JSON.parse threw and the error was logged *)
  end.

(** The constructor, run once at process start on what is on disk. *)
Definition constructor (config : File ConfigData)
  (deleted : File (list (string * DeletedMessage.t)))
  (dirs : list string) (writable : bool) : t :=
  loadDeletedMessages
    (loadAccountsConfig
       (mk [] JsMap.empty None JsMap.empty Js.Null 0 config deleted dirs
           writable [] [] [] [])).

(** A process restart: a new manager over the same disk. *)
Definition restart (m : t) : t :=
  constructor (configFile m) (deletedMessagesFile m) (authDirs m)
    (fsWritable m).

(** ['acc_' + Date.now() + '_' + Math.random().toString(36).substr(2, 9)];
    [random] is the suffix cut out of the random number. *)
Definition generateAccountId (now : Z) (random : string) : string :=
  ("acc_" ++ Js.string_of_Z now ++ "_" ++ random)%string.

(** [createAccount(name)].  [now] and [random] feed [generateAccountId],
    [now'] is the later [Date.now()] stored as [createdAt]. *)
Definition createAccount (name : option string) (now : Z) (random : string)
  (now' : Z) (m : t) : result ref * t :=
  if (maxAccounts <=? JsMap.size (accounts m))%nat
  then (Throws CapacityExceeded, m)
  else
    let id := generateAccountId now random in
    let account :=
      Account.mk id
        (Js.or_default name
           ("Account " ++ Js.string_of_nat (JsMap.size (accounts m) + 1))%string)
        None now' None false false false None None in
    let '(r, m1) := alloc account m in
    let m2 := set_accounts (JsMap.set id r (accounts m1)) m1 in
    let m3 :=
      if (JsMap.size (accounts m2) =? 1)%nat
      then set_activeAccountId (Some id) m2
      else m2 in
    let m4 := saveAccountsConfig m3 in
    (Returns r, emit (ev_account_created id (Account.name account)) m4).

(** [deleteAccount(accountId)] from [this.accounts.delete(accountId)] on,
    with the credential directory gone. *)
Definition deleteAccount_commit (accountId : string) (m : t) : t :=
  let m1 :=
    set_authDirs
      (filter (fun d => negb (String.eqb d accountId)) (authDirs m)) m in
  let m2 := set_accounts (JsMap.delete accountId (accounts m1)) m1 in
  let m3 :=
    if Js.strict_eq (activeAccountId m2) accountId
    then set_activeAccountId
           (Js.or_null (JsMap.first_key (accounts m2))) m2
    else m2 in
  let m4 := saveAccountsConfig m3 in
  emit (ev_account_deleted accountId) m4.

(** [deleteAccount(accountId)] once the client, if any, is torn down:
    [if (fs.existsSync(authPath)) fs.rmSync(authPath, ...)] and the rest.
    [rmThrows] is how [rmSync] turns out, should the method call it: the
    call is in no [try], so that an error of it (a directory that is busy or
    may not be removed) ends the method before anything is deleted. *)
Definition deleteAccount_end (accountId : string) (rmThrows : option string)
  (m : t) : result unit * t :=
  if existsb (String.eqb accountId) (authDirs m)
  then
    match rmThrows with
    | Some message => (Throws (FileSystemError message), m)
    | None => (Returns tt, deleteAccount_commit accountId m)
    end
  else (Returns tt, deleteAccount_commit accountId m).

(** [deleteAccount(accountId)] up to its [await] of [account.client.logout()]
    and [account.client.destroy()].  The method touches nothing between those
    two and catches their errors, so they count as one suspension; without a
    client it runs to its end at once. *)
Definition deleteAccount_begin (accountId : string)
  (rmThrows : option string) (m : t) : Progress (result unit) * t :=
  match JsMap.get accountId (accounts m) with
  | None => (Settled (Throws NotFound), m)
  | Some account =>
      match Account.client (read account m) with
      | Some _ => (Pending (AfterTeardown accountId), m)
      | None =>
          (Settled (fst (deleteAccount_end accountId rmThrows m)),
           snd (deleteAccount_end accountId rmThrows m))
      end
  end.

(** The whole method, when nothing runs while it is suspended. *)
Definition deleteAccount (accountId : string) (rmThrows : option string)
  (m : t) : result unit * t :=
  match deleteAccount_begin accountId rmThrows m with
  | (Settled r, m1) => (r, m1)
  | (Pending _, m1) => deleteAccount_end accountId rmThrows m1
  end.

Definition renameAccount (accountId newName : string) (m : t)
  : result unit * t :=
  match JsMap.get accountId (accounts m) with
  | None => (Throws NotFound, m)
  | Some account =>
      let m1 := modify account (Account.set_name newName) m in
      let m2 := saveAccountsConfig m1 in
      (Returns tt, emit (ev_account_renamed accountId newName) m2)
  end.

(** [getActiveAccount()]. *)
Definition getActiveAccount (m : t) : option ref :=
  match activeAccountId m with
  | None => None
  | Some id => if Js.truthy id then JsMap.get id (accounts m) else None
  end.

(** [getActiveClient()]. *)
Definition getActiveClient (m : t) : option Client :=
  match getActiveAccount m with
  | Some account => Account.client (read account m)
  | None => None
  end.

(** What the clients show at one moment. *)
Definition World := Client -> ClientView.

(** *** Session initialization *)

(** How [new Client(...)] and [client.initialize()] turn out. *)
Inductive InitOutcome :=
| ConstructorThrows (message : string)
| InitializeRejects (message : string)
| InitializeResolves.

Definition constructorThrows (o : InitOutcome) : option string :=
  match o with ConstructorThrows msg => Some msg | _ => None end.

Definition settlement_of (o : InitOutcome) : Settlement :=
  match o with
  | InitializeRejects msg => Rejected msg
  | _ => Resolved Js.Null
  end.

(** The [try] block of [initializeAccount] up to [await
    client.initialize()].  [new Client] takes the next handle, and the
    handlers registered on it close over [account] and [accountId]. *)
Definition initializeAccount_connect (account : ref) (accountId : string)
  (ctorThrows : option string) (switching : bool) (m : t)
  : Progress (result unit) * t :=
  match ctorThrows with
  | Some msg =>
      (Settled (Throws (InitializationFailed msg)),
       modify account (Account.set_isInitializing false) m)
  | None =>
      let client := List.length (wired m) in
      let m1 := set_wired (wired m ++ [(account, accountId)]) m in
      let m2 := modify account (Account.set_client (Some client)) m1 in
      (Pending (AfterInitialize account accountId switching), m2)
  end.

(** [initializeAccount(accountId)] up to its first [await]: that of
    [account.client.destroy()] when the account has a client already, that of
    [client.initialize()] otherwise. *)
Definition initializeAccount_begin (accountId : string)
  (ctorThrows : option string) (switching : bool) (m : t)
  : Progress (result unit) * t :=
  match JsMap.get accountId (accounts m) with
  | None => (Settled (Throws NotFound), m)
  | Some account =>
      if Account.isInitializing (read account m)
      then (Settled (Returns tt), m)
      else
        let m1 := modify account (Account.set_isInitializing true) m in
        match Account.client (read account m1) with
        | Some _ => (Pending (AfterDestroy account accountId switching), m1)
        | None =>
            initializeAccount_connect account accountId ctorThrows switching m1
        end
  end.

(** The rest of [initializeAccount] once [client.initialize()] settled. *)
Definition initializeAccount_end (account : ref) (s : Settlement) (m : t)
  : result unit * t :=
  match s with
  | Resolved _ => (Returns tt, m)
  | Rejected msg =>
      (Throws (InitializationFailed msg),
       modify account (Account.set_isInitializing false) m)
  end.

(** An [initializeAccount] that got as far as [p] run to its end, when
    nothing runs while it is suspended.  Errors of [destroy()] are caught, so
    how that settles does not matter. *)
Definition initializeAccount_finish (outcome : InitOutcome)
  (p : Progress (result unit) * t) : result unit * t :=
  match p with
  | (Settled r, m) => (r, m)
  | (Pending (AfterInitialize account _ _), m) =>
      initializeAccount_end account (settlement_of outcome) m
  | (Pending _, m) => (Returns tt, m)
  end.

Definition initializeAccount_rest (outcome : InitOutcome)
  (p : Progress (result unit) * t) : result unit * t :=
  match p with
  | (Pending (AfterDestroy account accountId switching), m) =>
      initializeAccount_finish outcome
        (initializeAccount_connect account accountId
           (constructorThrows outcome) switching m)
  | _ => initializeAccount_finish outcome p
  end.

Definition initializeAccount (accountId : string) (outcome : InitOutcome)
  (m : t) : result unit * t :=
  initializeAccount_rest outcome
    (initializeAccount_begin accountId (constructorThrows outcome) false m).

(** *** Handlers registered by [initializeAccount]

    Each closes over [account], [accountId] and [client]; [info] is
    [client.info] at the time the handler runs. *)

Definition on_qr (account : ref) (accountId qr : string) (m : t) : t :=
  emit (ev_qr accountId qr) (modify account (Account.set_qrCode (Some qr)) m).

Definition on_loading_screen (account : ref) (accountId : string)
  (percent : Z) (message : string) (m : t) : t :=
  let m1 := emit (ev_loading accountId percent message) m in
  if (99 <=? percent)%Z && Account.isAuthenticated (read account m1)
     && negb (Account.isReady (read account m1))
  then setTimeout (LoadingFallback account accountId) 15000 m1
  else m1.

(** [try { const info = client.info; if (info && info.wid) { account.phone =
    info.wid.user; this.saveAccountsConfig(); } } catch (err) { ... }] *)
Definition recordPhone (account : ref) (i : Info) (m : t) : t :=
  match i with
  | Wid user =>
      saveAccountsConfig (modify account (Account.set_phone (Some user)) m)
  | _ => m
  end.

(** The ready handler up to its [await] of ten seconds. *)
Definition on_ready (account : ref) (accountId : string) (i : Info) (m : t)
  : t :=
  let m1 := modify account (Account.set_isAuthenticated true) m in
  let m2 := modify account (Account.set_qrCode None) m1 in
  let m3 := recordPhone account i m2 in
  setTimeout (ReadySettled account accountId) 10000 m3.

(** The ready handler after its [await]. *)
Definition on_ready_settled (account : ref) (accountId : string) (m : t)
  : t :=
  let m1 := modify account (Account.set_isReady true) m in
  let m2 := modify account (Account.set_isInitializing false) m1 in
  emit (ev_ready accountId) m2.

Definition on_authenticated (account : ref) (accountId : string) (m : t)
  : t :=
  let m1 := modify account (Account.set_isAuthenticated true) m in
  let m2 := emit (ev_authenticated accountId) m1 in
  setTimeout (CheckAndSetReady accountId 0) 20000 m2.

Definition on_auth_failure (account : ref) (accountId msg : string) (m : t)
  : t :=
  let m1 := modify account (Account.set_isAuthenticated false) m in
  let m2 := modify account (Account.set_isInitializing false) m1 in
  emit (ev_auth_failure accountId msg) m2.

Definition on_disconnected (account : ref) (accountId reason : string)
  (m : t) : t :=
  let m1 := modify account (Account.set_isReady false) m in
  let m2 := modify account (Account.set_isAuthenticated false) m1 in
  emit (ev_disconnected accountId reason) m2.

Definition on_message (account : ref) (accountId : string)
  (message : Message) (i : Info) (m : t) : t :=
  let m' :=
    if negb (Account.isReady (read account m))
       && Account.isAuthenticated (read account m)
    then
      let m1 := modify account (Account.set_isReady true) m in
      let m2 := modify account (Account.set_isInitializing false) m1 in
      let m3 :=
        if Js.falsy (Account.phone (read account m2))
        then recordPhone account i m2
        else m2 in
      emit (ev_ready accountId) m3
    else m in
  emit (ev_message accountId message) m'.

Definition on_message_create (accountId : string) (message : Message)
  (m : t) : t :=
  if msg_fromMe message then emit (ev_message_sent accountId message) m
  else m.

(** [a || b] on two strings that may be missing. *)
Definition or_else (a b : option string) : option string :=
  match Js.or_null a with Some s => Some s | None => b end.

Definition on_message_revoke_everyone (accountId : string)
  (message : Message) (revokedMsg : option Message) (now : Z) (m : t) : t :=
  let m1 :=
    match revokedMsg with
    | Some revoked =>
        saveDeletedMessage
          {| DeletedMessage.id := msg_id revoked;
             DeletedMessage.chatId := or_else (msg_from message) (msg_to message);
             DeletedMessage.body := Js.or_default (Some (msg_body revoked)) "[Media]";
             DeletedMessage.timestamp := msg_timestamp revoked;
             DeletedMessage.fromMe := msg_fromMe revoked;
             DeletedMessage.author := Js.or_null (msg_author revoked);
             DeletedMessage.type := "revoked";
             DeletedMessage.hasMedia := msg_hasMedia revoked;
             DeletedMessage.deletedAt := now;
             DeletedMessage.originalType := msg_type revoked;
             DeletedMessage.accountId := accountId |} m
    | None => m
    end in
  emit (ev_message_revoked accountId message revokedMsg) m1.

(** *** Switching *)

(** The test of [switchAccount] for starting an initialization: the two
    branches of its [if ... else if]. *)
Definition needsInitialization (acc : Account.t) : bool :=
  let hasClient :=
    match Account.client acc with Some _ => true | None => false end in
  if negb hasClient && negb (Account.isInitializing acc) then true
  else if hasClient && negb (Account.isReady acc)
          && negb (Account.isInitializing acc) then true
  else false.

(** [switchAccount(accountId)] up to its [await this.initializeAccount]. *)
Definition switchAccount_begin (accountId : string)
  (ctorThrows : option string) (m : t) : Progress (result ref) * t :=
  match JsMap.get accountId (accounts m) with
  | None => (Settled (Throws NotFound), m)
  | Some account =>
      let previousAccountId := activeAccountId m in
      let m1 :=
        if negb (Js.falsy previousAccountId)
           && negb (Js.strict_eq previousAccountId accountId)
        then
          match previousAccountId with
          | Some previous =>
              match JsMap.get previous (accounts m) with
              | Some _ => saveAccountsConfig m
              | None => m
              end
          | None => m
          end
        else m in
      let m2 := set_activeAccountId (Some accountId) m1 in
      let m3 := saveAccountsConfig m2 in
      if needsInitialization (read account m3)
      then
        match initializeAccount_begin accountId ctorThrows true m3 with
        | (Settled (Throws e), m4) => (Settled (Throws e), m4)
        | (Settled (Returns _), m4) =>
            (Settled (Returns account),
             emit (ev_account_switched accountId) m4)
        | (Pending k, m4) => (Pending k, m4)
        end
      else
        (Settled (Returns account), emit (ev_account_switched accountId) m3)
  end.

(** The rest of [switchAccount] once the initialization it awaits
    settled. *)
Definition switchAccount_end (account : ref) (accountId : string)
  (r : result unit * t) : result ref * t :=
  match r with
  | (Returns _, m) =>
      (Returns account, emit (ev_account_switched accountId) m)
  | (Throws e, m) => (Throws e, m)
  end.

Definition switchAccount (accountId : string) (outcome : InitOutcome)
  (m : t) : result ref * t :=
  match switchAccount_begin accountId (constructorThrows outcome) m with
  | (Settled r, m1) => (r, m1)
  | (Pending ((AfterDestroy account id _ | AfterInitialize account id _)
              as k), m1) =>
      switchAccount_end account id
        (initializeAccount_rest outcome (Pending k, m1))
  | (Pending _, m1) => (Throws NotFound, m1)
  end.

(** *** Status and listing *)

(** The repair done by [getAllAccounts] and [getAccountStatus] before they
    answer: an authenticated account whose client knows its identity is
    declared ready. *)
Definition fixReadyState (world : World) (account : ref) (m : t) : t :=
  let acc := read account m in
  match Account.client acc with
  | Some c =>
      if Account.isAuthenticated acc && negb (Account.isReady acc)
      then
        match info (world c) with
        | Wid user =>
            let m1 := modify account (Account.set_isReady true) m in
            let m2 := modify account (Account.set_isInitializing false) m1 in
            if Js.falsy (Account.phone (read account m2))
            then saveAccountsConfig
                   (modify account (Account.set_phone (Some user)) m2)
            else m2
        | _ => m
        end
      else m
  | None => m
  end.

(** One entry of the answer of [getAllAccounts]. *)
Record AccountView := {
  view_id : string;
  view_name : string;
  view_phone : option string;
  view_createdAt : Z;
  view_isReady : bool;
  view_isAuthenticated : bool;
  view_isInitializing : bool;
  view_hasQR : bool;
  view_isActive : bool
}.

Definition view_of (m : t) (acc : Account.t) : AccountView :=
  {| view_id := Account.id acc;
     view_name := Account.name acc;
     view_phone := Account.phone acc;
     view_createdAt := Account.createdAt acc;
     view_isReady := Account.isReady acc;
     view_isAuthenticated := Account.isAuthenticated acc;
     view_isInitializing := Account.isInitializing acc;
     view_hasQR := negb (Js.falsy (Account.qrCode acc));
     view_isActive := Js.strict_eq (activeAccountId m) (Account.id acc) |}.

Definition getAllAccounts (world : World) (m : t) : list AccountView * t :=
  let m1 :=
    fold_left (fun s account => fixReadyState world account s)
      (JsMap.values (accounts m)) m in
  (map (view_of m1) (account_values m1), m1).

(** [getAccountStatus(accountId)]; the status carries no [createdAt]. *)
Definition getAccountStatus (world : World) (accountId : string) (m : t)
  : option AccountView * t :=
  match JsMap.get accountId (accounts m) with
  | None => (None, m)
  | Some account =>
      let m1 := fixReadyState world account m in
      (Some (view_of m1 (read account m1)), m1)
  end.

(** [logoutAccount(accountId)] up to [await account.client.logout()]; it
    changes nothing. *)
Definition logoutAccount_begin (accountId : string) (m : t)
  : Progress (result unit) :=
  match JsMap.get accountId (accounts m) with
  | None => Settled (Throws SessionNotInitialized)
  | Some account =>
      match Account.client (read account m) with
      | None => Settled (Throws SessionNotInitialized)
      | Some _ => Pending (AfterLogout account)
      end
  end.

(** The rest of [logoutAccount] once [logout()] settled. *)
Definition logoutAccount_end (account : ref) (logout : Settlement) (m : t)
  : result unit * t :=
  match logout with
  | Rejected msg => (Throws (AutomationLayerError msg), m)
  | Resolved _ =>
      let m1 := modify account (Account.set_isReady false) m in
      let m2 := modify account (Account.set_isAuthenticated false) m1 in
      let m3 := modify account (Account.set_phone None) m2 in
      (Returns tt, saveAccountsConfig m3)
  end.

Definition logoutAccount (accountId : string) (logout : Settlement) (m : t)
  : result unit * t :=
  match logoutAccount_begin accountId m with
  | Settled r => (r, m)
  | Pending (AfterLogout account) => logoutAccount_end account logout m
  | Pending _ => (Throws SessionNotInitialized, m)
  end.


(** *** Readiness monitor *)

Definition maxRetries : nat := 60.

(** [if (retryCount < maxRetries) setTimeout(() =>
    this.checkAndSetReady(accountId, retryCount + 1), 5000)] *)
Definition retryLater (accountId : string) (retryCount : nat) (m : t) : t :=
  if (retryCount <? maxRetries)%nat
  then setTimeout (CheckAndSetReady accountId (retryCount + 1)) 5000 m
  else m.

(** [checkAndSetReady(accountId, retryCount)] up to
    [await account.client.getChats()]. *)
Definition checkAndSetReady_begin (accountId : string) (retryCount : nat)
  (world : World) (m : t) : Progress unit * t :=
  match JsMap.get accountId (accounts m) with
  | None => (Settled tt, m)
  | Some account =>
      if Account.isReady (read account m) then (Settled tt, m)
      else
        match Account.client (read account m) with
        | None => (Settled tt, retryLater accountId retryCount m)
        | Some c =>
            match pupPage (world c) with
            | NoPage => (Settled tt, retryLater accountId retryCount m)
            | ClosedPage => (Settled tt, retryLater accountId retryCount m)
            | PageThrows => (Settled tt, retryLater accountId retryCount m)
            | OpenPage =>
                if negb (hasGetChats (world c))
                then (Settled tt, retryLater accountId retryCount m)
                else (Pending (AfterProbe account accountId retryCount), m)
            end
        end
  end.

(** The rest of [checkAndSetReady] once the probe settled.  Reading
    [account.client.info] may throw, which the [catch] around the probe
    takes like a failed probe. *)
Definition checkAndSetReady_end (account : ref) (accountId : string)
  (retryCount : nat) (probe : Settlement) (world : World) (m : t) : t :=
  match probe with
  | Rejected _ => retryLater accountId retryCount m
  | Resolved testChats =>
      if Js.is_truthy testChats && Js.isArray testChats
      then
        match Account.client (read account m) with
        | None => retryLater accountId retryCount m
        | Some c =>
            match info (world c) with
            | InfoThrows => retryLater accountId retryCount m
            | i =>
                let m1 := recordPhone account i m in
                let m2 := modify account (Account.set_isReady true) m1 in
                let m3 := modify account (Account.set_isInitializing false) m2 in
                emit (ev_ready accountId) m3
            end
        end
      else retryLater accountId retryCount m
  end.

Definition checkAndSetReady (accountId : string) (retryCount : nat)
  (world : World) (probe : Settlement) (m : t) : t :=
  match checkAndSetReady_begin accountId retryCount world m with
  | (Settled _, m1) => m1
  | (Pending (AfterProbe account id n), m1) =>
      checkAndSetReady_end account id n probe world m1
  | (Pending _, m1) => m1
  end.

(** The calls that one call of [checkAndSetReady] sets off through its own
    [setTimeout], when nothing else runs in between: the timer the call has
    just scheduled, if any, is taken off and its callback run.  [env k] is
    what the call with retry count [k] finds.  Answers the number of calls
    made, or [None] when [fuel] calls did not end the chain. *)
Fixpoint readinessMonitor (fuel : nat) (env : nat -> World * Settlement)
  (accountId : string) (retryCount : nat) (m : t) : option (nat * t) :=
  match fuel with
  | O => None
  | S fuel' =>
      let before := List.length (timers m) in
      let m1 :=
        checkAndSetReady accountId retryCount (fst (env retryCount))
          (snd (env retryCount)) m in
      match nth_error (timers m1) before with
      | Some {| callback := CheckAndSetReady id' n' |} =>
          match readinessMonitor fuel' env id' n'
                  (set_timers (firstn before (timers m1)) m1) with
          | Some (calls, m2) => Some (S calls, m2)
          | None => None
          end
      | _ => Some (1%nat, m1)
      end
  end.

(** *** Chats *)

(** [getChats()] up to [await client.getChats()]; it changes nothing. *)
Definition getChats_begin (now : Z) (world : World) (m : t)
  : Progress Chats :=
  match getActiveAccount m with
  | None => Settled (Js.Arr [])
  | Some account =>
      match Account.client (read account m) with
      | None => Settled (Js.Arr [])
      | Some client =>
          if negb (Account.isReady (read account m))
             && negb (Account.isAuthenticated (read account m))
          then Settled (Js.Arr [])
          else if Js.is_truthy (_chatsCache m)
                  && (now - _chatsCacheTime m <? _chatsCacheDuration)%Z
          then Settled (_chatsCache m)
          else
            match pupPage (world client) with
            | NoPage => Settled (Js.or_empty (_chatsCache m))
            | ClosedPage => Settled (Js.or_empty (_chatsCache m))
            | PageThrows => Settled (Js.or_empty (_chatsCache m))
            | OpenPage =>
                if negb (hasGetChats (world client))
                then Settled (Js.or_empty (_chatsCache m))
                else
                  match info (world client) with
                  | InfoThrows => Settled (Js.or_empty (_chatsCache m))
                  | NoInfo => Settled (Js.or_empty (_chatsCache m))
                  | Wid _ => Pending (AfterFetch account now)
                  end
            end
      end
  end.

(** The rest of [getChats] once [client.getChats()] settled. *)
Definition getChats_end (account : ref) (now : Z) (fetch : Settlement)
  (m : t) : Chats * t :=
  match fetch with
  | Rejected _ => (Js.or_empty (_chatsCache m), m)
  | Resolved chats =>
      let m1 := set_chatsCache chats now m in
      if Js.is_truthy chats && Js.isArray chats
         && negb (Account.isReady (read account m1))
      then
        let m2 := modify account (Account.set_isReady true) m1 in
        let m3 := modify account (Account.set_isInitializing false) m2 in
        (chats, emit (ev_ready (Account.id (read account m3))) m3)
      else (chats, m1)
  end.

Definition getChats (now : Z) (world : World) (fetch : Settlement) (m : t)
  : Chats * t :=
  match getChats_begin now world m with
  | Settled chats => (chats, m)
  | Pending (AfterFetch account now') => getChats_end account now' fetch m
  | Pending _ => (Js.Arr [], m)
  end.

(** *** The facade over the active account *)

(** [getQRCode].  The class declares a method of this name twice: first as
    [getQRCode(accountId)], which looks the account up in the map, and
    further down as [getQRCode()], which takes the active account.  The
    later declaration replaces the earlier one on the prototype, so it is
    the one every caller reaches, whatever argument the caller passes. *)
Definition getQRCode_replaced (accountId : string) (m : t) : option string :=
  match JsMap.get accountId (accounts m) with
  | Some account => Account.qrCode (read account m)
  | None => None
  end.

Definition getQRCode (m : t) : option string :=
  match getActiveAccount m with
  | Some account => Account.qrCode (read account m)
  | None => None
  end.

(** The answer of [getStatus()]; without an active account it has no
    [accountName] and no [phone]. *)
Record Status := {
  status_isReady : bool;
  status_isAuthenticated : bool;
  status_hasQR : bool;
  status_activeAccountId : option string;
  status_accountName : option string;
  status_phone : option string
}.

Definition getStatus (m : t) : Status :=
  match getActiveAccount m with
  | None =>
      {| status_isReady := false;
         status_isAuthenticated := false;
         status_hasQR := false;
         status_activeAccountId := None;
         status_accountName := None;
         status_phone := None |}
  | Some account =>
      let acc := read account m in
      {| status_isReady := Account.isReady acc;
         status_isAuthenticated := Account.isAuthenticated acc;
         status_hasQR := negb (Js.falsy (Account.qrCode acc));
         status_activeAccountId := activeAccountId m;
         status_accountName := Some (Account.name acc);
         status_phone := Account.phone acc |}
  end.

(** [getChatById], [sendMessage], [getContactById], [getMessages] and
    [getContactInfo] begin alike, with [const client =
    this.getActiveClient(); if (!client) throw new Error('No active
    client')], and then call that client; each answers here the client its
    call goes to. *)
Definition requireActiveClient (m : t) : result Client :=
  match getActiveClient m with
  | Some client => Returns client
  | None => Throws NoActiveSession
  end.

Definition getChatById (chatId : string) (m : t) : result Client :=
  requireActiveClient m.

Definition sendMessage (chatId content : string) (m : t) : result Client :=
  requireActiveClient m.

Definition getContactById (contactId : string) (m : t) : result Client :=
  requireActiveClient m.

Definition getMessages (chatId : string) (m : t) : result Client :=
  requireActiveClient m.

Definition getContactInfo (contactId : string) (m : t) : result Client :=
  requireActiveClient m.


(** *** Startup *)

(** The first [initializeAccount] call of [initialize()]: the method from
    its [if] up to where that call returns or is suspended, with how far the
    call got.  An error of the call is caught in the first branch and ends
    [initialize()] in the other two. *)
Definition initialize_begin (now : Z) (random : string) (now' : Z)
  (ctorThrows : option string) (m : t) : Progress (result unit) * t :=
  let otherwise :=
    if (JsMap.size (accounts m) =? 0)%nat
    then
      (* no account at all: a default account is created and started *)
      match createAccount (Some "Main Account") now random now' m with
      | (Returns defaultAccount, m1) =>
          initializeAccount_begin (Account.id (read defaultAccount m1))
            ctorThrows false m1
      | (Throws e, m1) => (Settled (Throws e), m1)
      end
    else
      (* the first account becomes the active one *)
      let firstId := JsMap.first_key (accounts m) in
      let m1 := saveAccountsConfig (set_activeAccountId firstId m) in
      match firstId with
      | Some first => initializeAccount_begin first ctorThrows false m1
      | None => (Settled (Throws NotFound), m1)
      end in
  match activeAccountId m with
  | Some id =>
      if Js.truthy id && JsMap.has id (accounts m)
      then initializeAccount_begin id ctorThrows false m
      else otherwise
  | None => otherwise
  end.

(** [Array.from(this.accounts.values()).filter(acc => acc.hasStoredSession)]:
    the account objects loaded with a credential directory on disk. *)
Definition accountsWithSessions (m : t) : list ref :=
  filter
    (fun account =>
       match Account.hasStoredSession (read account m) with
       | Some stored => stored
       | None => false
       end)
    (JsMap.values (accounts m)).

(** The loop of [initialize()] over what is left of [accountsWithSessions],
    up to its next [await] that waits: an account that is the active one at
    that time is skipped, the others are initialized one after the other.
    [ctorThrows] is how [new Client] turns out in this run. *)
Fixpoint initialize_loop (rest : list ref) (ctorThrows : option string)
  (m : t) : t :=
  match rest with
  | [] => m
  | acc :: rest' =>
      if Js.strict_eq (activeAccountId m) (Account.id (read acc m))
      then initialize_loop rest' ctorThrows m
      else
        match
          initializeAccount_begin (Account.id (read acc m)) ctorThrows false m
        with
        | (Pending k, m1) =>
            suspend (AfterInitializeAccount k Sequential rest') m1
        | (Settled (Returns _), m1) => suspend (AfterWait 3000 rest') m1
        | (Settled (Throws _), m1) => initialize_loop rest' ctorThrows m1
        end
  end.

(** How [initialize()] goes on from one of its [initializeAccount] calls,
    given how far that call got. *)
Definition initialize_next (phase : Phase) (rest : list ref)
  (ctorThrows : option string) (p : Progress (result unit) * t) : t :=
  match p with
  | (Pending k, m1) => suspend (AfterInitializeAccount k phase rest) m1
  | (Settled (Returns _), m1) =>
      match phase with
      | ActiveFirst => suspend (AfterWait 5000 rest) m1
      | DefaultOrFirst => initialize_loop rest ctorThrows m1
      | Sequential => suspend (AfterWait 3000 rest) m1
      end
  | (Settled (Throws _), m1) =>
      match phase with
      | DefaultOrFirst => m1      (* the error ends initialize() *)
      | _ => initialize_loop rest ctorThrows m1
      end
  end.

(** [initialize()] up to its first [await] that waits. *)
Definition initialize (now : Z) (random : string) (now' : Z)
  (ctorThrows : option string) (m : t) : t :=
  let phase :=
    match activeAccountId m with
    | Some id =>
        if Js.truthy id && JsMap.has id (accounts m)
        then ActiveFirst else DefaultOrFirst
    | None => DefaultOrFirst
    end in
  initialize_next phase (accountsWithSessions m) ctorThrows
    (initialize_begin now random now' ctorThrows m).

(** *** The event loop

    One input is one synchronous run of the manager: a method called until
    it returns or reaches an [await], a handler run on a client event, a
    timer callback, or a suspended method resumed.  [world] is the state of
    the clients at that moment. *)

Inductive Input :=
| CallCreateAccount (name : option string) (now : Z) (random : string)
    (now' : Z)
| CallDeleteAccount (accountId : string) (rmThrows : option string)
| CallRenameAccount (accountId newName : string)
| CallInitializeAccount (accountId : string) (ctorThrows : option string)
| CallSwitchAccount (accountId : string) (ctorThrows : option string)
| CallLogoutAccount (accountId : string)
| CallGetAllAccounts
| CallGetAccountStatus (accountId : string)
| CallGetChats (now : Z)
| CallInitialize (now : Z) (random : string) (now' : Z)
    (ctorThrows : option string)
| ClientEmits (client : Client) (e : ClientEvent)
| TimerFires (n : nat)
| PromiseSettles (n : nat) (s : Settlement) (ctorThrows : option string)
| SessionStored (accountId : string)   (* the library saves credentials *)
| DiskBecomes (writable : bool)
| ProcessRestarts.

Fixpoint remove_nth {A} (n : nat) (l : list A) : list A :=
  match l, n with
  | [], _ => []
  | _ :: rest, O => rest
  | x :: rest, S n' => x :: remove_nth n' rest
  end.

(** Leaves a method that reached an [await] among the suspended ones. *)
Definition start {A} (p : Progress A * t) : t :=
  match p with
  | (Settled _, m) => m
  | (Pending k, m) => suspend k m
  end.

Definition handle (account : ref) (accountId : string) (view : ClientView)
  (e : ClientEvent) (m : t) : t :=
  match e with
  | Qr qr => on_qr account accountId qr m
  | LoadingScreen percent message =>
      on_loading_screen account accountId percent message m
  | Ready => on_ready account accountId (info view) m
  | Authenticated => on_authenticated account accountId m
  | AuthFailure msg => on_auth_failure account accountId msg m
  | Disconnected reason => on_disconnected account accountId reason m
  | MessageReceived message =>
      on_message account accountId message (info view) m
  | MessageCreate message => on_message_create accountId message m
  | MessageRevokeEveryone message revokedMsg now =>
      on_message_revoke_everyone accountId message revokedMsg now m
  end.

Definition runCallback (cb : Callback) (world : World) (m : t) : t :=
  match cb with
  | LoadingFallback account accountId =>
      if negb (Account.isReady (read account m))
      then start (checkAndSetReady_begin accountId 0 world m)
      else m
  | ReadySettled account accountId => on_ready_settled account accountId m
  | CheckAndSetReady accountId retryCount =>
      start (checkAndSetReady_begin accountId retryCount world m)
  end.

(** An [initializeAccount] call made by [initialize()] goes on from its
    [await]. *)
Definition resume_initializeAccount (k : Continuation) (s : Settlement)
  (ctorThrows : option string) (m : t) : Progress (result unit) * t :=
  match k with
  | AfterDestroy account accountId _ =>
      initializeAccount_connect account accountId ctorThrows false m
  | AfterInitialize account accountId _ =>
      (Settled (fst (initializeAccount_end account s m)),
       snd (initializeAccount_end account s m))
  | _ => (Settled (Returns tt), m)
  end.

(** A suspended method goes on after the promise it awaits settled as [s].
    [ctorThrows] is how the library call that throws synchronously turns
    out, should the method reach it: [new Client] in [initializeAccount],
    [fs.rmSync] in [deleteAccount]. *)
Definition resume (k : Continuation) (s : Settlement)
  (ctorThrows : option string) (world : World) (m : t) : t :=
  match k with
  | AfterTeardown accountId => snd (deleteAccount_end accountId ctorThrows m)
  | AfterDestroy account accountId switching =>
      match
        initializeAccount_connect account accountId ctorThrows switching m
      with
      | (Settled r, m1) =>
          if switching
          then snd (switchAccount_end account accountId (r, m1))
          else m1
      | (Pending k', m1) => suspend k' m1
      end
  | AfterInitialize account accountId switching =>
      if switching
      then snd (switchAccount_end account accountId
                  (initializeAccount_end account s m))
      else snd (initializeAccount_end account s m)
  | AfterLogout account => snd (logoutAccount_end account s m)
  | AfterFetch account now => snd (getChats_end account now s m)
  | AfterProbe account accountId retryCount =>
      checkAndSetReady_end account accountId retryCount s world m
  | AfterInitializeAccount k' phase rest =>
      initialize_next phase rest ctorThrows
        (resume_initializeAccount k' s ctorThrows m)
  | AfterWait _ rest => initialize_loop rest ctorThrows m
  end.

Definition step (world : World) (i : Input) (m : t) : t :=
  match i with
  | CallCreateAccount name now random now' =>
      snd (createAccount name now random now' m)
  | CallDeleteAccount accountId rmThrows =>
      start (deleteAccount_begin accountId rmThrows m)
  | CallRenameAccount accountId newName =>
      snd (renameAccount accountId newName m)
  | CallInitializeAccount accountId ctorThrows =>
      start (initializeAccount_begin accountId ctorThrows false m)
  | CallSwitchAccount accountId ctorThrows =>
      start (switchAccount_begin accountId ctorThrows m)
  | CallLogoutAccount accountId =>
      match logoutAccount_begin accountId m with
      | Settled _ => m
      | Pending k => suspend k m
      end
  | CallGetAllAccounts => snd (getAllAccounts world m)
  | CallGetAccountStatus accountId => snd (getAccountStatus world accountId m)
  | CallGetChats now =>
      match getChats_begin now world m with
      | Settled _ => m
      | Pending k => suspend k m
      end
  | CallInitialize now random now' ctorThrows =>
      initialize now random now' ctorThrows m
  | ClientEmits client e =>
      match nth_error (wired m) client with
      | Some (account, accountId) =>
          handle account accountId (world client) e m
      | None => m
      end
  | TimerFires n =>
      match nth_error (timers m) n with
      | Some timer =>
          runCallback (callback timer) world
            (set_timers (remove_nth n (timers m)) m)
      | None => m
      end
  | PromiseSettles n s ctorThrows =>
      match nth_error (awaiting m) n with
      | Some k =>
          resume k s ctorThrows world
            (set_awaiting (remove_nth n (awaiting m)) m)
      | None => m
      end
  | SessionStored accountId => set_authDirs (accountId :: authDirs m) m
  | DiskBecomes writable => set_fsWritable writable m
  | ProcessRestarts => restart m
  end.

(** A run of the event loop. *)
Definition run (trace : list (World * Input)) (m : t) : t :=
  fold_left (fun s wi => step (fst wi) (snd wi) s) trace m.

(** A fresh installation: nothing on disk. *)
Definition fresh : t := constructor Absent Absent [] true.

End AccountManager.


(** ** The single-session client of [client.js]

    [WhatsAppClient] wraps one automation client; [startReadinessCheck] is
    its readiness monitor.  Only what that check reads and writes is
    embedded. *)

Module WhatsAppClient.

Inductive Event := ev_ready | ev_authenticated.

Record t := mk {
  client : option Client;
  qrCode : option string;
  isReady : bool;
  isAuthenticated : bool;
  emitted : list Event
}.

Definition maxAttempts : nat := 10.

Definition checkInterval : Z := 5000.

(** [s.includes(needle)]. *)
Fixpoint includes (needle s : string) : bool :=
  if String.prefix needle s then true
  else match s with
       | EmptyString => false
       | String _ rest => includes needle rest
       end.

(** [this.isReady = true; this.qrCode = null; this.emit('ready')] *)
Definition setReady (s : t) : t :=
  mk (client s) None true (isAuthenticated s) (emitted s ++ [ev_ready]).

(** What a run of [verifyStores] leaves behind: nothing, or itself on a
    timer after [delay] milliseconds. *)
Inductive Next := Stop | Again (delay : Z).

(** [verifyStores] up to its [await]: whether it goes on to probe.  The
    counter [attempts] lives in the closure and is incremented before the
    probe. *)
Definition verifyStores_begin (attempts : nat) (s : t) : option nat :=
  if isReady s then None
  else
    match client s with
    | None => None
    | Some _ => if negb (isAuthenticated s) then None else Some (attempts + 1)%nat
    end.

(** The rest of [verifyStores], with [attempts] already incremented. *)
Definition verifyStores_end (attempts : nat) (probe : Settlement) (s : t)
  : Next * t :=
  let otherwise :=
    if (attempts <? maxAttempts)%nat then (Again checkInterval, s)
    else (Stop, setReady s) in
  match probe with
  | Resolved testChats =>
      if Js.is_truthy testChats && Js.isArray testChats
      then (Stop, setReady s)
      else otherwise
  | Rejected message =>
      if Js.truthy message && includes "reading 'update'" message
      then
        if (attempts <? maxAttempts)%nat then (Again checkInterval, s)
        else (Stop, setReady s)
      else otherwise
  end.

(** The runs of [verifyStores] that [startReadinessCheck] sets off, when
    nothing else runs in between; [env k] is how the probe of attempt [k]
    settles.  Answers the number of probes made, or [None] when [fuel] runs
    did not end the chain. *)
Fixpoint verifyStores (fuel : nat) (env : nat -> Settlement) (attempts : nat)
  (s : t) : option (nat * t) :=
  match fuel with
  | O => None
  | S fuel' =>
      match verifyStores_begin attempts s with
      | None => Some (O, s)
      | Some attempts' =>
          match verifyStores_end attempts' (env attempts') s with
          | (Stop, s1) => Some (1%nat, s1)
          | (Again _, s1) =>
              match verifyStores fuel' env attempts' s1 with
              | Some (probes, s2) => Some (S probes, s2)
              | None => None
              end
          end
      end
  end.

(** [startReadinessCheck()] after its initial wait: [attempts] starts at 0. *)
Definition startReadinessCheck (fuel : nat) (env : nat -> Settlement)
  (s : t) : option (nat * t) :=
  verifyStores fuel env 0 s.

End WhatsAppClient.


Import AccountManager.

(** ** Sequences of calls and state invariants *)

(** The arguments and the environment of one [createAccount] call. *)
Record CreateCall := {
  call_name : option string;
  call_now : Z;
  call_random : string;
  call_now' : Z
}.

(** A sequence of [createAccount] calls, failed ones included. *)
Definition createAccounts (calls : list CreateCall) (m : t) : t :=
  fold_left
    (fun s c =>
       snd (createAccount (call_name c) (call_now c) (call_random c)
              (call_now' c) s))
    calls m.

(** The accounts that [getAllAccounts] reports as active. *)
Definition activeAccounts (m : t) : list Account.t :=
  filter (fun acc => Js.strict_eq (activeAccountId m) (Account.id acc))
    (account_values m).

(** An entry of the accounts map refers to an object of the store that
    carries the entry's key as its id, and the key is not the empty
    string. *)
Definition valid_entry (m : t) (kv : string * ref) : Prop :=
  (snd kv < List.length (heap m))%nat /\
  Account.id (read (snd kv) m) = fst kv /\
  Js.truthy (fst kv) = true.

(** What holds of the manager at all times: the keys of the map are
    distinct (it is a [Map]), every entry is valid, and the active pointer is
    [null] or a non-empty string. *)
Record wf (m : t) : Prop := {
  wf_keys : NoDup (JsMap.keys (accounts m));
  wf_entries : Forall (valid_entry m) (accounts m);
  wf_active : Js.or_null (activeAccountId m) = activeAccountId m
}.

(** The same, as a test that computes. *)
Fixpoint distinct (l : list string) : bool :=
  match l with
  | [] => true
  | x :: rest => negb (existsb (String.eqb x) rest) && distinct rest
  end.

Definition wfb (m : t) : bool :=
  distinct (JsMap.keys (accounts m))
  && forallb
       (fun kv =>
          (snd kv <? List.length (heap m))%nat
          && String.eqb (Account.id (read (snd kv) m)) (fst kv)
          && Js.truthy (fst kv))
       (accounts m)
  && match activeAccountId m with Some s => Js.truthy s | None => true end.

(** What the manager writes to [accounts.json] holds at most [maxAccounts]
    accounts, with non-empty ids. *)
Definition file_ok (f : File ConfigData) : Prop :=
  match f with
  | Json data =>
      match cfg_accounts data with
      | Some accs =>
          Forall (fun a => Js.truthy (meta_id a) = true) accs /\
          (List.length accs <= maxAccounts)%nat
      | None => True
      end
  | _ => True
  end.

Record Inv (m : t) : Prop := {
  inv_wf : wf m;
  inv_size : (JsMap.size (accounts m) <= maxAccounts)%nat;
  inv_file : file_ok (configFile m)
}.

(** Every phone on record is an actual number: the automation library does
    not report an empty [wid.user]. *)
Definition phones_present (m : t) : Prop :=
  Forall (fun acc => Js.or_null (Account.phone acc) = Account.phone acc)
    (account_values m).

Definition phones_presentb (m : t) : bool :=
  forallb
    (fun acc =>
       match Account.phone acc with Some s => Js.truthy s | None => true end)
    (account_values m).

(** [m'] has the map and the active pointer of [m], and its objects carry
    the ids they carry in [m]. *)
Definition same_ids (m m' : t) : Prop :=
  accounts m' = accounts m /\
  activeAccountId m' = activeAccountId m /\
  forall r, Account.id (read r m') = Account.id (read r m).

(** The clients report actual numbers: no [info.wid.user] is empty. *)
Definition reports_numbers (world : World) : Prop :=
  forall client user, info (world client) = Wid user -> Js.truthy user = true.

(** The number of [ready] events emitted for an account. *)
Definition readyEvents (accountId : string) (m : t) : nat :=
  List.length
    (filter
       (fun e =>
          match e with
          | ev_ready id => String.eqb id accountId
          | _ => false
          end)
       (emitted m)).

(** A probe that did not answer an array. *)
Definition probeFailed (s : Settlement) : bool :=
  match s with
  | Resolved (Js.Arr _) => false
  | _ => true
  end.


(** ** Concrete scenarios *)

(** Eleven calls with distinct generated ids. *)
Definition eleven_calls : list CreateCall :=
  map (fun r => {| call_name := None; call_now := 1700000000000;
                   call_random := r; call_now' := 1700000000000 |})
    ["a"; "b"; "c"; "d"; "e"; "f"; "g"; "h"; "i"; "j"; "k"].


(** Two accounts, "A" created first and therefore active, then "B". *)
Definition idA : string := generateAccountId 1700000000000 "k3j9x0q2m".

Definition idB : string := generateAccountId 1700000005000 "p7w1z5t8c".

(** A client whose page is open and whose stores are loaded. *)
Definition online (user : string) : ClientView :=
  {| pupPage := OpenPage; hasGetChats := true; info := Wid user |}.

(** A client whose browser page has been closed. *)
Definition closed : ClientView :=
  {| pupPage := ClosedPage; hasGetChats := true; info := NoInfo |}.

(** Client 0 is the session of account A, client 1 that of account B. *)
Definition world : World :=
  fun client =>
    match client with
    | O => online "15551234567"
    | _ => online "15557654321"
    end.

Definition two_accounts : t :=
  run [ (world, CallCreateAccount (Some "A") 1700000000000 "k3j9x0q2m"
                  1700000000000);
        (world, CallCreateAccount (Some "B") 1700000005000 "p7w1z5t8c"
                  1700000005000) ]
    fresh.

(** Both accounts have been initialized and have authenticated; neither has
    been declared ready yet. *)
Definition both_authenticated : t :=
  run [ (world, CallInitializeAccount idA None);
        (world, PromiseSettles 0 (Resolved Js.Null) None);
        (world, ClientEmits 0 Authenticated);
        (world, CallInitializeAccount idB None);
        (world, PromiseSettles 0 (Resolved Js.Null) None);
        (world, ClientEmits 1 Authenticated) ]
    two_accounts.

Definition chatsA : list Chat :=
  [ {| chat_id := "15550001111@c.us"; chat_name := "Alice" |};
    {| chat_id := "15550002222@c.us"; chat_name := "Bob" |} ].

Definition chatsB : list Chat :=
  [ {| chat_id := "15550003333@c.us"; chat_name := "Carol" |} ].

(** An inbound message. *)
Definition hello : Message :=
  {| msg_id := "false_15550001111@c.us_3EB0A1";
     msg_from := Some "15550001111@c.us";
     msg_to := Some "15551234567@c.us";
     msg_body := "hello";
     msg_timestamp := 1700000030;
     msg_fromMe := false;
     msg_author := None;
     msg_hasMedia := false;
     msg_type := "chat" |}.

(** The first readiness check of account A is waiting for its probe when a
    message arrives for A; then the probe answers. *)
Definition message_during_probe : list (World * Input) :=
  [ (world, TimerFires 0);
    (world, ClientEmits 0 (MessageReceived hello));
    (world, PromiseSettles 0 (Resolved (Js.Arr chatsA)) None) ].

(** Account A is ready and its phone number is known; B has not been
    initialized. *)
Definition a_ready : t :=
  run [ (world, CallInitializeAccount idA None);
        (world, PromiseSettles 0 (Resolved Js.Null) None);
        (world, ClientEmits 0 (Qr "2@kq9Zp1"));
        (world, ClientEmits 0 Authenticated);
        (world, ClientEmits 0 Ready);
        (world, TimerFires 1) ]
    two_accounts.

(** Every browser page has been closed. *)
Definition all_closed : World := fun _ => closed.

(** Account A is active and its chats were fetched at 1700000060000. *)
Definition a_fetched : t :=
  snd (getChats 1700000060000 world (Resolved (Js.Arr chatsA))
         both_authenticated).

(** After A's chats were fetched, the caller switches to account B, whose
    session has authenticated. *)
Definition b_active : t :=
  run [ (world, CallGetChats 1700000060000);
        (world, PromiseSettles 0 (Resolved (Js.Arr chatsA)) None);
        (world, CallSwitchAccount idB None) ]
    both_authenticated.

(** The caller switches to account B and the browser fails to start. *)
Definition failed_switch : t :=
  snd (switchAccount idB
         (InitializeRejects "Protocol error (Target.setAutoAttach): Target closed")
         two_accounts).

(** One initialization of account A: the client reports ready, a message
    arrives during the ten seconds the ready handler waits, and then the
    wait ends. *)
Definition ready_then_message : t :=
  run [ (world, CallInitializeAccount idA None);
        (world, PromiseSettles 0 (Resolved Js.Null) None);
        (world, ClientEmits 0 Authenticated);
        (world, ClientEmits 0 Ready);
        (world, ClientEmits 0 (MessageReceived hello));
        (world, TimerFires 1) ]
    two_accounts.

(** Every probe finds the stores of the client still loading. *)
Definition stores_loading : nat -> World * Settlement :=
  fun _ =>
    (world,
     Rejected "Cannot read properties of undefined (reading 'update')").

(** The single-session client after authentication. *)
Definition authenticated_client : WhatsAppClient.t :=
  WhatsAppClient.mk (Some 0%nat) None false true
    [WhatsAppClient.ev_authenticated].

(** The caller switches to account B; while [client.initialize()] of that
    call is pending the new client reports an authentication failure; the
    caller switches to B again, and the teardown of the first client, which
    the second call waits for, ends. *)
Definition auth_failure_between : list (World * Input) :=
  [ (world, CallSwitchAccount idB None);
    (world, ClientEmits 0 (AuthFailure "LOGOUT"));
    (world, CallSwitchAccount idB None);
    (world, PromiseSettles 1 (Resolved Js.Null) None) ].


(** ** What holds of the manager along its runs, continued *)

(** An input after which the disk refuses writes. *)
Definition diskFails (i : Input) : bool :=
  match i with
  | DiskBecomes false => true
  | _ => false
  end.

(** The accounts file is up to date: it holds what [saveAccountsConfig]
    would write now, or nothing has been written yet and there is nothing to
    write. *)
Definition synced (m : t) : Prop :=
  configFile m =
    Json {| cfg_activeAccountId := activeAccountId m;
            cfg_accounts := Some (map meta_of (account_values m)) |}
  \/ (configFile m = Absent /\ accounts m = JsMap.empty
      /\ activeAccountId m = None).

Definition durable (m : t) : Prop := fsWritable m = true /\ synced m.

(** The same for the ledger of deleted messages, whose ids are the keys of
    a [Map]. *)
Definition ledger_synced (m : t) : Prop :=
  NoDup (JsMap.keys (deletedMessages m))
  /\ (deletedMessagesFile m = Json (deletedMessages m)
      \/ (deletedMessagesFile m = Absent
          /\ deletedMessages m = JsMap.empty)).

(** A suspended method holds what it will need: an [initializeAccount]
    suspended before it makes its client holds an object of the store and
    that object's id, also when [initialize()] made the call. *)
Fixpoint held (m : t) (k : Continuation) : Prop :=
  match k with
  | AfterDestroy account accountId _ =>
      (account < List.length (heap m))%nat
      /\ Account.id (read account m) = accountId
  | AfterInitializeAccount k' _ _ => held m k'
  | _ => True
  end.

(** Every client handle an account object holds was made for that very
    object, under its id. *)
Definition routed (m : t) : Prop :=
  (forall r c,
      Account.client (read r m) = Some c ->
      nth_error (wired m) c = Some (r, Account.id (read r m)))
  /\ Forall (held m) (awaiting m).

(** An input that may write the ledger of deleted messages: a retraction
    event that carries the retracted message; and a restart, which reloads
    the ledger. *)
Definition touchesLedger (i : Input) : bool :=
  match i with
  | ClientEmits _ (MessageRevokeEveryone _ (Some _) _) => true
  | ProcessRestarts => true
  | _ => false
  end.

(** The run that leads from a fresh installation to [a_ready]. *)
Definition a_ready_trace : list (World * Input) :=
  [ (world, CallCreateAccount (Some "A") 1700000000000 "k3j9x0q2m"
              1700000000000);
    (world, CallCreateAccount (Some "B") 1700000005000 "p7w1z5t8c"
              1700000005000);
    (world, CallInitializeAccount idA None);
    (world, PromiseSettles 0 (Resolved Js.Null) None);
    (world, ClientEmits 0 (Qr "2@kq9Zp1"));
    (world, ClientEmits 0 Authenticated);
    (world, ClientEmits 0 Ready);
    (world, TimerFires 1) ].

(** The ledger of deleted messages with its file. *)
Definition ledger (m : t)
  : JsMap.t DeletedMessage.t * File (list (string * DeletedMessage.t)) :=
  (deletedMessages m, deletedMessagesFile m).

(** Neither the ledger nor the state of the disk differs between [m0] and
    [m]. *)
Definition framed (m0 m : t) : Prop :=
  ledger m = ledger m0 /\ fsWritable m = fsWritable m0.

(** A retraction event as the client emits it: the message that announces
    the retraction, in the chat of "Alice". *)
Definition notice : Message :=
  {| msg_id := "false_15550001111@c.us_3EB0F7";
     msg_from := Some "15550001111@c.us";
     msg_to := Some "15551234567@c.us";
     msg_body := "";
     msg_timestamp := 1700000090;
     msg_fromMe := false;
     msg_author := None;
     msg_hasMedia := false;
     msg_type := "revoked" |}.

(** Account A is ready; Alice then retracts her message [hello]. *)
Definition retraction_trace : list (World * Input) :=
  a_ready_trace
  ++ [ (world, ClientEmits 0
                 (MessageRevokeEveryone notice (Some hello) 1700000090500)) ].

(** After the retraction the session of account A is disconnected. *)
Definition retraction_then_disconnect : t :=
  run (retraction_trace
       ++ [ (world, ClientEmits 0 (Disconnected "NAVIGATION")) ])
    fresh.

(** Account B shows a QR code while account A, the active one, is ready. *)
Definition b_shows_qr : t :=
  run [ (world, CallInitializeAccount idB None);
        (world, PromiseSettles 0 (Resolved Js.Null) None);
        (world, ClientEmits 1 (Qr "2@Xb7Lq4")) ]
    a_ready.


(** The stores of the client load between the second and the third probe. *)
Definition stores_load_late : nat -> World * Settlement :=
  fun retryCount =>
    if (retryCount <? 2)%nat
    then (world,
          Rejected "Cannot read properties of undefined (reading 'update')")
    else (world, Resolved (Js.Arr chatsA)).

(** What the promotion at the end of [checkAndSetReady] does. *)
Definition promoted (accountId : string) (account : ref) (m m' : t) : Prop :=
  JsMap.get accountId (accounts m) = Some account
  /\ Account.isReady (read account m) = false
  /\ Account.isReady (read account m') = true
  /\ Account.isInitializing (read account m') = false
  /\ emitted m' = emitted m ++ [ev_ready accountId]
  /\ timers m' = timers m
  /\ accounts m' = accounts m
  /\ activeAccountId m' = activeAccountId m.

(** Two accounts; the credentials of a session of account B are on disk. *)
Definition b_has_session : t :=
  run [ (world, SessionStored idB) ] two_accounts.

(** *** The suspensions of [initialize()] *)

Definition ofInitialize (k : Continuation) : bool :=
  match k with
  | AfterInitializeAccount _ _ _ => true
  | AfterWait _ _ => true
  | _ => false
  end.

(** The accounts with stored sessions a suspension of [initialize()] still
    has to go through. *)
Definition remaining (k : Continuation) : list ref :=
  match k with
  | AfterInitializeAccount _ _ rest => rest
  | AfterWait _ rest => rest
  | _ => []
  end.



(** A run from [m] to [m'] left at most one suspended method behind: a
    suspension of [initialize()] that has a part of [rest] to go through. *)
Definition left (rest : list ref) (m m' : t) : Prop :=
  awaiting m' = awaiting m
  \/ exists k,
       ofInitialize k = true
       /\ (exists n, remaining k = skipn n rest)
       /\ awaiting m' = awaiting m ++ [k].



(** ** The helpers of the HTTP routes ([utils/helpers.js])

    [hasBeenReplied], [filterByDateRange] and [applyFilters] are pure but
    for what they ask of [Date] and of the strings of the runtime, which is
    an argument. *)

Module Helpers.

(** A chat as the automation library hands it out: the fields the filters
    read. *)
Record ChatData := {
  id_user : string;              (* id.user *)
  name : option string;
  isGroup : bool;
  unreadCount : Z;
  timestamp : option Z           (* seconds; undefined without messages *)
}.

(** The query parameters [applyFilters] reads; a parameter may be missing. *)
Record Filters := {
  chatType : option string;
  readStatus : option string;
  dateRange : option string;
  searchQuery : option string
}.

(** What the helpers ask of the runtime at the time of the call:
    [new Date(timestamp * 1000).toDateString() === new Date().toDateString()],
    the milliseconds of [now] moved back by [setDate(getDate() - 7)] and by
    [setMonth(getMonth() - 1)], and [String.prototype.toLowerCase]. *)
Record Runtime := {
  isToday : Z -> bool;
  weekAgo : Z;
  monthAgo : Z;
  toLowerCase : string -> string
}.

(** The first loop of [hasBeenReplied]: from index [i - 1] down to 0, the
    first index of a message that is not [fromMe]; [None] is -1. *)
Fixpoint lastIncoming (messages : list Message) (i : nat) : option nat :=
  match i with
  | O => None
  | S j =>
      match nth_error messages j with
      | Some msg =>
          if negb (msg_fromMe msg) then Some j else lastIncoming messages j
      | None => None
      end
  end.

(** The second loop: is there a message [fromMe] among the [steps] messages
    from index [i] on. *)
Fixpoint outgoingFrom (messages : list Message) (i steps : nat) : bool :=
  match steps with
  | O => false
  | S steps' =>
      match nth_error messages i with
      | Some msg =>
          if msg_fromMe msg then true
          else outgoingFrom messages (S i) steps'
      | None => false
      end
  end.

(** [hasBeenReplied(messages)]; [None] is [null] or [undefined]. *)
Definition hasBeenReplied (messages : option (list Message)) : bool :=
  match messages with
  | None => false
  | Some l =>
      if (List.length l =? 0)%nat then false
      else
        match lastIncoming l (List.length l) with
        | None => true
        | Some lastIncomingIndex =>
            outgoingFrom l (lastIncomingIndex + 1)
              (List.length l - (lastIncomingIndex + 1))
        end
  end.

(** [filterByDateRange(timestamp, range)]; a timestamp of 0 is falsy. *)
Definition filterByDateRange (rt : Runtime) (timestamp : option Z)
  (range : string) : bool :=
  match timestamp with
  | None => false
  | Some ts =>
      if (ts =? 0)%Z then false
      else if String.eqb range "today" then isToday rt ts
      else if String.eqb range "week" then (weekAgo rt <=? ts * 1000)%Z
      else if String.eqb range "month" then (monthAgo rt <=? ts * 1000)%Z
      else true
  end.

(** [filters.x && filters.x !== 'all'] *)
Definition selective (x : option string) : bool :=
  match x with
  | Some s => Js.truthy s && negb (String.eqb s "all")
  | None => false
  end.

Definition byChatType (type : string) (chat : ChatData) : bool :=
  if String.eqb type "group" then isGroup chat
  else if String.eqb type "personal" then negb (isGroup chat)
  else true.

Definition byReadStatus (status : string) (chat : ChatData) : bool :=
  if String.eqb status "unread" then (unreadCount chat >? 0)%Z
  else if String.eqb status "read" then (unreadCount chat =? 0)%Z
  else true.

(** [(chat.name && chat.name.toLowerCase().includes(query))
     || chat.id.user.includes(query)] *)
Definition bySearchQuery (rt : Runtime) (query : string) (chat : ChatData)
  : bool :=
  match name chat with
  | Some n =>
      Js.truthy n && WhatsAppClient.includes query (toLowerCase rt n)
  | None => false
  end
  || WhatsAppClient.includes query (id_user chat).

(** [applyFilters(chats, filters, whatsappClient)]; the third argument is
    not used. *)
Definition applyFilters (rt : Runtime) (chats : list ChatData)
  (filters : Filters) : list ChatData :=
  let filteredChats := chats in
  let filteredChats :=
    match chatType filters with
    | Some type =>
        if selective (chatType filters)
        then filter (byChatType type) filteredChats
        else filteredChats
    | None => filteredChats
    end in
  let filteredChats :=
    match readStatus filters with
    | Some status =>
        if selective (readStatus filters)
        then filter (byReadStatus status) filteredChats
        else filteredChats
    | None => filteredChats
    end in
  let filteredChats :=
    match dateRange filters with
    | Some range =>
        if selective (dateRange filters)
        then filter (fun chat => filterByDateRange rt (timestamp chat) range)
               filteredChats
        else filteredChats
    | None => filteredChats
    end in
  match searchQuery filters with
  | Some q =>
      if Js.truthy q
      then filter (bySearchQuery rt (toLowerCase rt q)) filteredChats
      else filteredChats
  | None => filteredChats
  end.

(** The filters the [/chats] route builds from a request without query
    parameters. *)
Definition noFilters : Filters :=
  {| chatType := Some "all"; readStatus := Some "all";
     dateRange := Some "all"; searchQuery := Some "" |}.

End Helpers.

(** What [applyFilters] asks of a chat, in one test. *)
Definition passes (rt : Helpers.Runtime) (filters : Helpers.Filters)
  (chat : Helpers.ChatData) : bool :=
  match Helpers.chatType filters with
  | Some type =>
      if Helpers.selective (Helpers.chatType filters)
      then Helpers.byChatType type chat else true
  | None => true
  end
  && match Helpers.readStatus filters with
     | Some status =>
         if Helpers.selective (Helpers.readStatus filters)
         then Helpers.byReadStatus status chat else true
     | None => true
     end
  && match Helpers.dateRange filters with
     | Some range =>
         if Helpers.selective (Helpers.dateRange filters)
         then Helpers.filterByDateRange rt (Helpers.timestamp chat) range
         else true
     | None => true
     end
  && match Helpers.searchQuery filters with
     | Some q =>
         if Js.truthy q
         then Helpers.bySearchQuery rt (Helpers.toLowerCase rt q) chat
         else true
     | None => true
     end.

(** A request that sets one query parameter. *)
Definition onlyChatType (type : string) : Helpers.Filters :=
  {| Helpers.chatType := Some type; Helpers.readStatus := Some "all";
     Helpers.dateRange := Some "all"; Helpers.searchQuery := Some "" |}.

Definition onlyReadStatus (status : string) : Helpers.Filters :=
  {| Helpers.chatType := Some "all"; Helpers.readStatus := Some status;
     Helpers.dateRange := Some "all"; Helpers.searchQuery := Some "" |}.

Definition onlyDateRange (range : string) : Helpers.Filters :=
  {| Helpers.chatType := Some "all"; Helpers.readStatus := Some "all";
     Helpers.dateRange := Some range; Helpers.searchQuery := Some "" |}.

(** [!!chat.timestamp] *)
Definition hasTimestamp (chat : Helpers.ChatData) : bool :=
  match Helpers.timestamp chat with
  | Some ts => negb (ts =? 0)%Z
  | None => false
  end.


(** ** The calls of the single-session client ([client.js], continued) *)

Module ClientCalls.
Import WhatsAppClient.

Definition MAX_RETRIES : nat := 5.

Definition BASE_DELAY : Z := 1000.

Definition set_isReady (b : bool) (s : t) : t :=
  mk (client s) (qrCode s) b (isAuthenticated s) (emitted s).


(** How one run of the body of [getChats] ends: with an answer, and maybe
    the timer of 30 seconds, or with a wait of [delay] milliseconds before
    it calls itself. *)
Inductive Step :=
| Answer (chats : Chats) (timer : option Z)
| Retry (delay : Z).

(** [getChats(retryCount)] up to [await this.client.getChats()]: the answer
    it gives without asking the client, if any. *)
Definition getChats_begin (world : World) (s : t) : option Chats :=
  if negb (isReady s) then Some (Js.Arr [])
  else
    match client s with
    | None => Some (Js.Arr [])
    | Some c =>
        if negb (hasGetChats (world c)) then Some (Js.Arr []) else None
    end.

(** The rest of the body once the fetch settled. *)
Definition getChats_end (retryCount : nat) (fetch : Settlement) (s : t)
  : Step * t :=
  match fetch with
  | Resolved chats => (Answer (Js.or_empty chats) None, s)
  | Rejected message =>
      if Js.truthy message && includes "reading 'update'" message
         && (retryCount <? MAX_RETRIES)%nat
      then (Retry (BASE_DELAY * 2 ^ Z.of_nat retryCount), s)
      else if (MAX_RETRIES <=? retryCount)%nat
      then (Answer (Js.Arr []) (Some 30000%Z), set_isReady false s)
      else (Answer (Js.Arr []) None, s)
  end.

(** What a call of [getChats] comes to. *)
Record Outcome := {
  chats : Chats;
  delays : list Z;          (* the waits between the fetches, in order *)
  timer : option Z;         (* the delay of the timer left behind *)
  after : t
}.

(** [getChats(retryCount)] with the calls it makes to itself, when nothing
    else runs during its waits; [env k] is what the call with retry count
    [k] finds and how its fetch settles.  [None] when [fuel] calls did not
    end the chain. *)
Fixpoint getChats (fuel : nat) (env : nat -> World * Settlement)
  (retryCount : nat) (s : t) : option Outcome :=
  match fuel with
  | O => None
  | S fuel' =>
      match getChats_begin (fst (env retryCount)) s with
      | Some answer =>
          Some {| chats := answer; delays := []; timer := None; after := s |}
      | None =>
          match getChats_end retryCount (snd (env retryCount)) s with
          | (Answer answer tm, s1) =>
              Some {| chats := answer; delays := []; timer := tm;
                      after := s1 |}
          | (Retry delay, s1) =>
              match getChats fuel' env (retryCount + 1) s1 with
              | Some o =>
                  Some {| chats := chats o; delays := delay :: delays o;
                          timer := timer o; after := after o |}
              | None => None
              end
          end
      end
  end.

End ClientCalls.



(** ** The routes ([routes/api.js]): the answer of
    [GET /chats/:id/messages] *)

Module Routes.

(** A deleted message as the route renders it.  The fields of the entry
    that are the same for every deleted message ([type: 'revoked'],
    [isDeleted: true], [hasMedia: false], [ack: 3], ...) are left out. *)
Record DeletedEntry := {
  del_id : string;
  del_body : string;
  del_timestamp : Z;
  del_fromMe : bool;
  del_author : option string;
  del_deletedAt : Z
}.

Definition formatDeleted (msg : DeletedMessage.t) : DeletedEntry :=
  {| del_id := DeletedMessage.id msg;
     del_body := DeletedMessage.body msg;
     del_timestamp := DeletedMessage.timestamp msg;
     del_fromMe := DeletedMessage.fromMe msg;
     del_author := DeletedMessage.author msg;
     del_deletedAt := DeletedMessage.deletedAt msg |}.

(** An entry of the answer: a message of the client, as [formatMessage] or
    [formatMessageWithAuthor] renders it, or a deleted message. *)
Inductive Entry :=
| Live (message : Message)
| Deleted (entry : DeletedEntry).

Definition entry_id (e : Entry) : string :=
  match e with
  | Live message => msg_id message
  | Deleted entry => del_id entry
  end.

Definition entry_timestamp (e : Entry) : Z :=
  match e with
  | Live message => msg_timestamp message
  | Deleted entry => del_timestamp entry
  end.

(** [for (const delMsg of formattedDeletedMsgs)
       if (!existingIds.has(delMsg.id)) formattedMessages.push(delMsg)] *)
Fixpoint pushMissing (existingIds : list string)
  (formattedDeletedMsgs : list DeletedEntry) (formattedMessages : list Entry)
  : list Entry :=
  match formattedDeletedMsgs with
  | [] => formattedMessages
  | delMsg :: rest =>
      pushMissing existingIds rest
        (if existsb (String.eqb (del_id delMsg)) existingIds
         then formattedMessages
         else formattedMessages ++ [Deleted delMsg])
  end.

(** [Array.prototype.sort] with the comparator
    [(a, b) => a.timestamp - b.timestamp]: the sort is stable, an entry
    goes behind the entries before it that are not younger. *)
Fixpoint insertByTimestamp (e : Entry) (sorted : list Entry) : list Entry :=
  match sorted with
  | [] => [e]
  | x :: rest =>
      if (entry_timestamp e <? entry_timestamp x)%Z then e :: x :: rest
      else x :: insertByTimestamp e rest
  end.

Definition sortByTimestamp (l : list Entry) : list Entry :=
  fold_left (fun sorted e => insertByTimestamp e sorted) l [].

(** The handler from the rendered messages on: [messages] is what
    [getMessages] answered, [deletedMessages] what
    [getDeletedMessagesForChat] answered. *)
Definition messagesAnswer (messages : list Message)
  (deletedMessages : list DeletedMessage.t) : list Entry :=
  let formattedMessages := map Live messages in
  let formattedMessages :=
    if (0 <? List.length deletedMessages)%nat
    then pushMissing (map entry_id formattedMessages)
           (map formatDeleted deletedMessages) formattedMessages
    else formattedMessages in
  sortByTimestamp formattedMessages.

(** [error.message] *)
Definition errorMessage (e : Error) : string :=
  match e with
  | CapacityExceeded => "Maximum 10 accounts allowed"
  | NotFound => "Account not found"
  | SessionNotInitialized => "Account not found or not initialized"
  | InitializationFailed message => message
  | AutomationLayerError message => message
  | NoActiveSession => "No active client"
  | FileSystemError message => message
  end.

(** How a promise of the client library that the handler awaits settles. *)
Inductive Fetched (A : Type) :=
| Answers (value : A)
| Fails (message : string).
Arguments Answers {A} value.
Arguments Fails {A} message.

(** What the handler sends. *)
Inductive Response :=
| Initializing    (* success: true, count: 0, messages: [],
                     message: 'WhatsApp client initializing...' *)
| Messages (count : nat) (messages : list Entry)    (* success: true *)
| Failure (code : nat) (error : string).            (* success: false *)

(** The handler of [GET /chats/:id/messages].  It runs in three pieces:
    in state [s0] it reads the status and calls [getMessages], whose
    promise settles as [fetch]; it goes on in state [s1] with
    [getChatById], whose promise settles as [lookup], the chat's [isGroup]
    ([false] for no chat); and it reads the ledger in state [s2], after the
    messages are rendered.  A group's messages are rendered by
    [formatMessageWithAuthor], which catches the errors of its own lookups,
    the others by [formatMessage]; both keep the id and the timestamp of
    the message, which is all an [Entry] tells of the rendering. *)
Definition messagesRoute (chatId : string) (s0 : t)
  (fetch : Fetched (list Message)) (s1 : t) (lookup : Fetched bool) (s2 : t)
  : Response :=
  let status := getStatus s0 in
  if negb (status_isReady status) && negb (status_isAuthenticated status)
  then Initializing
  else
    match getMessages chatId s0 with
    | Throws e => Failure 500 (errorMessage e)
    | Returns _ =>
        match fetch with
        | Fails message => Failure 500 message
        | Answers messages =>
            match getChatById chatId s1 with
            | Throws e => Failure 500 (errorMessage e)
            | Returns _ =>
                match lookup with
                | Fails message => Failure 500 message
                | Answers isGroup =>
                    let formattedMessages :=
                      messagesAnswer messages
                        (getDeletedMessagesForChat chatId s2) in
                    Messages (List.length formattedMessages)
                      formattedMessages
                end
            end
        end
    end.

(** *** [GET /analytics] *)

(** [Math.round(a / b)] for integers [a] and [b > 0]: halves go up. *)
Definition roundDiv (a b : Z) : Z := ((2 * a + b) / (2 * b))%Z.

(** [const formatDuration = (seconds) => ...] *)
Definition formatDuration (seconds : Z) : string :=
  if (seconds <? 60)%Z then Js.string_of_Z seconds ++ "s"
  else if (seconds <? 3600)%Z
  then Js.string_of_Z (roundDiv seconds 60) ++ "m"
  else Js.string_of_Z (roundDiv seconds 3600) ++ "h "
       ++ Js.string_of_Z (roundDiv (seconds mod 3600) 60) ++ "m".

(** The counters of the loop over the messages of one chat, with the
    counters of the whole answer that the loop adds to. *)
Record Tally := {
  chatSent : nat;
  chatReceived : nat;
  hasReply : bool;
  lastIncoming : option Z;       (* a timestamp, or null *)
  firstReply : option Z;
  totalMessagesSent : nat;
  totalMessagesReceived : nat;
  totalResponseTime : Z;
  responseCount : nat
}.

(** A timestamp that is not null and not 0. *)
Definition truthyTimestamp (x : option Z) : bool :=
  match x with
  | Some ts => negb (ts =? 0)%Z
  | None => false
  end.

(** The body of [for (const msg of messages)]. *)
Definition tallyMessage (c : Tally) (msg : Message) : Tally :=
  if msg_fromMe msg
  then
    let answered :=
      truthyTimestamp (lastIncoming c) && negb (truthyTimestamp (firstReply c)) in
    {| chatSent := chatSent c + 1;
       chatReceived := chatReceived c;
       hasReply := true;
       lastIncoming := lastIncoming c;
       firstReply :=
         if answered then Some (msg_timestamp msg) else firstReply c;
       totalMessagesSent := totalMessagesSent c + 1;
       totalMessagesReceived := totalMessagesReceived c;
       totalResponseTime :=
         match lastIncoming c with
         | Some incoming =>
             if answered
             then (totalResponseTime c + (msg_timestamp msg - incoming))%Z
             else totalResponseTime c
         | None => totalResponseTime c
         end;
       responseCount :=
         if answered then (responseCount c + 1)%nat else responseCount c |}
  else
    {| chatSent := chatSent c;
       chatReceived := chatReceived c + 1;
       hasReply := hasReply c;
       lastIncoming :=
         if negb (hasReply c) then Some (msg_timestamp msg)
         else lastIncoming c;
       firstReply := firstReply c;
       totalMessagesSent := totalMessagesSent c;
       totalMessagesReceived := totalMessagesReceived c + 1;
       totalResponseTime := totalResponseTime c;
       responseCount := responseCount c |}.

(** The loop over the messages of one chat; the counters of the chat
    start afresh, those of the answer go on. *)
Definition tallyChat (totals : Tally) (messages : list Message) : Tally :=
  fold_left tallyMessage messages
    {| chatSent := 0; chatReceived := 0; hasReply := false;
       lastIncoming := None; firstReply := None;
       totalMessagesSent := totalMessagesSent totals;
       totalMessagesReceived := totalMessagesReceived totals;
       totalResponseTime := totalResponseTime totals;
       responseCount := responseCount totals |}.

(** The test of [pendingReplies]:
    [!c.hasBeenReplied && c.messagesReceived > 0]. *)
Definition pendingReply (c : Tally) : bool :=
  negb (hasReply c) && (0 <? chatReceived c)%nat.

End Routes.

(** Every record of the ledger, in memory and on disk, is filed under its
    own id. *)
Definition filed (entries : list (string * DeletedMessage.t)) : Prop :=
  Forall (fun kv => fst kv = DeletedMessage.id (snd kv)) entries.

Definition ledger_filed (m : t) : Prop :=
  NoDup (JsMap.keys (deletedMessages m))
  /\ filed (deletedMessages m)
  /\ match deletedMessagesFile m with
     | Json data => filed data
     | _ => True
     end.

(** How an answer shows the client's messages and the deleted messages of
    the ledger: oldest first, every message of the client, a deleted
    message exactly when the client has none of its id, no id twice. *)
Definition shown (messages : list Message) (deleted : list DeletedMessage.t)
  (answer : list Routes.Entry) : Prop :=
    Sorted (fun a b => Routes.entry_timestamp a <= Routes.entry_timestamp b)%Z
      answer
    /\ (forall message, In (Routes.Live message) answer <-> In message messages)
    /\ (forall entry,
          In (Routes.Deleted entry) answer <->
          (exists msg, In msg deleted /\ entry = Routes.formatDeleted msg)
          /\ ~ In (Routes.del_id entry) (map msg_id messages))
    /\ (NoDup (map msg_id messages) ->
        NoDup (map Routes.entry_id answer))
    /\ (List.length messages <= List.length answer
        <= List.length messages + List.length deleted)%nat.


(** * Properties *)

(** ** The ordered map *)

Section JsMapFacts.
Context {V : Type}.
Implicit Types (m : JsMap.t V) (k : string) (v : V).

Lemma get_set_same k v m : JsMap.get k (JsMap.set k v m) = Some v.
Proof.
  induction m as [|[k' v'] rest IH]; simpl.
  - now rewrite String.eqb_refl.
  - destruct (String.eqb k' k) eqn:E; simpl; rewrite E; auto.
Qed.

Lemma get_set_other k k' v m :
  k <> k' -> JsMap.get k' (JsMap.set k v m) = JsMap.get k' m.
Proof.
  intros Hne. induction m as [|[k0 v0] rest IH]; simpl.
  - destruct (String.eqb_spec k k'); congruence.
  - destruct (String.eqb_spec k0 k) as [->|Hk]; simpl.
    + destruct (String.eqb_spec k k'); congruence.
    + destruct (String.eqb_spec k0 k'); auto.
Qed.

Lemma set_set_same k v m :
  JsMap.set k v (JsMap.set k v m) = JsMap.set k v m.
Proof.
  induction m as [|[k' v'] rest IH]; simpl.
  - now rewrite String.eqb_refl.
  - destruct (String.eqb k' k) eqn:E; simpl; rewrite E; congruence.
Qed.

Lemma has_In_keys k m : JsMap.has k m = true <-> In k (JsMap.keys m).
Proof.
  unfold JsMap.has.
  induction m as [|[k' v'] rest IH]; simpl.
  - split; [discriminate | tauto].
  - destruct (String.eqb_spec k' k) as [->|Hk].
    + split; auto.
    + rewrite IH. split; [auto | intros [?|?]; congruence].
Qed.

Lemma has_false_not_In k m :
  JsMap.has k m = false <-> ~ In k (JsMap.keys m).
Proof.
  rewrite <- has_In_keys. destruct (JsMap.has k m); split; congruence.
Qed.

(** [set] on a key that is present keeps the keys as they are; on a new key
    it appends the key. *)
Lemma keys_set k v m :
  JsMap.keys (JsMap.set k v m) =
  if JsMap.has k m then JsMap.keys m else JsMap.keys m ++ [k].
Proof.
  unfold JsMap.has.
  induction m as [|[k' v'] rest IH]; simpl; auto.
  destruct (String.eqb k' k) eqn:E; simpl; auto.
  rewrite IH. destruct (JsMap.get k rest); auto.
Qed.

Lemma size_keys m : JsMap.size m = List.length (JsMap.keys m).
Proof. unfold JsMap.size, JsMap.keys. now rewrite length_map. Qed.

Lemma size_set k v m :
  JsMap.size (JsMap.set k v m) =
  if JsMap.has k m then JsMap.size m else S (JsMap.size m).
Proof.
  rewrite !size_keys, keys_set.
  destruct (JsMap.has k m); auto.
  rewrite length_app. simpl. lia.
Qed.

Lemma size_set_le k v m : JsMap.size (JsMap.set k v m) <= S (JsMap.size m).
Proof. rewrite size_set. destruct (JsMap.has k m); lia. Qed.

Lemma NoDup_keys_set k v m :
  NoDup (JsMap.keys m) -> NoDup (JsMap.keys (JsMap.set k v m)).
Proof.
  intros H. rewrite keys_set.
  destruct (JsMap.has k m) eqn:E; auto.
  apply has_false_not_In in E.
  apply NoDup_app; auto.
  - constructor; [tauto | constructor].
  - intros x Hx [<-|[]]. tauto.
Qed.

Lemma keys_delete_incl k m :
  incl (JsMap.keys (JsMap.delete k m)) (JsMap.keys m).
Proof.
  induction m as [|[k' v'] rest IH]; simpl.
  - apply incl_refl.
  - destruct (String.eqb k' k); simpl.
    + apply incl_tl, incl_refl.
    + apply incl_cons; [now left | now apply incl_tl].
Qed.

Lemma In_delete kv k m : In kv (JsMap.delete k m) -> In kv m.
Proof.
  induction m as [|[k' v'] rest IH]; simpl; auto.
  destruct (String.eqb k' k); simpl; intuition.
Qed.

Lemma NoDup_keys_delete k m :
  NoDup (JsMap.keys m) -> NoDup (JsMap.keys (JsMap.delete k m)).
Proof.
  induction m as [|[k' v'] rest IH]; simpl; auto.
  intros H. inversion H as [|? ? Hnin Hnd]; subst.
  destruct (String.eqb k' k); simpl; auto.
  constructor; auto.
  intros Hin. apply Hnin. now apply (keys_delete_incl k rest).
Qed.

Lemma not_In_keys_delete k m :
  NoDup (JsMap.keys m) -> ~ In k (JsMap.keys (JsMap.delete k m)).
Proof.
  induction m as [|[k' v'] rest IH]; simpl; auto.
  intros H. inversion H as [|? ? Hnin Hnd]; subst.
  destruct (String.eqb_spec k' k) as [->|Hk]; simpl; auto.
  intros [?|?]; [congruence | now apply IH].
Qed.

Lemma In_set kv k v m :
  In kv (JsMap.set k v m) -> kv = (k, v) \/ In kv m.
Proof.
  induction m as [|[k' v'] rest IH]; simpl.
  - intros [<-|[]]; auto.
  - destruct (String.eqb_spec k' k) as [->|Hk]; simpl.
    + intros [<-|?]; auto.
    + intros [<-|?]; auto. destruct IH; auto.
Qed.

Lemma get_In k v m : JsMap.get k m = Some v -> In (k, v) m.
Proof.
  induction m as [|[k' v'] rest IH]; simpl; [discriminate|].
  destruct (String.eqb_spec k' k) as [->|Hk].
  - intros [= ->]. now left.
  - auto.
Qed.

Lemma get_Some_has k v m : JsMap.get k m = Some v -> JsMap.has k m = true.
Proof. unfold JsMap.has. now intros ->. Qed.

End JsMapFacts.


(** ** The deleted-message ledger *)

Lemma collectForChat_filter chatId entries :
  collectForChat chatId entries =
  filter (fun r => Js.strict_eq (DeletedMessage.chatId r) chatId)
    (JsMap.values entries).
Proof.
  induction entries as [|[k r] rest IH]; simpl; auto.
  destruct (Js.strict_eq (DeletedMessage.chatId r) chatId);
    simpl; now rewrite IH.
Qed.

Lemma strict_eq_true a b : Js.strict_eq a b = true <-> a = Some b.
Proof.
  destruct a as [s|]; simpl.
  - destruct (String.eqb_spec s b); split; congruence.
  - split; discriminate.
Qed.

Lemma saveDeletedMessage_twice d m :
  saveDeletedMessage d (saveDeletedMessage d m) = saveDeletedMessage d m.
Proof.
  unfold saveDeletedMessage, saveDeletedMessages.
  destruct m; simpl.
  destruct fsWritable0; simpl; now rewrite set_set_same.
Qed.

Lemma deletedMessages_saveDeletedMessage d m :
  deletedMessages (saveDeletedMessage d m) =
  JsMap.set (DeletedMessage.id d) d (deletedMessages m).
Proof.
  unfold saveDeletedMessage, saveDeletedMessages.
  destruct m; simpl. now destruct fsWritable0.
Qed.

Lemma deletedMessages_emit e m : deletedMessages (emit e m) = deletedMessages m.
Proof. reflexivity. Qed.

(** C8.  Saving a deleted-message record is idempotent: saving the same
    record again leaves the manager as it is, and saving under an id the
    ledger already holds keeps the list of ids unchanged (a new id is
    appended once).  Handling the same retraction event a second time, even
    at a later moment, leaves the ids of the ledger as the first handling
    left them.  [getDeletedMessagesForChat chatId] answers exactly the
    records of the ledger whose chat id is [chatId], in ledger order, and it
    reads nothing but the ledger: accounts, active account, sessions and
    clients may be anything. *)
Theorem deleted_message_ledger_idempotent_and_filtered :
  forall (d : DeletedMessage.t) (chatId : string) (m : t),
    saveDeletedMessage d (saveDeletedMessage d m) = saveDeletedMessage d m
    /\ JsMap.keys (deletedMessages (saveDeletedMessage d m)) =
       (if JsMap.has (DeletedMessage.id d) (deletedMessages m)
        then JsMap.keys (deletedMessages m)
        else JsMap.keys (deletedMessages m) ++ [DeletedMessage.id d])
    /\ (forall accountId message revoked now now',
          JsMap.keys
            (deletedMessages
               (on_message_revoke_everyone accountId message (Some revoked)
                  now'
                  (on_message_revoke_everyone accountId message
                     (Some revoked) now m))) =
          JsMap.keys
            (deletedMessages
               (on_message_revoke_everyone accountId message (Some revoked)
                  now m)))
    /\ getDeletedMessagesForChat chatId m =
       filter (fun r => Js.strict_eq (DeletedMessage.chatId r) chatId)
         (JsMap.values (deletedMessages m))
    /\ (forall r,
          In r (getDeletedMessagesForChat chatId m) <->
          In r (JsMap.values (deletedMessages m)) /\
          DeletedMessage.chatId r = Some chatId)
    /\ (forall heap' accounts' active' cache' time' config' file' dirs'
               writable' wired' timers' awaiting' emitted',
          getDeletedMessagesForChat chatId
            (mk heap' accounts' active' (deletedMessages m) cache' time'
               config' file' dirs' writable' wired' timers' awaiting'
               emitted') =
          getDeletedMessagesForChat chatId m).
Proof.
  intros d chatId m.
  refine (conj _ (conj _ (conj _ (conj _ (conj _ _))))).
  - apply saveDeletedMessage_twice.
  - rewrite deletedMessages_saveDeletedMessage. apply keys_set.
  - intros. unfold on_message_revoke_everyone.
    repeat (rewrite ?deletedMessages_emit, ?deletedMessages_saveDeletedMessage;
            progress cbn [DeletedMessage.id]).
    rewrite ?deletedMessages_emit, ?deletedMessages_saveDeletedMessage.
    cbn [DeletedMessage.id]. rewrite (keys_set _ _ (JsMap.set _ _ _)).
    unfold JsMap.has at 1. now rewrite get_set_same.
  - apply collectForChat_filter.
  - intros r. unfold getDeletedMessagesForChat. rewrite collectForChat_filter.
    rewrite filter_In, strict_eq_true. tauto.
  - reflexivity.
Qed.


(** ** The object store and the invariant *)

Lemma length_update_nth {A} n (f : A -> A) l :
  List.length (update_nth n f l) = List.length l.
Proof.
  revert n. induction l as [|x rest IH]; intros [|n]; simpl; auto.
Qed.

Lemma nth_update_nth {A} n' n (f : A -> A) l d :
  nth n' (update_nth n f l) d =
  if (n' =? n)%nat && (n <? List.length l)%nat
  then f (nth n l d) else nth n' l d.
Proof.
  revert n' n. induction l as [|x rest IH]; intros n' n.
  - simpl. destruct n, n'; simpl; try reflexivity;
      now rewrite Bool.andb_false_r.
  - destruct n as [|n], n' as [|n']; simpl; auto.
Qed.

Lemma read_modify r' r f m :
  read r' (modify r f m) =
  if (r' =? r)%nat && (r <? List.length (heap m))%nat
  then f (read r m) else read r' m.
Proof. unfold read, modify. destruct m; simpl. apply nth_update_nth. Qed.

Lemma id_read_modify r' r f m :
  (forall a, Account.id (f a) = Account.id a) ->
  Account.id (read r' (modify r f m)) = Account.id (read r' m).
Proof.
  intros Hf. rewrite read_modify.
  destruct (Nat.eqb_spec r' r) as [->|]; simpl; auto.
  destruct (r <? List.length (heap m))%nat; auto.
Qed.

Lemma read_alloc_old r a m :
  (r < List.length (heap m))%nat -> read r (snd (alloc a m)) = read r m.
Proof.
  intros H. unfold read, alloc. destruct m; simpl in *. now apply app_nth1.
Qed.

Lemma read_alloc_new a m : read (fst (alloc a m)) (snd (alloc a m)) = a.
Proof.
  unfold read, alloc. destruct m; simpl.
  rewrite app_nth2, Nat.sub_diag; auto.
Qed.

Lemma or_null_idem x : Js.or_null (Js.or_null x) = Js.or_null x.
Proof.
  destruct x as [s|]; simpl; auto.
  destruct (Js.truthy s) eqn:E; simpl; now rewrite ?E.
Qed.

Lemma or_null_Some_truthy s :
  Js.truthy s = true -> Js.or_null (Some s) = Some s.
Proof. simpl. now intros ->. Qed.

Lemma truthy_generateAccountId now random :
  Js.truthy (generateAccountId now random) = true.
Proof. reflexivity. Qed.

Lemma Forall_set {V} (P : string * V -> Prop) k v (m : JsMap.t V) :
  Forall P m -> P (k, v) -> Forall P (JsMap.set k v m).
Proof.
  rewrite !Forall_forall. intros Hm Hkv x Hx.
  apply In_set in Hx as [->|Hx]; auto.
Qed.

Lemma Forall_delete {V} (P : string * V -> Prop) k (m : JsMap.t V) :
  Forall P m -> Forall P (JsMap.delete k m).
Proof.
  rewrite !Forall_forall. intros Hm x Hx. eapply Hm, In_delete, Hx.
Qed.

(** The invariant looks at the store, the map, the active pointer and the
    configuration file only. *)
Lemma wf_same m m' :
  heap m' = heap m -> accounts m' = accounts m ->
  activeAccountId m' = activeAccountId m -> wf m -> wf m'.
Proof.
  intros Hh Ha Hp [Hk He Hact].
  split; rewrite ?Ha, ?Hp; auto.
  eapply Forall_impl; [|exact He].
  intros kv. unfold valid_entry, read. now rewrite Hh.
Qed.

Lemma Inv_same m m' :
  heap m' = heap m -> accounts m' = accounts m ->
  activeAccountId m' = activeAccountId m -> configFile m' = configFile m ->
  Inv m -> Inv m'.
Proof.
  intros Hh Ha Hp Hc [Hwf Hs Hf].
  split; rewrite ?Ha, ?Hc; auto. eapply wf_same; eauto.
Qed.

Lemma wf_modify r f m :
  (forall a, Account.id (f a) = Account.id a) -> wf m -> wf (modify r f m).
Proof.
  intros Hf [Hk He Hact]. split; auto.
  eapply Forall_impl; [|exact He].
  intros kv (Hlt & Hid & Ht). unfold valid_entry.
  rewrite id_read_modify by auto.
  unfold modify; destruct m; simpl in *.
  now rewrite length_update_nth.
Qed.

Lemma Inv_modify r f m :
  (forall a, Account.id (f a) = Account.id a) -> Inv m -> Inv (modify r f m).
Proof.
  intros Hf [Hwf Hs Hfile]. split; auto using wf_modify.
Qed.

Lemma Inv_emit e m : Inv m -> Inv (emit e m).
Proof. now apply Inv_same. Qed.

Lemma Inv_setTimeout cb ms m : Inv m -> Inv (setTimeout cb ms m).
Proof. now apply Inv_same. Qed.

Lemma Inv_suspend k m : Inv m -> Inv (suspend k m).
Proof. now apply Inv_same. Qed.

Lemma Inv_set_timers v m : Inv m -> Inv (set_timers v m).
Proof. now apply Inv_same. Qed.

Lemma Inv_set_awaiting v m : Inv m -> Inv (set_awaiting v m).
Proof. now apply Inv_same. Qed.

Lemma Inv_set_wired v m : Inv m -> Inv (set_wired v m).
Proof. now apply Inv_same. Qed.

Lemma Inv_set_authDirs v m : Inv m -> Inv (set_authDirs v m).
Proof. now apply Inv_same. Qed.

Lemma Inv_set_fsWritable v m : Inv m -> Inv (set_fsWritable v m).
Proof. now apply Inv_same. Qed.

Lemma Inv_set_chatsCache v time m : Inv m -> Inv (set_chatsCache v time m).
Proof. now apply Inv_same. Qed.

Lemma Inv_saveDeletedMessage d m : Inv m -> Inv (saveDeletedMessage d m).
Proof.
  apply Inv_same; unfold saveDeletedMessage, saveDeletedMessages;
    destruct m; simpl; now destruct fsWritable0.
Qed.

Lemma ids_account_values m :
  wf m -> map Account.id (account_values m) = JsMap.keys (accounts m).
Proof.
  intros [_ He _]. unfold account_values, JsMap.values, JsMap.keys.
  rewrite !map_map. apply map_ext_in.
  intros kv Hin. rewrite Forall_forall in He.
  now destruct (He kv Hin) as (_ & -> & _).
Qed.

Lemma Inv_saveAccountsConfig m : Inv m -> Inv (saveAccountsConfig m).
Proof.
  intros HI. unfold saveAccountsConfig.
  destruct (fsWritable m) eqn:E; auto.
  destruct HI as [Hwf Hs Hf].
  split; auto.
  - apply (wf_same m); [reflexivity..|assumption].
  - unfold set_configFile; simpl. split.
    + rewrite Forall_map. simpl.
      assert (Hids := ids_account_values m Hwf).
      destruct Hwf as [_ He _].
      rewrite Forall_forall in *. intros acc Hacc.
      assert (In (Account.id acc) (JsMap.keys (accounts m))) as Hk.
      { rewrite <- Hids. now apply in_map. }
      apply in_map_iff in Hk as (kv & <- & Hkv).
      now destruct (He kv Hkv) as (_ & _ & ?).
    + rewrite length_map. unfold account_values, JsMap.values.
      rewrite !length_map. exact Hs.
Qed.

Create HintDb inv.

#[local] Hint Resolve Inv_emit Inv_setTimeout Inv_suspend Inv_set_timers
  Inv_set_awaiting Inv_set_wired Inv_set_authDirs Inv_set_fsWritable
  Inv_set_chatsCache Inv_saveDeletedMessage Inv_saveAccountsConfig : inv.


(** ** What the pieces of [initialize()] and [deleteAccount] preserve

    A property of the manager that the [initializeAccount] pieces preserve,
    and that suspending a method preserves when the property admits the
    continuation, is preserved by [initialize()] and by every later piece
    of it. *)

Section Startup.

Variable P : t -> Prop.
Variable admits : t -> Continuation -> Prop.

Hypothesis P_suspend : forall k m, P m -> admits m k -> P (suspend k m).
Hypothesis admits_call :
  forall m k phase rest,
    admits m k -> admits m (AfterInitializeAccount k phase rest).
Hypothesis admits_wait : forall m ms rest, admits m (AfterWait ms rest).
Hypothesis P_begin :
  forall accountId ctorThrows m,
    P m ->
    P (snd (initializeAccount_begin accountId ctorThrows false m))
    /\ forall k,
         fst (initializeAccount_begin accountId ctorThrows false m) = Pending k ->
         admits (snd (initializeAccount_begin accountId ctorThrows false m)) k.

Lemma startup_initialize_loop rest ctorThrows :
  forall m, P m -> P (initialize_loop rest ctorThrows m).
Proof.
  induction rest as [|acc rest IH]; intros m HP; cbn [initialize_loop]; auto.
  destruct (Js.strict_eq (activeAccountId m) (Account.id (read acc m))); auto.
  destruct (P_begin (Account.id (read acc m)) ctorThrows m HP) as (HP1 & Hk).
  destruct (initializeAccount_begin (Account.id (read acc m)) ctorThrows
              false m) as [[[u|e]|k] m1]; cbn [fst snd] in *.
  - now apply P_suspend.
  - now apply IH.
  - apply P_suspend; auto.
Qed.

Lemma startup_initialize_next phase rest ctorThrows p :
  P (snd p) -> (forall k, fst p = Pending k -> admits (snd p) k) ->
  P (initialize_next phase rest ctorThrows p).
Proof.
  destruct p as [[[u|e]|k] m1]; cbn [fst snd initialize_next]; intros HP Hk.
  - destruct phase; auto using startup_initialize_loop.
  - destruct phase; auto using startup_initialize_loop.
  - apply P_suspend; auto.
Qed.

End Startup.


(** ** The invariant holds along every run *)

(** The scrutinee of an innermost [match] of a term. *)
Ltac scrutinee_of term :=
  lazymatch term with
  | context [match ?inner with _ => _ end] => scrutinee_of inner
  | _ => term
  end.

(** Case analysis on the scrutinee of an innermost [match] of the goal. *)
Ltac break_match :=
  lazymatch goal with
  | |- ?G =>
      let x := scrutinee_of G in
      lazymatch x with
      | G => fail "the goal has no match"
      | _ => destruct x eqn:?
      end
  end.

(** Goals [Inv (...)] over compositions of the basic assignments. *)
Ltac inv_auto :=
  repeat first
    [ assumption
    | apply Inv_emit
    | apply Inv_setTimeout
    | apply Inv_suspend
    | apply Inv_saveAccountsConfig
    | apply Inv_saveDeletedMessage
    | apply Inv_set_timers
    | apply Inv_set_awaiting
    | apply Inv_set_wired
    | apply Inv_set_authDirs
    | apply Inv_set_fsWritable
    | apply Inv_set_chatsCache
    | apply Inv_modify; [intros ?; reflexivity|]
    | progress cbn [fst snd]
    | break_match ].

Lemma wf_set_activeAccountId x m :
  wf m -> Js.or_null x = x -> wf (set_activeAccountId x m).
Proof. intros [Hk He Ha] Hx. split; auto. Qed.

Lemma wf_alloc_set a m :
  wf m -> Js.truthy (Account.id a) = true ->
  wf (set_accounts
        (JsMap.set (Account.id a) (fst (alloc a m))
           (accounts (snd (alloc a m))))
        (snd (alloc a m))).
Proof.
  intros [Hk He Ha] Ht. destruct m; unfold alloc; simpl in *.
  split; simpl.
  - now apply NoDup_keys_set.
  - apply Forall_set.
    + eapply Forall_impl; [|exact He].
      unfold valid_entry, read; simpl.
      intros kv (Hlt & Hid & Htr).
      rewrite length_app, app_nth1 by lia. simpl.
      repeat split; auto. lia.
    + unfold valid_entry, read; simpl.
      rewrite length_app, app_nth2, Nat.sub_diag by lia. simpl.
      repeat split; auto. lia.
  - exact Ha.
Qed.

Lemma size_delete_le {V} k (m : JsMap.t V) :
  (JsMap.size (JsMap.delete k m) <= JsMap.size m)%nat.
Proof.
  unfold JsMap.size.
  induction m as [|[k' v'] rest IH]; simpl; auto.
  destruct (String.eqb k' k); simpl; lia.
Qed.

Lemma wf_delete k m :
  wf m -> wf (set_accounts (JsMap.delete k (accounts m)) m).
Proof.
  intros [Hk He Ha]. split; simpl; auto.
  - now apply NoDup_keys_delete.
  - now apply Forall_delete.
Qed.

Lemma Inv_createAccount name now random now' m :
  Inv m -> Inv (snd (createAccount name now random now' m)).
Proof.
  intros HI. unfold createAccount.
  destruct (Nat.leb_spec maxAccounts (JsMap.size (accounts m))) as [Hfull|Hroom];
    [exact HI|].
  destruct HI as [Hwf Hs Hf].
  set (account := Account.mk (generateAccountId now random) _ _ _ _ _ _ _ _ _).
  assert (Hw2 := wf_alloc_set account m Hwf (truthy_generateAccountId _ _)).
  cbn [alloc]. cbn [snd].
  cbn [alloc fst snd] in Hw2. cbn [Account.id account] in Hw2.
  apply Inv_emit, Inv_saveAccountsConfig.
  match goal with
  | |- Inv (if ?c then _ else _) => destruct c
  end.
  - split.
    + apply wf_set_activeAccountId; auto.
    + cbn [accounts set_accounts set_activeAccountId set_heap].
      pose proof (@size_set_le ref (generateAccountId now random)
                    (List.length (heap m)) (accounts m)). lia.
    + exact Hf.
  - split; auto.
    cbn [accounts set_accounts set_heap].
    pose proof (@size_set_le ref (generateAccountId now random)
                  (List.length (heap m)) (accounts m)). lia.
Qed.

Lemma Inv_deleteAccount_commit accountId m :
  Inv m -> Inv (deleteAccount_commit accountId m).
Proof.
  intros HI. unfold deleteAccount_commit.
  apply Inv_emit, Inv_saveAccountsConfig.
  destruct HI as [Hwf Hs Hf].
  assert (wf (set_accounts (JsMap.delete accountId (accounts m))
                (set_authDirs
                   (filter (fun d => negb (String.eqb d accountId))
                      (authDirs m)) m))) as Hw.
  { apply (wf_same (set_accounts (JsMap.delete accountId (accounts m)) m));
      [reflexivity..|]. now apply wf_delete. }
  assert (JsMap.size (JsMap.delete accountId (accounts m)) <= maxAccounts)%nat
    as Hs' by (pose proof (size_delete_le accountId (accounts m)); lia).
  match goal with
  | |- Inv (if ?c then _ else _) => destruct c
  end.
  - split; auto. apply wf_set_activeAccountId; auto. apply or_null_idem.
  - split; auto.
Qed.

Lemma Inv_deleteAccount_end accountId rmThrows m :
  Inv m -> Inv (snd (deleteAccount_end accountId rmThrows m)).
Proof.
  intros HI. unfold deleteAccount_end.
  destruct (existsb (String.eqb accountId) (authDirs m)), rmThrows;
    cbn [snd]; auto using Inv_deleteAccount_commit.
Qed.

Lemma Inv_deleteAccount_begin accountId rmThrows m :
  Inv m -> Inv (snd (deleteAccount_begin accountId rmThrows m)).
Proof.
  intros HI. unfold deleteAccount_begin.
  destruct (JsMap.get accountId (accounts m)) as [account|]; [|exact HI].
  destruct (Account.client (read account m)); [exact HI|].
  now apply Inv_deleteAccount_end.
Qed.

Lemma Inv_deleteAccount accountId rmThrows m :
  Inv m -> Inv (snd (deleteAccount accountId rmThrows m)).
Proof.
  intros HI. unfold deleteAccount.
  pose proof (Inv_deleteAccount_begin accountId rmThrows m HI) as Hb.
  destruct (deleteAccount_begin accountId rmThrows m) as [[r|k] m1];
    cbn [snd] in *; auto using Inv_deleteAccount_end.
Qed.

Lemma Inv_renameAccount accountId newName m :
  Inv m -> Inv (snd (renameAccount accountId newName m)).
Proof. intros HI. unfold renameAccount. inv_auto. Qed.

Lemma Inv_initializeAccount_connect account accountId ctorThrows switching m :
  Inv m ->
  Inv (snd (initializeAccount_connect account accountId ctorThrows switching
              m)).
Proof. intros HI. unfold initializeAccount_connect. inv_auto. Qed.

Lemma Inv_initializeAccount_begin accountId ctorThrows switching m :
  Inv m ->
  Inv (snd (initializeAccount_begin accountId ctorThrows switching m)).
Proof.
  intros HI. unfold initializeAccount_begin, initializeAccount_connect.
  inv_auto.
Qed.

Lemma Inv_initializeAccount_end account s m :
  Inv m -> Inv (snd (initializeAccount_end account s m)).
Proof. intros HI. unfold initializeAccount_end. inv_auto. Qed.

Lemma get_truthy accountId account m :
  wf m -> JsMap.get accountId (accounts m) = Some account ->
  Js.truthy accountId = true.
Proof.
  intros [_ He _] Hget. apply get_In in Hget.
  rewrite Forall_forall in He. now destruct (He _ Hget) as (_ & _ & ?).
Qed.

Lemma Inv_set_activeAccountId x m :
  Inv m -> Js.or_null x = x -> Inv (set_activeAccountId x m).
Proof.
  intros [Hwf Hs Hf] Hx. split; auto using wf_set_activeAccountId.
Qed.

Lemma Inv_switchAccount_begin accountId ctorThrows m :
  Inv m -> Inv (snd (switchAccount_begin accountId ctorThrows m)).
Proof.
  intros HI. unfold switchAccount_begin.
  destruct (JsMap.get accountId (accounts m)) as [account|] eqn:Hget;
    [|exact HI].
  assert (Js.truthy accountId = true) as Ht
    by (eapply get_truthy; eauto; apply HI).
  match goal with
  | |- context [set_activeAccountId (Some accountId) ?m1] =>
      assert (Inv m1) as HI1 by inv_auto;
      assert (Inv (saveAccountsConfig (set_activeAccountId (Some accountId) m1)))
        as HI3
        by (apply Inv_saveAccountsConfig, Inv_set_activeAccountId;
            [exact HI1 | now apply or_null_Some_truthy]);
      generalize dependent (saveAccountsConfig
                              (set_activeAccountId (Some accountId) m1))
  end.
  intros m3 HI3. cbv zeta.
  destruct (needsInitialization (read account m3)).
  - pose proof (Inv_initializeAccount_begin accountId ctorThrows true m3 HI3)
      as HIb.
    destruct (initializeAccount_begin accountId ctorThrows true m3)
      as [[[r|e]|k] m4]; cbn [snd] in *; inv_auto.
  - cbn [snd]. inv_auto.
Qed.

Lemma Inv_switchAccount_end account accountId r :
  Inv (snd r) -> Inv (snd (switchAccount_end account accountId r)).
Proof.
  intros HI. unfold switchAccount_end. destruct r as [[u|e] m]; inv_auto.
Qed.

Lemma Inv_recordPhone account i m : Inv m -> Inv (recordPhone account i m).
Proof. intros HI. unfold recordPhone. inv_auto. Qed.

Lemma Inv_fixReadyState world account m :
  Inv m -> Inv (fixReadyState world account m).
Proof. intros HI. unfold fixReadyState. cbv zeta. inv_auto. Qed.

Lemma Inv_getAllAccounts world m :
  Inv m -> Inv (snd (getAllAccounts world m)).
Proof.
  intros HI. unfold getAllAccounts. cbn [snd].
  generalize (JsMap.values (accounts m)). intros refs.
  revert m HI. induction refs as [|r rest IH]; intros m HI; simpl; auto.
  apply IH, Inv_fixReadyState, HI.
Qed.

Lemma Inv_getAccountStatus world accountId m :
  Inv m -> Inv (snd (getAccountStatus world accountId m)).
Proof.
  intros HI. unfold getAccountStatus.
  destruct (JsMap.get accountId (accounts m)); cbn [snd]; auto.
  now apply Inv_fixReadyState.
Qed.

Lemma Inv_logoutAccount_end account logout m :
  Inv m -> Inv (snd (logoutAccount_end account logout m)).
Proof. intros HI. unfold logoutAccount_end. inv_auto. Qed.

Lemma Inv_logoutAccount accountId logout m :
  Inv m -> Inv (snd (logoutAccount accountId logout m)).
Proof.
  intros HI. unfold logoutAccount.
  destruct (logoutAccount_begin accountId m) as [r|[]]; cbn [snd]; auto.
  now apply Inv_logoutAccount_end.
Qed.

Lemma Inv_retryLater accountId retryCount m :
  Inv m -> Inv (retryLater accountId retryCount m).
Proof. intros HI. unfold retryLater. inv_auto. Qed.

Lemma Inv_checkAndSetReady_begin accountId retryCount world m :
  Inv m -> Inv (snd (checkAndSetReady_begin accountId retryCount world m)).
Proof.
  intros HI. unfold checkAndSetReady_begin.
  repeat first [break_match | progress cbn [snd]
               | apply Inv_retryLater | assumption].
Qed.

Lemma Inv_checkAndSetReady_end account accountId retryCount probe world m :
  Inv m ->
  Inv (checkAndSetReady_end account accountId retryCount probe world m).
Proof.
  intros HI. unfold checkAndSetReady_end.
  repeat first [apply Inv_retryLater | apply Inv_recordPhone | inv_auto].
Qed.

Lemma Inv_getChats_end account now fetch m :
  Inv m -> Inv (snd (getChats_end account now fetch m)).
Proof. intros HI. unfold getChats_end. cbv zeta. inv_auto. Qed.

Lemma Inv_start {A} (p : Progress A * t) : Inv (snd p) -> Inv (start p).
Proof. destruct p as [[r|k] m]; simpl; auto with inv. Qed.

Lemma Inv_handle account accountId view e m :
  Inv m -> Inv (handle account accountId view e m).
Proof.
  intros HI. destruct e; simpl;
    unfold on_qr, on_loading_screen, on_ready, on_authenticated,
      on_auth_failure, on_disconnected, on_message, on_message_create,
      on_message_revoke_everyone; cbv zeta;
    repeat first [apply Inv_recordPhone | inv_auto].
Qed.

Lemma Inv_runCallback cb world m : Inv m -> Inv (runCallback cb world m).
Proof.
  intros HI. destruct cb; simpl.
  - destruct (negb _); auto.
    now apply Inv_start, Inv_checkAndSetReady_begin.
  - unfold on_ready_settled. inv_auto.
  - now apply Inv_start, Inv_checkAndSetReady_begin.
Qed.

Lemma Inv_initialize_loop rest ctorThrows m :
  Inv m -> Inv (initialize_loop rest ctorThrows m).
Proof.
  apply (startup_initialize_loop Inv (fun _ _ => True)); auto.
  - intros k m0 HI _. now apply Inv_suspend.
  - intros accountId c m0 HI. split; auto.
    now apply Inv_initializeAccount_begin.
Qed.

Lemma Inv_initialize_next phase rest ctorThrows p :
  Inv (snd p) -> Inv (initialize_next phase rest ctorThrows p).
Proof.
  intros HI.
  apply (startup_initialize_next Inv (fun _ _ => True)); auto.
  - intros k m0 HI0 _. now apply Inv_suspend.
  - intros accountId c m0 HI0. split; auto.
    now apply Inv_initializeAccount_begin.
Qed.

Lemma Inv_resume_initializeAccount k s ctorThrows m :
  Inv m -> Inv (snd (resume_initializeAccount k s ctorThrows m)).
Proof.
  intros HI. destruct k; cbn [resume_initializeAccount snd]; auto.
  - now apply Inv_initializeAccount_connect.
  - now apply Inv_initializeAccount_end.
Qed.

Lemma Inv_resume k s ctorThrows world m :
  Inv m -> Inv (resume k s ctorThrows world m).
Proof.
  intros HI. destruct k; cbn [resume].
  - now apply Inv_deleteAccount_end.
  - pose proof (Inv_initializeAccount_connect account accountId ctorThrows
                  switching m HI) as Hc.
    destruct (initializeAccount_connect account accountId ctorThrows
                switching m) as [[r|k'] m1]; cbn [snd] in Hc.
    + destruct switching; [|exact Hc].
      now apply Inv_switchAccount_end.
    + now apply Inv_suspend.
  - destruct switching.
    + now apply Inv_switchAccount_end, Inv_initializeAccount_end.
    + now apply Inv_initializeAccount_end.
  - now apply Inv_logoutAccount_end.
  - now apply Inv_getChats_end.
  - now apply Inv_checkAndSetReady_end.
  - apply Inv_initialize_next. now apply Inv_resume_initializeAccount.
  - now apply Inv_initialize_loop.
Qed.

Lemma loadAccount_spec acc m :
  wf m -> Js.truthy (meta_id acc) = true ->
  wf (loadAccount acc m) /\
  (JsMap.size (accounts (loadAccount acc m)) <= S (JsMap.size (accounts m)))%nat /\
  configFile (loadAccount acc m) = configFile m.
Proof.
  intros Hwf Ht. unfold loadAccount.
  set (a := loadedAccount _ acc).
  pose proof (wf_alloc_set a m Hwf Ht) as Hw.
  cbn [alloc fst snd] in *. cbn [Account.id a loadedAccount] in Hw.
  split; [exact Hw|]. split; [|reflexivity].
  cbn [accounts set_accounts set_heap]. apply size_set_le.
Qed.

Lemma loadAccounts_spec accs m :
  wf m -> Forall (fun a => Js.truthy (meta_id a) = true) accs ->
  let m' := fold_left (fun s acc => loadAccount acc s) accs m in
  wf m' /\
  (JsMap.size (accounts m') <= JsMap.size (accounts m) + List.length accs)%nat /\
  configFile m' = configFile m.
Proof.
  revert m. induction accs as [|acc rest IH]; intros m Hwf Hall; simpl.
  - split; [assumption|split; [lia|reflexivity]].
  - inversion Hall as [|? ? Hacc Hrest]; subst.
    destruct (loadAccount_spec acc m Hwf Hacc) as (Hw1 & Hs1 & Hc1).
    destruct (IH (loadAccount acc m) Hw1 Hrest) as (Hw2 & Hs2 & Hc2).
    split; [assumption|split; [lia|congruence]].
Qed.

Lemma Inv_loadAccountsConfig m :
  wf m -> JsMap.size (accounts m) = 0%nat -> file_ok (configFile m) ->
  Inv (loadAccountsConfig m).
Proof.
  intros Hwf Hsize Hfile. unfold loadAccountsConfig.
  destruct (configFile m) as [| |data] eqn:Hc;
    try (split; auto; rewrite ?Hc; auto; rewrite Hsize;
         unfold maxAccounts; lia).
  simpl in Hfile.
  assert (wf (set_activeAccountId (Js.or_null (cfg_activeAccountId data)) m))
    as Hw1 by (apply wf_set_activeAccountId; auto using or_null_idem).
  destruct (cfg_accounts data) as [accs|] eqn:Ha.
  - destruct Hfile as [Hids Hlen].
    destruct (loadAccounts_spec accs _ Hw1 Hids) as (Hw & Hs & Hcf).
    split; auto.
    + cbn [accounts set_activeAccountId] in Hs. lia.
    + rewrite Hcf. cbn [configFile set_activeAccountId].
      rewrite Hc. simpl. rewrite Ha. auto.
  - split; auto.
    + cbn [accounts set_activeAccountId]. rewrite Hsize.
      unfold maxAccounts; lia.
    + cbn [configFile set_activeAccountId]. rewrite Hc. simpl.
      now rewrite Ha.
Qed.

Lemma Inv_constructor config deleted dirs writable :
  file_ok config -> Inv (constructor config deleted dirs writable).
Proof.
  intros Hf. unfold constructor.
  match goal with
  | |- Inv (loadDeletedMessages ?m) =>
      assert (Inv m) as HI;
      [|revert HI; apply Inv_same; unfold loadDeletedMessages;
        destruct (deletedMessagesFile m); reflexivity]
  end.
  apply Inv_loadAccountsConfig; auto.
  split; simpl; auto. constructor.
Qed.

Lemma Inv_restart m : Inv m -> Inv (restart m).
Proof. intros [_ _ Hf]. now apply Inv_constructor. Qed.

Lemma Inv_fresh : Inv fresh.
Proof. now apply Inv_constructor. Qed.

Lemma first_key_truthy m :
  wf m -> Js.or_null (JsMap.first_key (accounts m)) = JsMap.first_key (accounts m).
Proof.
  intros [_ He _]. unfold JsMap.first_key, JsMap.keys.
  destruct (accounts m) as [|[k r] rest]; simpl; auto.
  inversion He as [|? ? (_ & _ & Ht) _]; subst. simpl in Ht. now rewrite Ht.
Qed.

Lemma Inv_initialize_begin now random now' ctorThrows m :
  Inv m -> Inv (snd (initialize_begin now random now' ctorThrows m)).
Proof.
  intros HI. unfold initialize_begin.
  assert (Inv (snd
            (if (JsMap.size (accounts m) =? 0)%nat
             then
               match createAccount (Some "Main Account") now random now' m with
               | (Returns defaultAccount, m1) =>
                   initializeAccount_begin
                     (Account.id (read defaultAccount m1)) ctorThrows false m1
               | (Throws e, m1) => (Settled (Throws e), m1)
               end
             else
               match JsMap.first_key (accounts m) with
               | Some first =>
                   initializeAccount_begin first ctorThrows false
                     (saveAccountsConfig
                        (set_activeAccountId
                           (JsMap.first_key (accounts m)) m))
               | None =>
                   (Settled (Throws NotFound),
                    saveAccountsConfig
                      (set_activeAccountId (JsMap.first_key (accounts m)) m))
               end))) as Hother.
  { destruct (JsMap.size (accounts m) =? 0)%nat.
    - pose proof (Inv_createAccount (Some "Main Account") now random now' m HI)
        as Hc.
      destruct (createAccount (Some "Main Account") now random now' m)
        as [[r|e] m1]; cbn [snd] in *; auto.
      now apply Inv_initializeAccount_begin.
    - assert (Inv (saveAccountsConfig
                     (set_activeAccountId (JsMap.first_key (accounts m)) m)))
        as Hs.
      { apply Inv_saveAccountsConfig, Inv_set_activeAccountId; auto.
        apply first_key_truthy, HI. }
      destruct (JsMap.first_key (accounts m)); cbn [snd]; auto.
      now apply Inv_initializeAccount_begin. }
  cbv zeta.
  destruct (activeAccountId m) as [id|]; auto.
  destruct (Js.truthy id && JsMap.has id (accounts m)); auto.
  now apply Inv_initializeAccount_begin.
Qed.

Lemma Inv_step world i m : Inv m -> Inv (step world i m).
Proof.
  intros HI. destruct i; simpl.
  - now apply Inv_createAccount.
  - now apply Inv_start, Inv_deleteAccount_begin.
  - now apply Inv_renameAccount.
  - now apply Inv_start, Inv_initializeAccount_begin.
  - now apply Inv_start, Inv_switchAccount_begin.
  - destruct (logoutAccount_begin accountId m); auto with inv.
  - now apply Inv_getAllAccounts.
  - now apply Inv_getAccountStatus.
  - destruct (getChats_begin now world m); auto with inv.
  - unfold initialize. now apply Inv_initialize_next, Inv_initialize_begin.
  - destruct (nth_error (wired m) client) as [[account accountId]|]; auto.
    now apply Inv_handle.
  - destruct (nth_error (timers m) n); auto.
    apply Inv_runCallback. auto with inv.
  - destruct (nth_error (awaiting m) n); auto.
    apply Inv_resume. auto with inv.
  - auto with inv.
  - auto with inv.
  - now apply Inv_restart.
Qed.

(** Every state the event loop reaches from a fresh installation satisfies
    the invariant, whatever the clients, the timers and the callers do and
    however often the process restarts. *)
Lemma Inv_run trace m : Inv m -> Inv (run trace m).
Proof.
  unfold run. revert m.
  induction trace as [|[world i] rest IH]; intros m HI; simpl; auto.
  apply IH, Inv_step, HI.
Qed.

Lemma Inv_reachable trace : Inv (run trace fresh).
Proof. apply Inv_run, Inv_fresh. Qed.

(** The computable test implies the invariant on the map. *)
Lemma distinct_NoDup l : distinct l = true -> NoDup l.
Proof.
  induction l as [|x rest IH]; simpl; [constructor|].
  rewrite Bool.andb_true_iff, Bool.negb_true_iff. intros [Hx Hr].
  constructor; auto.
  intros Hin. apply Bool.not_true_iff_false in Hx. apply Hx.
  apply existsb_exists. exists x. split; auto. apply String.eqb_refl.
Qed.

Lemma wfb_wf m : wfb m = true -> wf m.
Proof.
  unfold wfb. rewrite !Bool.andb_true_iff. intros [[Hd Hall] Hact].
  split.
  - now apply distinct_NoDup.
  - rewrite forallb_forall in Hall. apply Forall_forall.
    intros kv Hin. specialize (Hall kv Hin).
    rewrite !Bool.andb_true_iff in Hall. destruct Hall as [[Hlt Hid] Ht].
    repeat split; auto.
    + now apply Nat.ltb_lt.
    + now apply String.eqb_eq.
  - destruct (activeAccountId m) as [s|]; simpl; auto. now rewrite Hact.
Qed.


(** ** Creating and deleting accounts *)

Lemma createAccount_full name now random now' m :
  (maxAccounts <= JsMap.size (accounts m))%nat ->
  createAccount name now random now' m = (Throws CapacityExceeded, m).
Proof.
  intros H. unfold createAccount.
  now destruct (Nat.leb_spec maxAccounts (JsMap.size (accounts m))); [|lia].
Qed.

Lemma accounts_createAccount name now random now' m :
  accounts (snd (createAccount name now random now' m)) =
  if (maxAccounts <=? JsMap.size (accounts m))%nat then accounts m
  else JsMap.set (generateAccountId now random) (List.length (heap m))
         (accounts m).
Proof.
  unfold createAccount.
  destruct (maxAccounts <=? JsMap.size (accounts m))%nat; [reflexivity|].
  cbn [alloc snd].
  match goal with |- context [if ?c then _ else _] => destruct c end;
    unfold saveAccountsConfig;
    match goal with |- context [if ?c then _ else _] => destruct c end;
    reflexivity.
Qed.

Lemma createAccount_returns name now random now' m :
  (JsMap.size (accounts m) < maxAccounts)%nat ->
  fst (createAccount name now random now' m) = Returns (List.length (heap m)).
Proof.
  intros H. unfold createAccount.
  destruct (Nat.leb_spec maxAccounts (JsMap.size (accounts m))); [lia|].
  reflexivity.
Qed.

Lemma size_createAccount name now random now' m :
  (JsMap.size (accounts m) <= maxAccounts)%nat ->
  (JsMap.size (accounts (snd (createAccount name now random now' m)))
   <= maxAccounts)%nat.
Proof.
  intros H. rewrite accounts_createAccount.
  destruct (Nat.leb_spec maxAccounts (JsMap.size (accounts m))); auto.
  pose proof (@size_set_le ref (generateAccountId now random)
                (List.length (heap m)) (accounts m)).
  lia.
Qed.

Lemma size_createAccounts calls m :
  (JsMap.size (accounts m) <= maxAccounts)%nat ->
  (JsMap.size (accounts (createAccounts calls m)) <= maxAccounts)%nat.
Proof.
  unfold createAccounts. revert m.
  induction calls as [|c rest IH]; intros m H; simpl; auto.
  apply IH, size_createAccount, H.
Qed.

(** C1.  From a manager holding at most [maxAccounts] = 10 accounts, every
    sequence of [createAccount] calls leaves at most 10 accounts; a
    [createAccount] call made when the count has reached 10 throws
    [CapacityExceeded] and leaves the whole manager, accounts map and
    configuration file included, as it was, and a call made below the limit
    returns.  The bound also holds in every state the event loop reaches
    from a fresh installation, whatever else is called in between. *)
Theorem createAccount_respects_maxAccounts :
  forall (m : t) (calls : list CreateCall) (name : option string)
         (now : Z) (random : string) (now' : Z),
    (JsMap.size (accounts m) <= maxAccounts)%nat ->
    let m' := createAccounts calls m in
    maxAccounts = 10%nat
    /\ (JsMap.size (accounts m') <= maxAccounts)%nat
    /\ (if (maxAccounts <=? JsMap.size (accounts m'))%nat
        then createAccount name now random now' m'
             = (Throws CapacityExceeded, m')
        else fst (createAccount name now random now' m')
             = Returns (List.length (heap m')))
    /\ (forall trace,
          (JsMap.size (accounts (run trace fresh)) <= maxAccounts)%nat).
Proof.
  intros m calls name now random now' H m'.
  refine (conj eq_refl (conj _ (conj _ _))).
  - now apply size_createAccounts.
  - destruct (Nat.leb_spec maxAccounts (JsMap.size (accounts m'))).
    + now apply createAccount_full.
    + now apply createAccount_returns.
  - intros trace. apply Inv_reachable.
Qed.

Lemma createAccount_respects_maxAccounts_witness :
  (JsMap.size (accounts fresh) <= maxAccounts)%nat
  /\ JsMap.size (accounts (createAccounts eleven_calls fresh)) = 10%nat
  /\ createAccount (Some "Sales") 1700000000001 "l" 1700000000001
       (createAccounts eleven_calls fresh)
     = (Throws CapacityExceeded, createAccounts eleven_calls fresh).
Proof.
  assert (JsMap.size (accounts fresh) <= maxAccounts)%nat as Hle
    by (vm_compute; lia).
  pose proof (createAccount_respects_maxAccounts fresh eleven_calls
                (Some "Sales") 1700000000001 "l" 1700000000001 Hle) as H.
  cbv zeta in H. destruct H as (_ & _ & Hfull & _).
  assert ((maxAccounts <=?
             JsMap.size (accounts (createAccounts eleven_calls fresh)))%nat
          = true) as Hc by (vm_compute; reflexivity).
  rewrite Hc in Hfull.
  refine (conj Hle (conj _ Hfull)).
  vm_compute. reflexivity.
Defined.

(** *** At most one active account *)

Lemma filter_key_absent {A} (f : A -> string) a (l : list A) :
  ~ In a (map f l) -> filter (fun x => String.eqb a (f x)) l = [].
Proof.
  induction l as [|x rest IH]; simpl; auto.
  intros Hnin. destruct (String.eqb_spec a (f x)) as [->|Hne].
  - exfalso. apply Hnin. now left.
  - apply IH. intros Hin. apply Hnin. now right.
Qed.

Lemma filter_key_le_1 {A} (f : A -> string) a (l : list A) :
  NoDup (map f l) ->
  (List.length (filter (fun x => String.eqb a (f x)) l) <= 1)%nat.
Proof.
  induction l as [|x rest IH]; simpl; auto.
  intros Hnd. inversion Hnd as [|? ? Hnin Hrest]; subst.
  destruct (String.eqb_spec a (f x)) as [->|Hne]; auto.
  rewrite filter_key_absent by assumption. simpl. lia.
Qed.

Lemma filter_key_present {A} (f : A -> string) a (l : list A) :
  NoDup (map f l) -> In a (map f l) ->
  List.length (filter (fun x => String.eqb a (f x)) l) = 1%nat.
Proof.
  induction l as [|x rest IH]; simpl; [tauto|].
  intros Hnd Hin. inversion Hnd as [|? ? Hnin Hrest]; subst.
  destruct (String.eqb_spec a (f x)) as [->|Hne].
  - rewrite filter_key_absent by assumption. reflexivity.
  - destruct Hin as [Heq|Hin]; [congruence|]. now apply IH.
Qed.

Lemma activeAccounts_le_1 m :
  wf m -> (List.length (activeAccounts m) <= 1)%nat.
Proof.
  intros Hwf. unfold activeAccounts.
  destruct (activeAccountId m) as [a|]; simpl.
  - apply filter_key_le_1. rewrite ids_account_values by assumption.
    apply Hwf.
  - induction (account_values m); simpl; auto.
Qed.

Lemma activeAccounts_present m a :
  wf m -> activeAccountId m = Some a -> In a (JsMap.keys (accounts m)) ->
  List.length (activeAccounts m) = 1%nat.
Proof.
  intros Hwf Ha Hin. unfold activeAccounts. rewrite Ha. simpl.
  apply filter_key_present; rewrite ids_account_values by assumption;
    auto. apply Hwf.
Qed.

Lemma filter_view_isActive m l :
  List.length (filter view_isActive (map (view_of m) l)) =
  List.length
    (filter (fun acc => Js.strict_eq (activeAccountId m) (Account.id acc)) l).
Proof.
  induction l as [|x rest IH]; simpl; auto.
  destruct (Js.strict_eq (activeAccountId m) (Account.id x)); simpl; auto.
Qed.

Lemma getAllAccounts_active_le_1 world m :
  Inv m ->
  (List.length (filter view_isActive (fst (getAllAccounts world m))) <= 1)%nat.
Proof.
  intros HI. pose proof (Inv_getAllAccounts world m HI) as HI'.
  unfold getAllAccounts in *. cbn [fst snd] in *.
  rewrite filter_view_isActive. apply activeAccounts_le_1, HI'.
Qed.

Lemma activeAccountId_createAccount name now random now' m :
  activeAccountId (snd (createAccount name now random now' m)) =
  if (maxAccounts <=? JsMap.size (accounts m))%nat then activeAccountId m
  else if (JsMap.size
             (JsMap.set (generateAccountId now random)
                (List.length (heap m)) (accounts m)) =? 1)%nat
       then Some (generateAccountId now random)
       else activeAccountId m.
Proof.
  unfold createAccount.
  destruct (maxAccounts <=? JsMap.size (accounts m))%nat; [reflexivity|].
  cbn [alloc snd]. cbn [accounts set_accounts set_heap].
  match goal with |- _ = if ?c then _ else _ => destruct c end;
    unfold saveAccountsConfig;
    cbn [fsWritable set_activeAccountId set_accounts set_heap];
    destruct (fsWritable m); reflexivity.
Qed.

Lemma saveAccountsConfig_keeps m :
  heap (saveAccountsConfig m) = heap m
  /\ accounts (saveAccountsConfig m) = accounts m
  /\ activeAccountId (saveAccountsConfig m) = activeAccountId m
  /\ wired (saveAccountsConfig m) = wired m
  /\ emitted (saveAccountsConfig m) = emitted m
  /\ timers (saveAccountsConfig m) = timers m
  /\ awaiting (saveAccountsConfig m) = awaiting m
  /\ _chatsCache (saveAccountsConfig m) = _chatsCache m
  /\ _chatsCacheTime (saveAccountsConfig m) = _chatsCacheTime m
  /\ fsWritable (saveAccountsConfig m) = fsWritable m.
Proof.
  unfold saveAccountsConfig. destruct (fsWritable m) eqn:E; cbn; auto 12.
Qed.

Lemma deleteAccount_is_end accountId rmThrows m :
  JsMap.has accountId (accounts m) = true ->
  deleteAccount accountId rmThrows m = deleteAccount_end accountId rmThrows m.
Proof.
  unfold deleteAccount, deleteAccount_begin, JsMap.has.
  destruct (JsMap.get accountId (accounts m)); [|discriminate].
  destruct (Account.client _); auto.
  now destruct (deleteAccount_end accountId rmThrows m).
Qed.

Lemma deleteAccount_end_cases accountId rmThrows m :
  deleteAccount_end accountId rmThrows m =
    (Returns tt, deleteAccount_commit accountId m)
  \/ exists message,
       rmThrows = Some message /\ In accountId (authDirs m)
       /\ deleteAccount_end accountId rmThrows m =
          (Throws (FileSystemError message), m).
Proof.
  unfold deleteAccount_end.
  destruct (existsb (String.eqb accountId) (authDirs m)) eqn:E; auto.
  destruct rmThrows as [message|]; auto.
  right. exists message. repeat split.
  apply existsb_exists in E as (d & Hd & Heq).
  apply String.eqb_eq in Heq. now subst.
Qed.

Lemma deleteAccount_returns accountId m :
  JsMap.has accountId (accounts m) = true ->
  deleteAccount accountId None m =
  (Returns tt, deleteAccount_commit accountId m).
Proof.
  intros H. rewrite deleteAccount_is_end by exact H.
  unfold deleteAccount_end.
  now destruct (existsb (String.eqb accountId) (authDirs m)).
Qed.

Lemma deleteAccount_commit_spec accountId m :
  wf m ->
  let m' := deleteAccount_commit accountId m in
  accounts m' = JsMap.delete accountId (accounts m)
  /\ heap m' = heap m
  /\ activeAccountId m' =
     (if Js.strict_eq (activeAccountId m) accountId
      then JsMap.first_key (JsMap.delete accountId (accounts m))
      else activeAccountId m).
Proof.
  intros Hwf. unfold deleteAccount_commit.
  pose proof (first_key_truthy _ (wf_delete accountId m Hwf)) as Hfk.
  cbn [accounts set_accounts] in Hfk.
  match goal with
  | |- context [saveAccountsConfig ?x] =>
      destruct (saveAccountsConfig_keeps x) as (Hh & Ha & Hp & _);
      change (heap (emit (ev_account_deleted accountId) (saveAccountsConfig x)))
        with (heap (saveAccountsConfig x));
      change (accounts (emit (ev_account_deleted accountId)
                          (saveAccountsConfig x)))
        with (accounts (saveAccountsConfig x));
      change (activeAccountId (emit (ev_account_deleted accountId)
                                 (saveAccountsConfig x)))
        with (activeAccountId (saveAccountsConfig x));
      rewrite Hh, Ha, Hp
  end.
  cbn [set_authDirs set_accounts accounts activeAccountId].
  destruct (Js.strict_eq (activeAccountId m) accountId); cbn;
    rewrite ?Hfk; auto.
Qed.

Lemma first_key_In {V} (m : JsMap.t V) k :
  JsMap.first_key m = Some k -> In k (JsMap.keys m).
Proof.
  unfold JsMap.first_key. destruct (JsMap.keys m); simpl; [discriminate|].
  intros [= ->]. now left.
Qed.

Lemma same_ids_refl m : same_ids m m.
Proof. repeat split. Qed.

Lemma same_ids_trans m1 m2 m3 :
  same_ids m1 m2 -> same_ids m2 m3 -> same_ids m1 m3.
Proof.
  intros (A1 & P1 & I1) (A2 & P2 & I2).
  split; [congruence|split; [congruence|intros r; now rewrite I2]].
Qed.

Lemma same_ids_modify r f m :
  (forall a, Account.id (f a) = Account.id a) -> same_ids m (modify r f m).
Proof.
  intros Hf. repeat split. intros r'. now apply id_read_modify.
Qed.

Lemma same_ids_saveAccountsConfig m : same_ids m (saveAccountsConfig m).
Proof.
  unfold saveAccountsConfig. destruct (fsWritable m); repeat split.
Qed.

Lemma same_ids_fixReadyState world account m :
  same_ids m (fixReadyState world account m).
Proof.
  unfold fixReadyState. cbv zeta.
  repeat first
    [ apply same_ids_refl
    | break_match
    | eapply same_ids_trans;
      [|first [apply same_ids_saveAccountsConfig
              |apply same_ids_modify; intros ?; reflexivity]] ].
Qed.

Lemma same_ids_getAllAccounts world m :
  same_ids m (snd (getAllAccounts world m)).
Proof.
  unfold getAllAccounts. cbn [snd].
  generalize (JsMap.values (accounts m)). intros refs.
  assert (forall m0, same_ids m m0 ->
            same_ids m (fold_left
                          (fun s account => fixReadyState world account s)
                          refs m0)) as H.
  { induction refs as [|r rest IH]; intros m0 H0; simpl; auto.
    apply IH. eapply same_ids_trans; [exact H0|].
    apply same_ids_fixReadyState. }
  apply H, same_ids_refl.
Qed.

Lemma activeAccounts_same_ids m m' :
  same_ids m m' ->
  List.length (activeAccounts m') = List.length (activeAccounts m).
Proof.
  intros (Ha & Hp & Hi). unfold activeAccounts, account_values.
  rewrite Ha, Hp. induction (JsMap.values (accounts m)) as [|r rest IH];
    simpl; auto.
  rewrite Hi. destruct (Js.strict_eq _ _); simpl; auto.
Qed.

Lemma getAllAccounts_activeAccounts world m :
  List.length (filter view_isActive (fst (getAllAccounts world m))) =
  List.length (activeAccounts m).
Proof.
  rewrite <- (activeAccounts_same_ids m _ (same_ids_getAllAccounts world m)).
  unfold getAllAccounts. cbn [fst snd]. apply filter_view_isActive.
Qed.

(** C2.  At most one account is active.  In every manager state that
    satisfies the invariant of the accounts map, and so in every state the
    event loop reaches from a fresh installation, [getAllAccounts] reports
    at most one account as active.  [createAccount] sets the active pointer
    to the new id exactly when the new account is then the only one (it is
    the first account, or its generated id is that of the only account, which
    it replaces) and otherwise leaves the pointer alone.  [deleteAccount] of
    the account that is active when the deletion is carried out moves the
    pointer to the first key that remains in the map, in map order, or to
    [null] when none remains; when accounts remain, exactly one of them is
    active afterwards.  The deletion is carried out unless [fs.rmSync]
    throws on the credential directory of the account: then [deleteAccount]
    throws that error and changes nothing, the pointer included. *)
Theorem at_most_one_active_account :
  forall m : t,
    wf m ->
    (List.length (activeAccounts m) <= 1)%nat
    /\ (forall world,
          (List.length (filter view_isActive (fst (getAllAccounts world m)))
           <= 1)%nat)
    /\ (forall trace world,
          wf (run trace fresh)
          /\ (List.length
                (filter view_isActive
                   (fst (getAllAccounts world (run trace fresh))))
              <= 1)%nat)
    /\ (forall m0 name now random now',
          activeAccountId (snd (createAccount name now random now' m0)) =
          if (maxAccounts <=? JsMap.size (accounts m0))%nat
          then activeAccountId m0
          else if (JsMap.size (accounts m0) =? 0)%nat
               then Some (generateAccountId now random)
          else if JsMap.has (generateAccountId now random) (accounts m0)
                  && (JsMap.size (accounts m0) =? 1)%nat
               then Some (generateAccountId now random)
          else activeAccountId m0)
    /\ (forall accountId,
          activeAccountId m = Some accountId ->
          let m' := deleteAccount_commit accountId m in
          accounts m' = JsMap.delete accountId (accounts m)
          /\ activeAccountId m' = JsMap.first_key (accounts m')
          /\ List.length (activeAccounts m') =
             (if (JsMap.size (accounts m') =? 0)%nat then 0%nat else 1%nat)
          /\ (forall world,
                List.length
                  (filter view_isActive (fst (getAllAccounts world m'))) =
                (if (JsMap.size (accounts m') =? 0)%nat
                 then 0%nat else 1%nat))
          /\ (JsMap.has accountId (accounts m) = true ->
              deleteAccount accountId None m = (Returns tt, m'))
          /\ (forall rmThrows,
                JsMap.has accountId (accounts m) = true ->
                deleteAccount accountId rmThrows m = (Returns tt, m')
                \/ exists message,
                     rmThrows = Some message
                     /\ In accountId (authDirs m)
                     /\ deleteAccount accountId rmThrows m =
                        (Throws (FileSystemError message), m))).
Proof.
  intros m Hwf.
  refine (conj _ (conj _ (conj _ (conj _ _)))).
  - now apply activeAccounts_le_1.
  - intros world. rewrite getAllAccounts_activeAccounts.
    now apply activeAccounts_le_1.
  - intros trace world. split; [apply Inv_reachable|].
    apply getAllAccounts_active_le_1, Inv_reachable.
  - intros m0 name now random now'. rewrite activeAccountId_createAccount.
    destruct (maxAccounts <=? JsMap.size (accounts m0))%nat; auto.
    rewrite size_set.
    destruct (JsMap.has (generateAccountId now random) (accounts m0)) eqn:Hh.
    + apply has_In_keys in Hh. unfold JsMap.size, JsMap.keys in *.
      destruct (accounts m0) as [|kv [|kv' rest]]; simpl in *;
        [tauto | reflexivity | reflexivity].
    + destruct (JsMap.size (accounts m0)) as [|[|n]]; reflexivity.
  - intros accountId Hact m'.
    destruct (deleteAccount_commit_spec accountId m Hwf) as (Hacc & Hheap & Hptr).
    fold m' in Hacc, Hheap, Hptr.
    assert (Js.strict_eq (activeAccountId m) accountId = true) as Heq
      by (rewrite Hact; simpl; apply String.eqb_refl).
    rewrite Heq, <- Hacc in Hptr.
    assert (wf m') as Hwf'.
    { apply (wf_same (set_activeAccountId (activeAccountId m')
                        (set_accounts (JsMap.delete accountId (accounts m)) m)));
        [now rewrite Hheap | now rewrite Hacc | reflexivity |].
      apply wf_set_activeAccountId; [now apply wf_delete|].
      rewrite Hptr, Hacc.
      apply (first_key_truthy _ (wf_delete accountId m Hwf)). }
    assert (List.length (activeAccounts m') =
            (if (JsMap.size (accounts m') =? 0)%nat then 0%nat else 1%nat))
      as Hone.
    { destruct (JsMap.first_key (accounts m')) as [k|] eqn:Hfk.
      - rewrite (activeAccounts_present m' k); auto using first_key_In.
        apply first_key_In in Hfk. unfold JsMap.size, JsMap.keys in *.
        destruct (accounts m'); simpl in *; tauto.
      - unfold activeAccounts. rewrite Hptr.
        unfold account_values, JsMap.first_key, JsMap.keys, JsMap.values in *.
        destruct (accounts m'); simpl in *; [reflexivity|discriminate]. }
    refine (conj Hacc (conj Hptr (conj Hone (conj _ (conj _ _))))).
    + intros world. now rewrite getAllAccounts_activeAccounts.
    + apply deleteAccount_returns.
    + intros rmThrows Hhas. rewrite deleteAccount_is_end by exact Hhas.
      apply deleteAccount_end_cases.
Qed.

Lemma at_most_one_active_account_witness :
  wf two_accounts
  /\ activeAccountId two_accounts = Some idA
  /\ JsMap.has idA (accounts two_accounts) = true
  /\ List.length (activeAccounts two_accounts) = 1%nat
  /\ fst (deleteAccount idA None two_accounts) = Returns tt
  /\ activeAccountId (snd (deleteAccount idA None two_accounts)) = Some idB
  /\ List.length (activeAccounts (snd (deleteAccount idA None two_accounts)))
     = 1%nat.
Proof.
  assert (wf two_accounts) as Hwf by (apply wfb_wf; vm_compute; reflexivity).
  assert (activeAccountId two_accounts = Some idA) as Hact
    by (vm_compute; reflexivity).
  assert (JsMap.has idA (accounts two_accounts) = true) as Hhas
    by (vm_compute; reflexivity).
  pose proof (at_most_one_active_account two_accounts Hwf)
    as (Hle & _ & _ & _ & Hdel).
  specialize (Hdel idA Hact). cbv zeta in Hdel.
  destruct Hdel as (Hacc & Hptr & Hone & _ & Hret & _).
  rewrite (Hret Hhas). cbn [fst snd].
  refine (conj Hwf (conj Hact (conj Hhas (conj _ (conj eq_refl (conj _ _)))))).
  - vm_compute. reflexivity.
  - rewrite Hptr, Hacc. vm_compute. reflexivity.
  - rewrite Hone, Hacc. vm_compute. reflexivity.
Defined.


(** ** Saving and reloading the accounts configuration *)

Lemma set_absent {V} k (v : V) (m : JsMap.t V) :
  JsMap.has k m = false -> JsMap.set k v m = m ++ [(k, v)].
Proof.
  unfold JsMap.has.
  induction m as [|[k' v'] rest IH]; simpl; auto.
  destruct (String.eqb k' k); [discriminate|].
  intros H. now rewrite IH.
Qed.

Lemma loadAccount_values acc m :
  wf m -> JsMap.has (meta_id acc) (accounts m) = false ->
  account_values (loadAccount acc m) =
    account_values m
    ++ [loadedAccount (existsb (String.eqb (meta_id acc)) (authDirs m)) acc]
  /\ JsMap.keys (accounts (loadAccount acc m)) =
     JsMap.keys (accounts m) ++ [meta_id acc]
  /\ activeAccountId (loadAccount acc m) = activeAccountId m
  /\ authDirs (loadAccount acc m) = authDirs m.
Proof.
  intros [_ He _] Habs. unfold loadAccount. cbn [alloc].
  cbn [accounts set_accounts set_heap].
  rewrite set_absent by assumption.
  unfold account_values, JsMap.values, JsMap.keys.
  cbn [accounts set_accounts set_heap].
  rewrite !map_app, !map_map. simpl.
  refine (conj _ (conj eq_refl (conj eq_refl eq_refl))).
  f_equal.
  - apply map_ext_in. intros kv Hin. rewrite Forall_forall in He.
    destruct (He kv Hin) as (Hlt & _). unfold read. cbn [heap].
    now apply app_nth1.
  - f_equal. unfold read. cbn [heap set_accounts set_heap].
    now rewrite app_nth2, Nat.sub_diag by lia.
Qed.

Lemma loadAccounts_values accs m :
  wf m -> Forall (fun a => Js.truthy (meta_id a) = true) accs ->
  NoDup (map meta_id accs) ->
  (forall a, In a accs -> ~ In (meta_id a) (JsMap.keys (accounts m))) ->
  let m' := fold_left (fun s acc => loadAccount acc s) accs m in
  account_values m' =
    account_values m
    ++ map (fun acc =>
              loadedAccount (existsb (String.eqb (meta_id acc)) (authDirs m))
                acc) accs
  /\ JsMap.keys (accounts m') = JsMap.keys (accounts m) ++ map meta_id accs
  /\ activeAccountId m' = activeAccountId m.
Proof.
  revert m. induction accs as [|acc rest IH]; intros m Hwf Ht Hnd Hfresh; simpl.
  - now rewrite !app_nil_r.
  - inversion Ht as [|? ? Hta Htr]; subst.
    inversion Hnd as [|? ? Hnin Hndr]; subst.
    assert (JsMap.has (meta_id acc) (accounts m) = false) as Habs.
    { apply has_false_not_In, Hfresh. now left. }
    destruct (loadAccount_values acc m Hwf Habs) as (Hv & Hk & Ha & Hd).
    destruct (loadAccount_spec acc m Hwf Hta) as (Hwf1 & _).
    destruct (IH (loadAccount acc m) Hwf1 Htr Hndr) as (Hv' & Hk' & Ha').
    { intros a Hin. rewrite Hk, in_app_iff. intros [Hold|[Heq|[]]].
      - apply (Hfresh a); auto. now right.
      - apply Hnin. rewrite Heq. now apply in_map. }
    rewrite Hv', Hk', Ha', Hv, Hk, Hd, <- !app_assoc. auto.
Qed.

Lemma account_values_loadDeletedMessages m :
  account_values (loadDeletedMessages m) = account_values m
  /\ accounts (loadDeletedMessages m) = accounts m
  /\ activeAccountId (loadDeletedMessages m) = activeAccountId m.
Proof.
  unfold loadDeletedMessages. now destruct (deletedMessagesFile m).
Qed.

(** What a restart after a successful [saveAccountsConfig] reconstructs:
    every account as [loadedAccount] makes it from its saved entry, in the
    same order and under the same keys, and the active pointer. *)
Lemma restart_after_save m :
  wf m -> fsWritable m = true ->
  let m' := restart (saveAccountsConfig m) in
  account_values m' =
    map (fun acc =>
           loadedAccount (existsb (String.eqb (Account.id acc)) (authDirs m))
             (meta_of acc))
      (account_values m)
  /\ JsMap.keys (accounts m') = JsMap.keys (accounts m)
  /\ activeAccountId m' = activeAccountId m.
Proof.
  intros Hwf Hw. unfold restart, saveAccountsConfig. rewrite Hw.
  cbn [configFile deletedMessagesFile authDirs fsWritable set_configFile].
  unfold constructor.
  match goal with
  | |- context [loadDeletedMessages ?x] =>
      destruct (account_values_loadDeletedMessages x) as (-> & -> & ->)
  end.
  unfold loadAccountsConfig.
  cbn [configFile cfg_accounts cfg_activeAccountId].
  match goal with
  | |- context [fold_left _ _ ?b] =>
      destruct (loadAccounts_values (map meta_of (account_values m)) b)
        as (Hv & Hk & Ha)
  end.
  - split; simpl; auto using or_null_idem. constructor.
  - rewrite Forall_map. simpl.
    assert (Hids := ids_account_values m Hwf).
    destruct Hwf as [_ He _].
    rewrite Forall_forall in *. intros acc Hacc.
    assert (In (Account.id acc) (JsMap.keys (accounts m))) as Hin.
    { rewrite <- Hids. now apply in_map. }
    apply in_map_iff in Hin as (kv & <- & Hkv).
    now destruct (He kv Hkv) as (_ & _ & ?).
  - rewrite map_map. simpl.
    rewrite ids_account_values by assumption. apply Hwf.
  - simpl. tauto.
  - rewrite Hv, Hk, Ha. cbn [account_values accounts JsMap.values
      JsMap.keys activeAccountId set_activeAccountId authDirs map app].
    rewrite !map_map. cbn [meta_id meta_of].
    refine (conj eq_refl (conj _ _)).
    + change (map (fun x => Account.id x) (account_values m))
        with (map Account.id (account_values m)).
      now apply ids_account_values.
    + apply Hwf.
Qed.


(** ** Chats *)



Lemma getChats_settled now world fetch m chats :
  getChats_begin now world m = Settled chats ->
  getChats now world fetch m = (chats, m).
Proof. unfold getChats. now intros ->. Qed.

(** The cases in which [getChats] answers without asking the client. *)
Lemma getChats_begin_no_account now world m :
  getActiveAccount m = None -> getChats_begin now world m = Settled (Js.Arr []).
Proof. unfold getChats_begin. now intros ->. Qed.

Lemma getChats_begin_no_client now world m account :
  getActiveAccount m = Some account ->
  Account.client (read account m) = None ->
  getChats_begin now world m = Settled (Js.Arr []).
Proof. unfold getChats_begin. now intros -> ->. Qed.

Lemma getChats_begin_not_authenticated now world m account :
  getActiveAccount m = Some account ->
  Account.isReady (read account m) = false ->
  Account.isAuthenticated (read account m) = false ->
  getChats_begin now world m = Settled (Js.Arr []).
Proof.
  unfold getChats_begin. intros -> -> ->.
  now destruct (Account.client (read account m)).
Qed.

Lemma or_empty_truthy {A} (v : Js.value A) :
  Js.is_truthy v = true -> Js.or_empty v = v.
Proof. unfold Js.or_empty. now intros ->. Qed.

Lemma getChats_begin_page_unavailable now world m account client :
  getActiveAccount m = Some account ->
  Account.client (read account m) = Some client ->
  Account.isReady (read account m)
  || Account.isAuthenticated (read account m) = true ->
  pupPage (world client) <> OpenPage \/ hasGetChats (world client) = false ->
  getChats_begin now world m = Settled (Js.or_empty (_chatsCache m)).
Proof.
  unfold getChats_begin. intros -> -> Hauth Hpage.
  destruct (Account.isReady (read account m)),
    (Account.isAuthenticated (read account m)); simpl in *; try discriminate;
    (destruct (Js.is_truthy (_chatsCache m)) eqn:Ht; simpl;
     [destruct (now - _chatsCacheTime m <? _chatsCacheDuration)%Z;
      [now rewrite or_empty_truthy|]|]);
    destruct (pupPage (world client)); auto;
    destruct Hpage as [Hp|Hp]; try congruence; now rewrite Hp.
Qed.

(** C3, amended.  [getChats] never throws: it is a function that answers a
    value in every state, its one call into the client being guarded.  With
    no active account, with an active account that has no client, or with an
    account that is neither ready nor authenticated, it answers the empty
    list and changes nothing.  With a ready or authenticated account whose
    browser page is absent, closed, or fails the [isClosed] check, or whose
    client lacks [getChats], it answers the last cached chat list if there is
    one and the empty list only if there is none, and changes nothing. *)
Theorem getChats_answers_cache_or_empty :
  forall (m : t) (now : Z) (world : World) (fetch : Settlement),
    (exists chats m', getChats now world fetch m = (chats, m'))
    /\ (getActiveAccount m = None ->
        getChats now world fetch m = (Js.Arr [], m))
    /\ (forall account,
          getActiveAccount m = Some account ->
          Account.client (read account m) = None ->
          getChats now world fetch m = (Js.Arr [], m))
    /\ (forall account,
          getActiveAccount m = Some account ->
          Account.isReady (read account m) = false ->
          Account.isAuthenticated (read account m) = false ->
          getChats now world fetch m = (Js.Arr [], m))
    /\ (forall account client,
          getActiveAccount m = Some account ->
          Account.client (read account m) = Some client ->
          Account.isReady (read account m)
          || Account.isAuthenticated (read account m) = true ->
          pupPage (world client) <> OpenPage
          \/ hasGetChats (world client) = false ->
          getChats now world fetch m = (Js.or_empty (_chatsCache m), m)
          /\ (_chatsCache m = Js.Null ->
              getChats now world fetch m = (Js.Arr [], m))).
Proof.
  intros m now world fetch.
  refine (conj _ (conj _ (conj _ (conj _ _)))).
  - destruct (getChats now world fetch m) as [chats m'] eqn:E.
    now exists chats, m'.
  - intros H. now apply getChats_settled, getChats_begin_no_account.
  - intros account H1 H2.
    eapply getChats_settled, getChats_begin_no_client; eauto.
  - intros account H1 H2 H3.
    eapply getChats_settled, getChats_begin_not_authenticated; eauto.
  - intros account client H1 H2 H3 H4.
    assert (getChats now world fetch m = (Js.or_empty (_chatsCache m), m))
      as Hg
      by (eapply getChats_settled, getChats_begin_page_unavailable; eauto).
    split; [exact Hg|]. intros Hnull. now rewrite Hg, Hnull.
Qed.

(** C3 as stated fails: account A is active, authenticated, and its chats
    were fetched once; a minute later its browser page is closed, and
    [getChats] answers the two chats fetched before, not the empty list. *)
Lemma getChats_closed_page_answers_stale_cache :
  getActiveClient a_fetched = Some 0%nat
  /\ pupPage (all_closed 0%nat) = ClosedPage
  /\ fst (getChats 1700000120000 all_closed (Rejected "Target closed")
            a_fetched) = Js.Arr chatsA
  /\ Js.Arr chatsA <> Js.Arr [].
Proof. vm_compute. repeat split; discriminate. Qed.

(** *** Promotion to ready by a fetch *)

Lemma read_modify_same r f m :
  (r < List.length (heap m))%nat -> read r (modify r f m) = f (read r m).
Proof.
  intros H. rewrite read_modify, Nat.eqb_refl.
  now apply Nat.ltb_lt in H as ->.
Qed.

Lemma read_modify_other r' r f m :
  r' <> r -> read r' (modify r f m) = read r' m.
Proof.
  intros H. rewrite read_modify.
  now apply Nat.eqb_neq in H as ->.
Qed.

Lemma length_heap_modify r f m :
  List.length (heap (modify r f m)) = List.length (heap m).
Proof. unfold modify. destruct m; simpl. apply length_update_nth. Qed.




(** *** The cache across a switch of account *)

(** None of the steps of a switch writes the cache or its time stamp. *)
Ltac cache_auto :=
  repeat first
    [ reflexivity
    | progress cbn [fst snd _chatsCache _chatsCacheTime emit modify suspend
                    set_emitted set_heap set_awaiting set_wired
                    set_configFile set_activeAccountId]
    | break_match ].

Lemma saveAccountsConfig_keeps_cache m :
  (_chatsCache (saveAccountsConfig m), _chatsCacheTime (saveAccountsConfig m))
  = (_chatsCache m, _chatsCacheTime m).
Proof. unfold saveAccountsConfig. cache_auto. Qed.

Lemma initializeAccount_connect_keeps_cache account accountId ctorThrows
  switching m :
  let m' :=
    snd (initializeAccount_connect account accountId ctorThrows switching m) in
  (_chatsCache m', _chatsCacheTime m') = (_chatsCache m, _chatsCacheTime m).
Proof. unfold initializeAccount_connect. cache_auto. Qed.

Lemma initializeAccount_begin_keeps_cache accountId ctorThrows switching m :
  let m' := snd (initializeAccount_begin accountId ctorThrows switching m) in
  (_chatsCache m', _chatsCacheTime m') = (_chatsCache m, _chatsCacheTime m).
Proof.
  unfold initializeAccount_begin, initializeAccount_connect. cache_auto.
Qed.

Lemma initializeAccount_end_keeps_cache account s m :
  let m' := snd (initializeAccount_end account s m) in
  (_chatsCache m', _chatsCacheTime m') = (_chatsCache m, _chatsCacheTime m).
Proof. unfold initializeAccount_end. cache_auto. Qed.

Lemma initializeAccount_finish_keeps_cache outcome p :
  let m' := snd (initializeAccount_finish outcome p) in
  (_chatsCache m', _chatsCacheTime m')
  = (_chatsCache (snd p), _chatsCacheTime (snd p)).
Proof.
  destruct p as [[r|[]] m]; cbn [snd initializeAccount_finish];
    try reflexivity.
  apply initializeAccount_end_keeps_cache.
Qed.

Lemma initializeAccount_rest_keeps_cache outcome p :
  let m' := snd (initializeAccount_rest outcome p) in
  (_chatsCache m', _chatsCacheTime m')
  = (_chatsCache (snd p), _chatsCacheTime (snd p)).
Proof.
  unfold initializeAccount_rest. cbv zeta.
  destruct p as [[r|[]] m]; try apply initializeAccount_finish_keeps_cache.
  rewrite initializeAccount_finish_keeps_cache.
  apply initializeAccount_connect_keeps_cache.
Qed.

Lemma switchAccount_begin_keeps_cache accountId ctorThrows m :
  let m' := snd (switchAccount_begin accountId ctorThrows m) in
  (_chatsCache m', _chatsCacheTime m') = (_chatsCache m, _chatsCacheTime m).
Proof.
  unfold switchAccount_begin. cbv zeta.
  destruct (JsMap.get accountId (accounts m)) as [account|]; [|reflexivity].
  match goal with
  | |- context [saveAccountsConfig (set_activeAccountId _ ?m1)] =>
      assert ((_chatsCache m1, _chatsCacheTime m1)
              = (_chatsCache m, _chatsCacheTime m)) as H1
        by (repeat first [ reflexivity | apply saveAccountsConfig_keeps_cache
                         | break_match ]);
      pose proof (saveAccountsConfig_keeps_cache
                    (set_activeAccountId (Some accountId) m1)) as H3;
      cbn [_chatsCache _chatsCacheTime set_activeAccountId] in H3;
      rewrite H1 in H3;
      generalize dependent (saveAccountsConfig
                              (set_activeAccountId (Some accountId) m1))
  end.
  intros m3 H3.
  destruct (needsInitialization (read account m3)); [|exact H3].
  pose proof (initializeAccount_begin_keeps_cache accountId ctorThrows true m3)
    as Hb. cbv zeta in Hb. rewrite H3 in Hb.
  destruct (initializeAccount_begin accountId ctorThrows true m3)
    as [[[u|e]|k] m4]; exact Hb.
Qed.

Lemma switchAccount_end_keeps_cache account accountId r :
  let m' := snd (switchAccount_end account accountId r) in
  (_chatsCache m', _chatsCacheTime m')
  = (_chatsCache (snd r), _chatsCacheTime (snd r)).
Proof. destruct r as [[u|e] m]; reflexivity. Qed.

Lemma switchAccount_keeps_cache accountId outcome m :
  _chatsCache (snd (switchAccount accountId outcome m)) = _chatsCache m
  /\ _chatsCacheTime (snd (switchAccount accountId outcome m))
     = _chatsCacheTime m.
Proof.
  assert (let m' := snd (switchAccount accountId outcome m) in
          (_chatsCache m', _chatsCacheTime m')
          = (_chatsCache m, _chatsCacheTime m)) as H.
  { unfold switchAccount.
    pose proof (switchAccount_begin_keeps_cache accountId
                  (constructorThrows outcome) m) as Hb.
    cbv zeta in *.
    destruct (switchAccount_begin accountId (constructorThrows outcome) m)
      as [[r|k] m1]; cbn [snd] in Hb; [exact Hb|].
    destruct k; try exact Hb;
      rewrite switchAccount_end_keeps_cache,
        initializeAccount_rest_keeps_cache; exact Hb. }
  cbv zeta in H. now inversion H.
Qed.

Lemma getChats_cache_hit now world fetch m account client :
  getActiveAccount m = Some account ->
  Account.client (read account m) = Some client ->
  Account.isReady (read account m)
  || Account.isAuthenticated (read account m) = true ->
  Js.is_truthy (_chatsCache m) = true ->
  (now - _chatsCacheTime m < _chatsCacheDuration)%Z ->
  getChats now world fetch m = (_chatsCache m, m).
Proof.
  intros Hact Hc Hauth Ht Hfresh. apply getChats_settled.
  unfold getChats_begin. rewrite Hact, Hc, Ht.
  apply Z.ltb_lt in Hfresh. rewrite Hfresh.
  destruct (Account.isReady (read account m)),
    (Account.isAuthenticated (read account m)); simpl in *;
    try discriminate; reflexivity.
Qed.

(** C10.  The chats cache is one value of the manager: [switchAccount]
    leaves the cached list and its time stamp as they are, and a [getChats]
    call made less than 3000 ms after the cached fetch answers the cached
    list whichever account is active, provided that account has a client and
    is ready or authenticated.  There is a reachable state in which this
    hands out the wrong account's chats: accounts A and B are both
    authenticated and A is active; A's chats are fetched; the caller
    switches to B; 2999 ms after the fetch [getChats] answers A's chat list,
    although B is active and B's client would have answered another list. *)
Theorem chats_cache_survives_switchAccount :
  (forall accountId outcome m,
      _chatsCache (snd (switchAccount accountId outcome m)) = _chatsCache m
      /\ _chatsCacheTime (snd (switchAccount accountId outcome m))
         = _chatsCacheTime m)
  /\ (forall m now world fetch account client,
        getActiveAccount m = Some account ->
        Account.client (read account m) = Some client ->
        Account.isReady (read account m)
        || Account.isAuthenticated (read account m) = true ->
        Js.is_truthy (_chatsCache m) = true ->
        (now - _chatsCacheTime m < _chatsCacheDuration)%Z ->
        getChats now world fetch m = (_chatsCache m, m))
  /\ _chatsCacheDuration = 3000%Z
  /\ activeAccountId both_authenticated = Some idA
  /\ getChats 1700000060000 world (Resolved (Js.Arr chatsA))
       both_authenticated = (Js.Arr chatsA, a_fetched)
  /\ switchAccount idB InitializeResolves a_fetched = (Returns 1%nat, b_active)
  /\ activeAccountId b_active = Some idB
  /\ getActiveClient b_active = Some 1%nat
  /\ fst (getChats (1700000060000 + 2999) world (Resolved (Js.Arr chatsB))
            b_active) = Js.Arr chatsA
  /\ fst (getChats (1700000060000 + 3000) world (Resolved (Js.Arr chatsB))
            b_active) = Js.Arr chatsB
  /\ chatsA <> chatsB.
Proof.
  refine (conj _ (conj _ _)).
  - intros. apply switchAccount_keeps_cache.
  - intros. eapply getChats_cache_hit; eauto.
  - vm_compute. repeat split; discriminate.
Qed.


(** ** Switching accounts *)

Lemma manager_eta m :
  mk (heap m) (accounts m) (activeAccountId m) (deletedMessages m)
     (_chatsCache m) (_chatsCacheTime m) (configFile m)
     (deletedMessagesFile m) (authDirs m) (fsWritable m) (wired m)
     (timers m) (awaiting m) (emitted m) = m.
Proof. now destruct m. Qed.

Lemma set_activeAccountId_same v m :
  activeAccountId m = v -> set_activeAccountId v m = m.
Proof. intros <-. apply manager_eta. Qed.

Lemma saveAccountsConfig_idem m :
  saveAccountsConfig (saveAccountsConfig m) = saveAccountsConfig m.
Proof.
  unfold saveAccountsConfig. destruct (fsWritable m) eqn:E; cbn; now rewrite E.
Qed.

Lemma saveAccountsConfig_emit e m :
  saveAccountsConfig (emit e m) = emit e (saveAccountsConfig m).
Proof. unfold saveAccountsConfig. cbn. now destruct (fsWritable m). Qed.

Lemma saveAccountsConfig_set_wired w m :
  saveAccountsConfig (set_wired w m) = set_wired w (saveAccountsConfig m).
Proof. unfold saveAccountsConfig. cbn. now destruct (fsWritable m). Qed.

Lemma account_values_modify r f m :
  (forall a, meta_of (f a) = meta_of a) ->
  map meta_of (account_values (modify r f m)) =
  map meta_of (account_values m).
Proof.
  intros Hf. unfold account_values.
  change (accounts (modify r f m)) with (accounts m).
  rewrite !map_map. apply map_ext. intros r'. rewrite read_modify.
  destruct (Nat.eqb_spec r' r) as [->|]; simpl; auto.
  destruct (r <? List.length (heap m))%nat; auto.
Qed.

Lemma saveAccountsConfig_modify r f m :
  (forall a, meta_of (f a) = meta_of a) ->
  saveAccountsConfig (modify r f m) = modify r f (saveAccountsConfig m).
Proof.
  intros Hf. unfold saveAccountsConfig.
  change (fsWritable (modify r f m)) with (fsWritable m).
  destruct (fsWritable m); auto.
  change (activeAccountId (modify r f m)) with (activeAccountId m).
  now rewrite account_values_modify.
Qed.

(** A call of [switchAccount] on the active account, when no initialization
    is needed and the configuration file is up to date, only emits
    [account_switched]. *)
Lemma switchAccount_begin_again accountId account ctorThrows m :
  JsMap.get accountId (accounts m) = Some account ->
  activeAccountId m = Some accountId ->
  needsInitialization (read account m) = false ->
  saveAccountsConfig m = m ->
  switchAccount_begin accountId ctorThrows m =
  (Settled (Returns account), emit (ev_account_switched accountId) m).
Proof.
  intros Hget Hact Hneed Hsave.
  unfold switchAccount_begin. rewrite Hget, Hact.
  cbn [Js.falsy Js.strict_eq]. rewrite String.eqb_refl.
  rewrite Bool.andb_false_r.
  rewrite (set_activeAccountId_same (Some accountId) m Hact), Hsave, Hneed.
  reflexivity.
Qed.

Lemma switchAccount_again accountId account outcome m :
  JsMap.get accountId (accounts m) = Some account ->
  activeAccountId m = Some accountId ->
  needsInitialization (read account m) = false ->
  saveAccountsConfig m = m ->
  switchAccount accountId outcome m =
  (Returns account, emit (ev_account_switched accountId) m).
Proof.
  intros Hget Hact Hneed Hsave. unfold switchAccount.
  now rewrite (switchAccount_begin_again _ _ _ _ Hget Hact Hneed Hsave).
Qed.

Lemma needsInitialization_initializing acc :
  Account.isInitializing acc = true -> needsInitialization acc = false.
Proof.
  unfold needsInitialization. intros ->.
  destruct (Account.client acc), (Account.isReady acc); reflexivity.
Qed.

Lemma needsInitialization_ready acc client :
  Account.client acc = Some client -> Account.isReady acc = true ->
  needsInitialization acc = false.
Proof.
  unfold needsInitialization. intros -> ->.
  destruct (Account.isInitializing acc); reflexivity.
Qed.

Lemma needsInitialization_true acc :
  needsInitialization acc = true -> Account.isInitializing acc = false.
Proof.
  destruct (Account.isInitializing acc) eqn:E; auto.
  now rewrite needsInitialization_initializing.
Qed.

(** What a [switchAccount] call that returns leaves behind. *)
Lemma switchAccount_returns accountId outcome m account m1 :
  wf m ->
  switchAccount accountId outcome m = (Returns account, m1) ->
  JsMap.get accountId (accounts m1) = Some account
  /\ activeAccountId m1 = Some accountId
  /\ needsInitialization (read account m1) = false
  /\ saveAccountsConfig m1 = m1
  /\ (List.length (wired m1) <= S (List.length (wired m)))%nat.
Proof.
  intros Hwf. unfold switchAccount, switchAccount_begin.
  destruct (JsMap.get accountId (accounts m)) as [account'|] eqn:Hget;
    [|discriminate].
  assert (account' < List.length (heap m))%nat as Hlt.
  { apply get_In in Hget. destruct Hwf as [_ He _].
    rewrite Forall_forall in He. now destruct (He _ Hget) as (? & _). }
  match goal with
  | |- context [set_activeAccountId (Some accountId) ?x] =>
      set (pre := x);
      assert (heap pre = heap m /\ accounts pre = accounts m
              /\ wired pre = wired m) as (Hh & Ha & Hw)
        by (subst pre; repeat break_match;
            try (destruct (saveAccountsConfig_keeps m)
                   as (? & ? & _ & ? & _)); auto)
  end.
  set (m3 := saveAccountsConfig (set_activeAccountId (Some accountId) pre)).
  destruct (saveAccountsConfig_keeps
              (set_activeAccountId (Some accountId) pre))
    as (Hh3 & Ha3 & Hp3 & Hw3 & _).
  fold m3 in Hh3, Ha3, Hp3, Hw3. cbn in Hh3, Ha3, Hp3, Hw3.
  assert (saveAccountsConfig m3 = m3) as Hs3
    by (subst m3; apply saveAccountsConfig_idem).
  assert (JsMap.get accountId (accounts m3) = Some account') as Hget3
    by (now rewrite Ha3, Ha).
  destruct (needsInitialization (read account' m3)) eqn:Hneed.
  - unfold initializeAccount_begin. rewrite Hget3.
    rewrite (needsInitialization_true _ Hneed). cbv zeta.
    destruct (Account.client
                (read account'
                   (modify account' (Account.set_isInitializing true) m3)));
      cbn [initializeAccount_rest];
      unfold initializeAccount_connect;
      (destruct (constructorThrows outcome);
       [cbn [initializeAccount_finish switchAccount_end]; discriminate|]);
      cbn [initializeAccount_rest initializeAccount_finish];
      unfold switchAccount_end, initializeAccount_end;
      (destruct (settlement_of outcome); [|discriminate]);
      intros [= <- <-];
      (refine (conj Hget3 (conj Hp3 (conj _ (conj _ _))));
       [ change (read account' (emit ?e ?x)) with (read account' x);
         rewrite read_modify_same;
         [ apply needsInitialization_initializing;
           change (read account' (set_wired ?w ?x)) with (read account' x);
           rewrite read_modify_same by (rewrite Hh3, Hh; exact Hlt);
           reflexivity
         | change (heap (set_wired ?w ?x)) with (heap x);
           rewrite length_heap_modify, Hh3, Hh; exact Hlt ]
       | rewrite saveAccountsConfig_emit, saveAccountsConfig_modify,
           saveAccountsConfig_set_wired, saveAccountsConfig_modify, Hs3
           by (intros a; reflexivity);
         reflexivity
       | cbn [wired emit set_emitted modify set_heap set_wired];
         rewrite length_app, Hw3, Hw; simpl; lia ]).
  - intros [= <- <-].
    refine (conj Hget3 (conj Hp3 (conj Hneed (conj _ _)))).
    + now rewrite saveAccountsConfig_emit, Hs3.
    + cbn [wired emit set_emitted]. rewrite Hw3, Hw. lia.
Qed.

(** A [switchAccount] call that is suspended leaves the account active and
    initializing, and the configuration file up to date. *)
Lemma switchAccount_begin_pending accountId ctorThrows m k m2 :
  wf m ->
  switchAccount_begin accountId ctorThrows m = (Pending k, m2) ->
  exists account,
    JsMap.get accountId (accounts m2) = Some account
    /\ activeAccountId m2 = Some accountId
    /\ Account.isInitializing (read account m2) = true
    /\ saveAccountsConfig m2 = m2.
Proof.
  intros Hwf. unfold switchAccount_begin.
  destruct (JsMap.get accountId (accounts m)) as [account'|] eqn:Hget;
    [|discriminate].
  assert (account' < List.length (heap m))%nat as Hlt.
  { apply get_In in Hget. destruct Hwf as [_ He _].
    rewrite Forall_forall in He. now destruct (He _ Hget) as (? & _). }
  match goal with
  | |- context [set_activeAccountId (Some accountId) ?x] =>
      set (pre := x);
      assert (heap pre = heap m /\ accounts pre = accounts m) as (Hh & Ha)
        by (subst pre; repeat break_match;
            try (destruct (saveAccountsConfig_keeps m) as (? & ? & _)); auto)
  end.
  set (m3 := saveAccountsConfig (set_activeAccountId (Some accountId) pre)).
  destruct (saveAccountsConfig_keeps
              (set_activeAccountId (Some accountId) pre))
    as (Hh3 & Ha3 & Hp3 & _).
  fold m3 in Hh3, Ha3, Hp3. cbn in Hh3, Ha3, Hp3.
  assert (saveAccountsConfig m3 = m3) as Hs3
    by (subst m3; apply saveAccountsConfig_idem).
  assert (JsMap.get accountId (accounts m3) = Some account') as Hget3
    by (now rewrite Ha3, Ha).
  destruct (needsInitialization (read account' m3)) eqn:Hneed; [|discriminate].
  unfold initializeAccount_begin. rewrite Hget3.
  rewrite (needsInitialization_true _ Hneed). cbv zeta.
  destruct (Account.client
              (read account'
                 (modify account' (Account.set_isInitializing true) m3))).
  - intros [= <- <-]. exists account'.
    refine (conj Hget3 (conj Hp3 (conj _ _))).
    + rewrite read_modify_same by (rewrite Hh3, Hh; exact Hlt). reflexivity.
    + rewrite saveAccountsConfig_modify, Hs3 by (intros a; reflexivity).
      reflexivity.
  - unfold initializeAccount_connect.
    destruct ctorThrows; [discriminate|].
    intros [= <- <-]. exists account'.
    refine (conj Hget3 (conj Hp3 (conj _ _))).
    + rewrite read_modify_same.
      * change (read account' (set_wired ?w ?x)) with (read account' x).
        rewrite read_modify_same by (rewrite Hh3, Hh; exact Hlt).
        reflexivity.
      * change (heap (set_wired ?w ?x)) with (heap x).
        rewrite length_heap_modify, Hh3, Hh. exact Hlt.
    + rewrite saveAccountsConfig_modify, saveAccountsConfig_set_wired,
        saveAccountsConfig_modify, Hs3 by (intros a; reflexivity).
      reflexivity.
Qed.

(** What [switchAccount] does on an account that is initializing. *)
Lemma switchAccount_begin_initializing id ctorThrows m0 acc :
  JsMap.get id (accounts m0) = Some acc ->
  Account.isInitializing (read acc m0) = true ->
  wired (snd (switchAccount_begin id ctorThrows m0)) = wired m0
  /\ heap (snd (switchAccount_begin id ctorThrows m0)) = heap m0
  /\ fst (switchAccount_begin id ctorThrows m0) = Settled (Returns acc).
Proof.
  intros Hg Hinit. unfold switchAccount_begin. rewrite Hg.
  match goal with
  | |- context [set_activeAccountId (Some id) ?x] =>
      set (pre := x);
      assert (heap pre = heap m0 /\ wired pre = wired m0) as (Hh & Hw)
        by (subst pre; repeat break_match;
            try (destruct (saveAccountsConfig_keeps m0)
                   as (? & _ & _ & ? & _)); auto)
  end.
  destruct (saveAccountsConfig_keeps (set_activeAccountId (Some id) pre))
    as (Hh3 & _ & _ & Hw3 & _).
  cbn in Hh3, Hw3.
  assert (read acc (saveAccountsConfig (set_activeAccountId (Some id) pre))
          = read acc m0) as Hread
    by (unfold read; now rewrite Hh3, Hh).
  rewrite Hread, (needsInitialization_initializing _ Hinit).
  cbn [fst snd wired heap emit set_emitted].
  rewrite Hh3, Hw3, Hh, Hw. auto.
Qed.

(** [switchAccount] up to its test for an initialization. *)
Lemma switchAccount_begin_unfold accountId ctorThrows m account :
  JsMap.get accountId (accounts m) = Some account ->
  exists m3,
    heap m3 = heap m /\ accounts m3 = accounts m /\ wired m3 = wired m
    /\ awaiting m3 = awaiting m /\ emitted m3 = emitted m
    /\ activeAccountId m3 = Some accountId
    /\ switchAccount_begin accountId ctorThrows m =
       if needsInitialization (read account m3)
       then
         match initializeAccount_begin accountId ctorThrows true m3 with
         | (Settled (Throws e), m4) => (Settled (Throws e), m4)
         | (Settled (Returns _), m4) =>
             (Settled (Returns account),
              emit (ev_account_switched accountId) m4)
         | (Pending k, m4) => (Pending k, m4)
         end
       else
         (Settled (Returns account), emit (ev_account_switched accountId) m3).
Proof.
  intros Hget. unfold switchAccount_begin. rewrite Hget. cbv zeta.
  match goal with
  | |- context [set_activeAccountId (Some accountId) ?x] =>
      set (pre := x);
      assert (heap pre = heap m /\ accounts pre = accounts m
              /\ wired pre = wired m /\ awaiting pre = awaiting m
              /\ emitted pre = emitted m) as (Hh & Ha & Hw & Haw & He)
        by (subst pre; repeat break_match;
            try (destruct (saveAccountsConfig_keeps m)
                   as (? & ? & _ & ? & ? & _ & ? & _)); auto)
  end.
  exists (saveAccountsConfig (set_activeAccountId (Some accountId) pre)).
  destruct (saveAccountsConfig_keeps
              (set_activeAccountId (Some accountId) pre))
    as (Hh3 & Ha3 & Hp3 & Hw3 & He3 & _ & Haw3 & _).
  cbn in Hh3, Ha3, Hp3, Hw3, He3, Haw3.
  rewrite Hh3, Ha3, Hp3, Hw3, He3, Haw3. auto 8.
Qed.

(** In the event loop, a [switchAccount] call on an account that needs no
    initialization makes no client and suspends nothing. *)
Lemma step_switchAccount_settled world accountId ctorThrows m account :
  JsMap.get accountId (accounts m) = Some account ->
  needsInitialization (read account m) = false ->
  let m2 := step world (CallSwitchAccount accountId ctorThrows) m in
  wired m2 = wired m /\ heap m2 = heap m /\ awaiting m2 = awaiting m
  /\ emitted m2 = emitted m ++ [ev_account_switched accountId].
Proof.
  intros Hget Hneed. cbn [step].
  destruct (switchAccount_begin_unfold accountId ctorThrows m account Hget)
    as (m3 & Hh & Ha & Hw & Haw & He & Hp & ->).
  assert (read account m3 = read account m) as ->
    by (unfold read; now rewrite Hh).
  rewrite Hneed. cbn [start wired heap awaiting emitted emit set_emitted].
  now rewrite Hw, Hh, Haw, He.
Qed.

(** After a [switchAccount] call whose [new Client], if it came to it, did
    not throw, the account needs no initialization. *)
Lemma step_switchAccount_started world accountId m account :
  wf m ->
  JsMap.get accountId (accounts m) = Some account ->
  let m1 := step world (CallSwitchAccount accountId None) m in
  JsMap.get accountId (accounts m1) = Some account
  /\ needsInitialization (read account m1) = false.
Proof.
  intros Hwf Hget. cbn [step].
  assert (account < List.length (heap m))%nat as Hlt.
  { apply get_In in Hget. destruct Hwf as [_ He _].
    rewrite Forall_forall in He. now destruct (He _ Hget) as (? & _). }
  destruct (switchAccount_begin_unfold accountId None m account Hget)
    as (m3 & Hh & Ha & Hw & Haw & He & Hp & ->).
  destruct (needsInitialization (read account m3)) eqn:Hneed.
  - unfold initializeAccount_begin. rewrite Ha, Hget.
    rewrite (needsInitialization_true _ Hneed). cbv zeta.
    destruct (Account.client
                (read account
                   (modify account (Account.set_isInitializing true) m3)));
      cbn [initializeAccount_connect start].
    + split; [cbn; now rewrite Ha|].
      change (read account (suspend ?k ?x)) with (read account x).
      rewrite read_modify_same by (rewrite Hh; exact Hlt).
      now apply needsInitialization_initializing.
    + split; [cbn; now rewrite Ha|].
      change (read account (suspend ?k ?x)) with (read account x).
      rewrite read_modify_same.
      * apply needsInitialization_initializing.
        change (read account (set_wired ?w ?x)) with (read account x).
        rewrite read_modify_same by (rewrite Hh; exact Hlt). reflexivity.
      * change (heap (set_wired ?w ?x)) with (heap x).
        rewrite length_heap_modify, Hh. exact Hlt.
  - cbn [start accounts emit set_emitted]. split; [now rewrite Ha|].
    exact Hneed.
Qed.

(** C7, amended.  A [switchAccount] call starts an initialization, and so
    makes a client, only when at the time of the call the account is not
    initializing and either has no client or is not ready; on any other
    account of the map it returns the account and does nothing but set the
    pointer, save and emit [account_switched].  So of two [switchAccount]
    calls with the same id between which the event loop handles nothing,
    the second makes no client and starts no initialization, whether the
    first call has returned or is still suspended in the initialization it
    started, provided [new Client] did not throw in the first:
    [initializeAccount] sets [isInitializing] before its first [await] and
    returns at once, changing nothing, while the account is
    initializing. *)
Theorem switchAccount_again_initializes_nothing :
  forall (m : t) (accountId : string) (outcome outcome' : InitOutcome)
         (account : ref) (m1 : t),
    wf m ->
    switchAccount accountId outcome m = (Returns account, m1) ->
    switchAccount accountId outcome' m1 =
      (Returns account, emit (ev_account_switched accountId) m1)
    /\ wired (snd (switchAccount accountId outcome' m1)) = wired m1
    /\ heap (snd (switchAccount accountId outcome' m1)) = heap m1
    /\ (List.length (wired m1) <= S (List.length (wired m)))%nat
    /\ (forall ctorThrows ctorThrows' k m2,
          switchAccount_begin accountId ctorThrows m = (Pending k, m2) ->
          exists acc,
            switchAccount_begin accountId ctorThrows' m2 =
              (Settled (Returns acc), emit (ev_account_switched accountId) m2))
    /\ (forall m0 id ctorThrows switching acc,
          JsMap.get id (accounts m0) = Some acc ->
          Account.isInitializing (read acc m0) = true ->
          initializeAccount_begin id ctorThrows switching m0 =
            (Settled (Returns tt), m0)
          /\ wired (snd (switchAccount_begin id ctorThrows m0)) = wired m0
          /\ heap (snd (switchAccount_begin id ctorThrows m0)) = heap m0
          /\ fst (switchAccount_begin id ctorThrows m0) =
             Settled (Returns acc))
    /\ (forall acc,
          needsInitialization acc =
          negb (Account.isInitializing acc)
          && (match Account.client acc with
              | None => true
              | Some _ => negb (Account.isReady acc)
              end))
    /\ (forall world ctorThrows m0 acc,
          JsMap.get accountId (accounts m0) = Some acc ->
          needsInitialization (read acc m0) = false ->
          let m2 := step world (CallSwitchAccount accountId ctorThrows) m0 in
          wired m2 = wired m0 /\ heap m2 = heap m0
          /\ awaiting m2 = awaiting m0
          /\ emitted m2 = emitted m0 ++ [ev_account_switched accountId])
    /\ (forall world world' ctorThrows' acc,
          JsMap.get accountId (accounts m) = Some acc ->
          let s1 := step world (CallSwitchAccount accountId None) m in
          let s2 := step world' (CallSwitchAccount accountId ctorThrows') s1 in
          wired s2 = wired s1 /\ heap s2 = heap s1
          /\ awaiting s2 = awaiting s1
          /\ emitted s2 = emitted s1 ++ [ev_account_switched accountId]).
Proof.
  intros m accountId outcome outcome' account m1 Hwf Hfirst.
  destruct (switchAccount_returns _ _ _ _ _ Hwf Hfirst)
    as (Hget & Hact & Hneed & Hsave & Hwired).
  pose proof (switchAccount_again accountId account outcome' m1
                Hget Hact Hneed Hsave) as Hagain.
  refine (conj Hagain (conj _ (conj _ (conj Hwired (conj _ (conj _
            (conj _ (conj _ _)))))))).
  - now rewrite Hagain.
  - now rewrite Hagain.
  - intros ctorThrows ctorThrows' k m2 Hpending.
    destruct (switchAccount_begin_pending _ _ _ _ _ Hwf Hpending)
      as (acc & Hg & Ha & Hinit & Hs).
    exists acc.
    apply switchAccount_begin_again; auto.
    now apply needsInitialization_initializing.
  - intros m0 id ctorThrows switching acc Hg Hinit.
    split; [|now apply switchAccount_begin_initializing].
    unfold initializeAccount_begin. now rewrite Hg, Hinit.
  - intros acc. unfold needsInitialization.
    destruct (Account.client acc), (Account.isInitializing acc),
      (Account.isReady acc); reflexivity.
  - intros world ctorThrows m0 acc.
    apply step_switchAccount_settled.
  - intros world world' ctorThrows' acc Hgetm.
    destruct (step_switchAccount_started world accountId m acc Hwf Hgetm)
      as [Hg Hn].
    now apply step_switchAccount_settled with (account := acc).
Qed.

Lemma switchAccount_again_initializes_nothing_witness :
  wf two_accounts
  /\ fst (switchAccount idB InitializeResolves two_accounts) = Returns 1%nat
  /\ fst (switchAccount idB InitializeResolves
            (snd (switchAccount idB InitializeResolves two_accounts)))
     = Returns 1%nat
  /\ wired (snd (switchAccount idB InitializeResolves
                   (snd (switchAccount idB InitializeResolves two_accounts))))
     = [(1%nat, idB)].
Proof.
  assert (wf two_accounts) as Hwf by (apply wfb_wf; vm_compute; reflexivity).
  destruct (switchAccount idB InitializeResolves two_accounts)
    as [r1 m1] eqn:Hfirst.
  assert (r1 = Returns 1%nat) as ->.
  { change r1 with (fst (r1, m1)). rewrite <- Hfirst.
    vm_compute. reflexivity. }
  pose proof (switchAccount_again_initializes_nothing two_accounts idB
                InitializeResolves InitializeResolves 1%nat m1 Hwf Hfirst)
    as (Hagain & Hwired & _).
  cbn [fst snd].
  refine (conj Hwf (conj eq_refl (conj _ _))).
  - now rewrite Hagain.
  - rewrite Hwired. change m1 with (snd (Returns 1%nat, m1)).
    rewrite <- Hfirst. vm_compute. reflexivity.
Defined.

(** C7 as stated fails: the caller switches to account B and the browser
    fails to start, so that the call throws; the caller switches to B again
    and a second client is made for B.  It also fails while the first call
    is still waiting: the client made for B reports an authentication
    failure, which clears [isInitializing]; the caller switches to B again,
    and once the first client is torn down a second one is made, with the
    first call still suspended at [client.initialize()]. *)
Lemma switchAccount_twice_makes_two_clients :
  fst (switchAccount idB
         (InitializeRejects "Protocol error (Target.setAutoAttach): Target closed")
         two_accounts)
  = Throws (InitializationFailed
              "Protocol error (Target.setAutoAttach): Target closed")
  /\ wired two_accounts = []
  /\ wired failed_switch = [(1%nat, idB)]
  /\ Account.client (read 1 failed_switch) = Some 0%nat
  /\ Account.isInitializing (read 1 failed_switch) = false
  /\ fst (switchAccount idB InitializeResolves failed_switch)
     = Returns 1%nat
  /\ wired (snd (switchAccount idB InitializeResolves failed_switch))
     = [(1%nat, idB); (1%nat, idB)]
  /\ Account.client
       (read 1 (snd (switchAccount idB InitializeResolves failed_switch)))
     = Some 1%nat
  /\ wired (run (firstn 1 auth_failure_between) two_accounts)
     = [(1%nat, idB)]
  /\ awaiting (run (firstn 2 auth_failure_between) two_accounts)
     = [AfterInitialize 1 idB true]
  /\ Account.isInitializing
       (read 1 (run (firstn 2 auth_failure_between) two_accounts)) = false
  /\ wired (run auth_failure_between two_accounts)
     = [(1%nat, idB); (1%nat, idB)]
  /\ awaiting (run auth_failure_between two_accounts)
     = [AfterInitialize 1 idB true; AfterInitialize 1 idB true].
Proof. vm_compute. repeat split. Qed.


(** ** Readiness *)

(** The code breaks C4: in one initialization of account A the manager
    emits [ready] twice.  The client's ready event starts the ten-second
    wait of the ready handler; a message that arrives meanwhile promotes the
    account and emits [ready]; when the wait ends the handler emits [ready]
    again: the rest of the ready handler emits [ready] whatever [isReady]
    is. *)
Lemma ready_emitted_twice_in_one_initialization :
  (forall account accountId m,
      emitted (on_ready_settled account accountId m) =
      emitted m ++ [ev_ready accountId])
  /\ wired ready_then_message = [(0%nat, idA)]
  /\ readyEvents idA ready_then_message = 2%nat
  /\ emitted ready_then_message =
     [ ev_account_created idA "A"; ev_account_created idB "B";
       ev_authenticated idA; ev_ready idA; ev_message idA hello;
       ev_ready idA ].
Proof.
  split; [intros account accountId m; reflexivity|].
  vm_compute. repeat split.
Qed.

Lemma retryLater_timers accountId retryCount m :
  retryLater accountId retryCount m = m
  \/ ((retryCount < maxRetries)%nat
      /\ retryLater accountId retryCount m =
         setTimeout (CheckAndSetReady accountId (retryCount + 1)) 5000 m).
Proof.
  unfold retryLater. destruct (Nat.ltb_spec retryCount maxRetries); auto.
Qed.

(** A call of [checkAndSetReady] schedules at most one timer: itself, with
    the next retry count, after 5000 ms, and only below [maxRetries]. *)
Lemma checkAndSetReady_timers accountId retryCount world probe m :
  timers (checkAndSetReady accountId retryCount world probe m) = timers m
  \/ ((retryCount < maxRetries)%nat
      /\ timers (checkAndSetReady accountId retryCount world probe m) =
         timers m
         ++ [{| callback := CheckAndSetReady accountId (retryCount + 1);
                delay := 5000 |}]).
Proof.
  assert (forall x, timers (retryLater accountId retryCount x) = timers x
                    \/ ((retryCount < maxRetries)%nat
                        /\ timers (retryLater accountId retryCount x) =
                           timers x
                           ++ [{| callback :=
                                    CheckAndSetReady accountId (retryCount + 1);
                                  delay := 5000 |}])) as Hretry.
  { intros x. destruct (retryLater_timers accountId retryCount x)
      as [->|(Hlt & ->)]; auto. }
  unfold checkAndSetReady, checkAndSetReady_begin, checkAndSetReady_end.
  repeat (break_match; cbn [fst snd] in * );
    repeat match goal with
           | H : (_, _) = (_, _) |- _ => inversion H; subst; clear H
           end;
    try discriminate; auto;
    left; unfold recordPhone;
    repeat match goal with
           | |- context [saveAccountsConfig ?x] =>
               let H := fresh in
               destruct (saveAccountsConfig_keeps x)
                 as (_ & _ & _ & _ & _ & H & _);
               cbn [timers emit set_emitted modify set_heap] in *;
               rewrite H
           end;
    reflexivity.
Qed.

(** A probe that does not answer an array promotes nothing: the call leaves
    the manager as it is, apart from the timer it may schedule. *)
Lemma checkAndSetReady_failed accountId retryCount world probe m :
  probeFailed probe = true ->
  checkAndSetReady accountId retryCount world probe m = m
  \/ checkAndSetReady accountId retryCount world probe m =
     retryLater accountId retryCount m.
Proof.
  intros Hfail.
  destruct probe as [[|l|]|msg]; simpl in Hfail; try discriminate;
  unfold checkAndSetReady, checkAndSetReady_begin, checkAndSetReady_end;
  cbn [Js.is_truthy Js.isArray andb];
  repeat (break_match; cbn [fst snd] in * );
    repeat match goal with
           | H : (_, _) = (_, _) |- _ => inversion H; subst; clear H
           end;
    try discriminate; auto.
Qed.

Lemma checkAndSetReady_failed_retries accountId retryCount world probe m
  account :
  probeFailed probe = true ->
  JsMap.get accountId (accounts m) = Some account ->
  Account.isReady (read account m) = false ->
  checkAndSetReady accountId retryCount world probe m =
  retryLater accountId retryCount m.
Proof.
  intros Hfail Hget Hready.
  destruct probe as [[|l|]|msg]; simpl in Hfail; try discriminate;
  unfold checkAndSetReady, checkAndSetReady_begin, checkAndSetReady_end;
  rewrite Hget, Hready; cbn [Js.is_truthy Js.isArray andb];
  repeat (break_match; cbn [fst snd] in * );
    repeat match goal with
           | H : (_, _) = (_, _) |- _ => inversion H; subst; clear H
           end;
    try discriminate; auto.
Qed.

Lemma set_timers_same m : set_timers (timers m) m = m.
Proof. apply manager_eta. Qed.

Lemma firstn_length_app {A} (l l' : list A) :
  firstn (List.length l) (l ++ l') = l.
Proof.
  rewrite firstn_app, Nat.sub_diag, firstn_all. simpl. apply app_nil_r.
Qed.

Lemma nth_error_length_app {A} (l : list A) x :
  nth_error (l ++ [x]) (List.length l) = Some x.
Proof. rewrite nth_error_app2, Nat.sub_diag; auto. Qed.

(** The chain of calls ends: from retry count [n] it makes at most
    [61 - n] calls. *)
Lemma readinessMonitor_bounded env accountId :
  forall fuel n m,
    (n <= maxRetries)%nat -> (S maxRetries - n <= fuel)%nat ->
    exists calls m',
      readinessMonitor fuel env accountId n m = Some (calls, m')
      /\ (1 <= calls <= S maxRetries - n)%nat.
Proof.
  induction fuel as [|fuel IH]; intros n m Hn Hfuel; [lia|].
  cbn [readinessMonitor].
  destruct (checkAndSetReady_timers accountId n (fst (env n)) (snd (env n)) m)
    as [Hsame|(Hlt & Hadd)].
  - rewrite Hsame.
    assert (nth_error (timers m) (List.length (timers m)) = None) as ->
      by (apply nth_error_None; lia).
    exists 1%nat. eexists. split; [reflexivity|lia].
  - rewrite Hadd, nth_error_length_app, firstn_length_app.
    destruct (IH (n + 1)%nat
                (set_timers (timers m)
                   (checkAndSetReady accountId n (fst (env n)) (snd (env n)) m)))
      as (calls & m' & Hrun & Hcalls); [lia | lia |].
    rewrite Hrun. exists (S calls), m'. split; [reflexivity|lia].
Qed.

(** When no probe answers an array and the account stays unready, the chain
    runs to its end, 61 calls from retry count 0, and leaves the manager
    exactly as it found it. *)
Lemma readinessMonitor_exhausted env accountId account :
  (forall k, probeFailed (snd (env k)) = true) ->
  forall fuel n m,
    JsMap.get accountId (accounts m) = Some account ->
    Account.isReady (read account m) = false ->
    (n <= maxRetries)%nat -> (S maxRetries - n <= fuel)%nat ->
    readinessMonitor fuel env accountId n m = Some (S maxRetries - n, m)%nat.
Proof.
  intros Hfail.
  induction fuel as [|fuel IH]; intros n m Hget Hready Hn Hfuel; [lia|].
  cbn [readinessMonitor].
  rewrite (checkAndSetReady_failed_retries accountId n (fst (env n))
             (snd (env n)) m account (Hfail n) Hget Hready).
  unfold retryLater. destruct (Nat.ltb_spec n maxRetries) as [Hlt|Hge].
  - cbn [timers setTimeout set_timers].
    rewrite nth_error_length_app, firstn_length_app.
    change (set_timers (timers m) (setTimeout ?cb ?ms m))
      with (set_timers (timers m) m).
    rewrite set_timers_same, (IH (n + 1)%nat m Hget Hready) by lia.
    do 2 f_equal. lia.
  - assert (nth_error (timers m) (List.length (timers m)) = None) as ->
      by (apply nth_error_None; lia).
    do 2 f_equal. lia.
Qed.

(** *** The readiness check of the single-session client *)

Lemma verifyStores_end_failed attempts probe s :
  probeFailed probe = true ->
  WhatsAppClient.verifyStores_end attempts probe s =
  if (attempts <? WhatsAppClient.maxAttempts)%nat
  then (WhatsAppClient.Again WhatsAppClient.checkInterval, s)
  else (WhatsAppClient.Stop, WhatsAppClient.setReady s).
Proof.
  intros Hfail. unfold WhatsAppClient.verifyStores_end.
  destruct probe as [[|l|]|msg]; simpl in Hfail; try discriminate; simpl;
    repeat break_match; reflexivity.
Qed.

Lemma verifyStores_end_next attempts probe s :
  WhatsAppClient.verifyStores_end attempts probe s
  = (WhatsAppClient.Stop, WhatsAppClient.setReady s)
  \/ ((attempts < WhatsAppClient.maxAttempts)%nat
      /\ WhatsAppClient.verifyStores_end attempts probe s
         = (WhatsAppClient.Again WhatsAppClient.checkInterval, s)).
Proof.
  unfold WhatsAppClient.verifyStores_end.
  destruct (Nat.ltb_spec attempts WhatsAppClient.maxAttempts);
    repeat break_match; auto.
Qed.

Lemma verifyStores_bounded env :
  forall fuel attempts s,
    (WhatsAppClient.maxAttempts - attempts <= fuel)%nat ->
    (1 <= fuel)%nat ->
    exists probes s',
      WhatsAppClient.verifyStores fuel env attempts s = Some (probes, s')
      /\ (probes <= Nat.max 1 (WhatsAppClient.maxAttempts - attempts))%nat.
Proof.
  induction fuel as [|fuel IH]; intros attempts s Hfuel Hpos; [lia|].
  cbn [WhatsAppClient.verifyStores].
  destruct (WhatsAppClient.verifyStores_begin attempts s) as [attempts'|] eqn:Hb.
  - assert (attempts' = attempts + 1)%nat as ->.
    { unfold WhatsAppClient.verifyStores_begin in Hb.
      destruct (WhatsAppClient.isReady s); [discriminate|].
      destruct (WhatsAppClient.client s); [|discriminate].
      destruct (negb (WhatsAppClient.isAuthenticated s)); [discriminate|].
      now inversion Hb. }
    destruct (verifyStores_end_next (attempts + 1) (env (attempts + 1)%nat) s)
      as [->|(Hlt & ->)].
    + exists 1%nat. eexists. split; [reflexivity|lia].
    + destruct (IH (attempts + 1)%nat s) as (probes & s' & Hrun & Hle);
        [lia | lia |].
      rewrite Hrun. exists (S probes), s'. split; [reflexivity|lia].
  - exists 0%nat, s. split; [reflexivity|lia].
Qed.

Lemma verifyStores_exhausted env :
  (forall k, probeFailed (env k) = true) ->
  forall fuel attempts s c,
    WhatsAppClient.client s = Some c ->
    WhatsAppClient.isAuthenticated s = true ->
    WhatsAppClient.isReady s = false ->
    (attempts < WhatsAppClient.maxAttempts)%nat ->
    (WhatsAppClient.maxAttempts - attempts <= fuel)%nat ->
    WhatsAppClient.verifyStores fuel env attempts s =
    Some (WhatsAppClient.maxAttempts - attempts, WhatsAppClient.setReady s)%nat.
Proof.
  intros Hfail.
  induction fuel as [|fuel IH]; intros attempts s c Hc Ha Hr Hlt Hfuel; [lia|].
  cbn [WhatsAppClient.verifyStores].
  unfold WhatsAppClient.verifyStores_begin. rewrite Hr, Hc, Ha.
  cbn [negb]. rewrite verifyStores_end_failed by apply Hfail.
  destruct (Nat.ltb_spec (attempts + 1) WhatsAppClient.maxAttempts) as [Hl|Hg].
  - rewrite (IH (attempts + 1)%nat s c) by (auto; lia).
    do 2 f_equal. lia.
  - do 2 f_equal. lia.
Qed.

(** C5, amended.  The readiness monitor of the manager, [checkAndSetReady],
    reschedules itself only through a timer of 5000 ms that carries the next
    retry count, and only while the retry count is below [maxRetries] = 60:
    started at retry count 0 it makes at most 61 calls (60 retries).  When
    no probe answers an array and the account stays unready it makes all 61
    calls and then stops, leaving the manager exactly as it was: the
    account is not promoted and no [ready] event is emitted.  The readiness
    check of the single-session client, [startReadinessCheck], probes at
    most [maxAttempts] = 10 times at an interval of 5000 ms, and it is this
    check that, after 10 probes without success, sets [isReady] and emits
    [ready] all the same. *)
Theorem readiness_monitor_is_bounded :
  maxRetries = 60%nat
  /\ WhatsAppClient.maxAttempts = 10%nat
  /\ WhatsAppClient.checkInterval = 5000%Z
  /\ (forall accountId retryCount world probe m,
        timers (checkAndSetReady accountId retryCount world probe m)
        = timers m
        \/ ((retryCount < maxRetries)%nat
            /\ timers (checkAndSetReady accountId retryCount world probe m) =
               timers m
               ++ [{| callback := CheckAndSetReady accountId (retryCount + 1);
                      delay := 5000 |}]))
  /\ (forall env accountId m,
        exists calls m',
          readinessMonitor 61 env accountId 0 m = Some (calls, m')
          /\ (1 <= calls <= 61)%nat)
  /\ (forall env accountId account m,
        (forall k, probeFailed (snd (env k)) = true) ->
        JsMap.get accountId (accounts m) = Some account ->
        Account.isReady (read account m) = false ->
        readinessMonitor 61 env accountId 0 m = Some (61%nat, m))
  /\ (forall env s,
        exists probes s',
          WhatsAppClient.startReadinessCheck 10 env s = Some (probes, s')
          /\ (probes <= 10)%nat)
  /\ (forall env s c,
        (forall k, probeFailed (env k) = true) ->
        WhatsAppClient.client s = Some c ->
        WhatsAppClient.isAuthenticated s = true ->
        WhatsAppClient.isReady s = false ->
        WhatsAppClient.startReadinessCheck 10 env s =
        Some (10%nat, WhatsAppClient.setReady s)
        /\ WhatsAppClient.isReady (WhatsAppClient.setReady s) = true
        /\ WhatsAppClient.emitted (WhatsAppClient.setReady s) =
           WhatsAppClient.emitted s ++ [WhatsAppClient.ev_ready]).
Proof.
  refine (conj eq_refl (conj eq_refl (conj eq_refl
            (conj _ (conj _ (conj _ (conj _ _))))))).
  - intros. apply checkAndSetReady_timers.
  - intros env accountId m.
    destruct (readinessMonitor_bounded env accountId 61 0 m)
      as (calls & m' & Hrun & Hcalls);
      [unfold maxRetries; lia | unfold maxRetries; lia |].
    exists calls, m'. split; [exact Hrun|]. unfold maxRetries in Hcalls. lia.
  - intros env accountId account m Hfail Hget Hready.
    apply (readinessMonitor_exhausted env accountId account Hfail 61 0 m);
      auto; unfold maxRetries; lia.
  - intros env s. unfold WhatsAppClient.startReadinessCheck.
    destruct (verifyStores_bounded env 10 0 s) as (probes & s' & Hrun & Hle);
      [unfold WhatsAppClient.maxAttempts; lia | lia |].
    exists probes, s'. split; [exact Hrun|].
    unfold WhatsAppClient.maxAttempts in Hle. lia.
  - intros env s c Hfail Hc Ha Hr.
    refine (conj _ (conj eq_refl eq_refl)).
    apply (verifyStores_exhausted env Hfail 10 0 s c); auto;
      unfold WhatsAppClient.maxAttempts; lia.
Qed.

(** C5 as stated fails on the manager: accounts A and B have authenticated
    and every probe finds the stores of the client still loading.  The
    monitor of account A makes 61 calls, not 60, and then gives up: the
    account is still not ready and no [ready] event has been emitted. *)
Lemma checkAndSetReady_gives_up_without_promoting :
  readinessMonitor 100 stores_loading idA 0 both_authenticated
  = Some (61%nat, both_authenticated)
  /\ Account.isReady (read 0 both_authenticated) = false
  /\ Account.isInitializing (read 0 both_authenticated) = true
  /\ readyEvents idA both_authenticated = 0%nat.
Proof. vm_compute. repeat split. Qed.


(** ** Phones on record *)

(** The phones on record stay actual numbers along every run in which the
    clients report actual numbers, so that the round trip of the accounts
    configuration applies to every state such a run reaches. *)

Lemma phones_same m m' :
  heap m' = heap m -> accounts m' = accounts m ->
  phones_present m -> phones_present m'.
Proof.
  unfold phones_present, account_values, read. now intros -> ->.
Qed.

Lemma phones_modify r f m :
  (forall a, Js.or_null (Account.phone a) = Account.phone a ->
             Js.or_null (Account.phone (f a)) = Account.phone (f a)) ->
  phones_present m -> phones_present (modify r f m).
Proof.
  intros Hf. unfold phones_present, account_values.
  change (accounts (modify r f m)) with (accounts m).
  rewrite !Forall_map. apply Forall_impl. intros r' Hr'.
  rewrite read_modify.
  destruct (Nat.eqb_spec r' r) as [->|]; simpl; auto.
  destruct (r <? List.length (heap m))%nat; auto.
Qed.

Lemma phones_saveAccountsConfig m :
  phones_present m -> phones_present (saveAccountsConfig m).
Proof.
  destruct (saveAccountsConfig_keeps m) as (Hh & Ha & _).
  now apply phones_same.
Qed.

Lemma phones_saveDeletedMessage d m :
  phones_present m -> phones_present (saveDeletedMessage d m).
Proof.
  apply phones_same; unfold saveDeletedMessage, saveDeletedMessages;
    destruct m; simpl; now destruct fsWritable0.
Qed.

Lemma phones_alloc_set a m :
  wf m -> Js.or_null (Account.phone a) = Account.phone a ->
  phones_present m ->
  phones_present
    (set_accounts
       (JsMap.set (Account.id a) (fst (alloc a m))
          (accounts (snd (alloc a m))))
       (snd (alloc a m))).
Proof.
  intros [_ He _] Ha Hph. unfold phones_present, account_values, JsMap.values.
  cbn [alloc fst snd accounts set_accounts set_heap].
  rewrite map_map, Forall_map. apply Forall_set.
  - unfold phones_present, account_values, JsMap.values in Hph.
    rewrite map_map, Forall_map in Hph.
    rewrite Forall_forall in *. intros kv Hin.
    destruct (He kv Hin) as (Hlt & _). specialize (Hph kv Hin).
    unfold read in *. cbn [heap set_accounts set_heap].
    now rewrite app_nth1.
  - unfold read. cbn [heap set_accounts set_heap snd].
    now rewrite app_nth2, Nat.sub_diag by lia.
Qed.

Lemma phones_delete k m :
  phones_present m ->
  phones_present (set_accounts (JsMap.delete k (accounts m)) m).
Proof.
  unfold phones_present, account_values, JsMap.values.
  cbn [accounts set_accounts]. rewrite !map_map, !Forall_map.
  change (fun x => read (snd x) (set_accounts ?a m))
    with (fun x : string * nat => read (snd x) m).
  apply Forall_delete.
Qed.

(** Goals [phones_present (...)] over compositions of the basic
    assignments that leave phones alone. *)
Ltac phones_auto :=
  repeat first
    [ assumption
    | apply phones_saveAccountsConfig
    | apply phones_saveDeletedMessage
    | apply phones_modify; [intros ? ?; assumption|]
    | match goal with
      | |- phones_present (emit _ ?m) => apply (phones_same m); [reflexivity..|]
      | |- phones_present (setTimeout _ _ ?m) =>
          apply (phones_same m); [reflexivity..|]
      | |- phones_present (suspend _ ?m) =>
          apply (phones_same m); [reflexivity..|]
      | |- phones_present (set_timers _ ?m) =>
          apply (phones_same m); [reflexivity..|]
      | |- phones_present (set_awaiting _ ?m) =>
          apply (phones_same m); [reflexivity..|]
      | |- phones_present (set_wired _ ?m) =>
          apply (phones_same m); [reflexivity..|]
      | |- phones_present (set_authDirs _ ?m) =>
          apply (phones_same m); [reflexivity..|]
      | |- phones_present (set_fsWritable _ ?m) =>
          apply (phones_same m); [reflexivity..|]
      | |- phones_present (set_chatsCache _ _ ?m) =>
          apply (phones_same m); [reflexivity..|]
      | |- phones_present (set_activeAccountId _ ?m) =>
          apply (phones_same m); [reflexivity..|]
      end
    | progress cbn [fst snd]
    | break_match ].

Lemma phones_recordPhone account i m :
  (forall user, i = Wid user -> Js.truthy user = true) ->
  phones_present m -> phones_present (recordPhone account i m).
Proof.
  intros Hi Hph. unfold recordPhone. destruct i as [| |user]; auto.
  apply phones_saveAccountsConfig, phones_modify; auto.
  intros a _. simpl. now rewrite (Hi user eq_refl).
Qed.

Lemma phones_retryLater accountId retryCount m :
  phones_present m -> phones_present (retryLater accountId retryCount m).
Proof. intros H. unfold retryLater. phones_auto. Qed.

Lemma phones_fixReadyState world account m :
  reports_numbers world ->
  phones_present m -> phones_present (fixReadyState world account m).
Proof.
  intros Hw Hph. unfold fixReadyState. cbv zeta.
  repeat first
    [ assumption
    | apply phones_saveAccountsConfig
    | match goal with
      | H : info (world ?c) = Wid ?user
        |- phones_present (modify _ (Account.set_phone (Some ?user)) _) =>
          apply phones_modify;
          [intros ? _; simpl; now rewrite (Hw c user H)|]
      end
    | apply phones_modify; [intros ? ?; assumption|]
    | break_match ].
Qed.

Lemma phones_handle account accountId world client e m :
  reports_numbers world ->
  phones_present m ->
  phones_present (handle account accountId (world client) e m).
Proof.
  intros Hw Hph.
  assert (forall user, info (world client) = Wid user ->
                       Js.truthy user = true) as Hi by (intros; eapply Hw; eauto).
  destruct e; simpl;
    unfold on_qr, on_loading_screen, on_ready, on_authenticated,
      on_auth_failure, on_disconnected, on_message, on_message_create,
      on_message_revoke_everyone; cbv zeta;
    repeat first [apply phones_recordPhone; [exact Hi|] | phones_auto].
Qed.

Lemma phones_checkAndSetReady_begin accountId retryCount world m :
  phones_present m ->
  phones_present (snd (checkAndSetReady_begin accountId retryCount world m)).
Proof.
  intros H. unfold checkAndSetReady_begin.
  repeat first [break_match | progress cbn [snd]
               | apply phones_retryLater | assumption].
Qed.

Lemma phones_checkAndSetReady_end account accountId retryCount probe world m :
  reports_numbers world ->
  phones_present m ->
  phones_present
    (checkAndSetReady_end account accountId retryCount probe world m).
Proof.
  intros Hw H. unfold checkAndSetReady_end.
  repeat first
    [ apply phones_retryLater
    | match goal with
      | E : info (world ?c) = Wid ?user
        |- phones_present (modify _ (Account.set_phone (Some ?user)) _) =>
          apply phones_modify;
          [intros ? _; simpl; now rewrite (Hw c user E)|]
      | E : info (world ?c) = ?i |- phones_present (recordPhone _ ?i _) =>
          apply phones_recordPhone;
          [intros user ->; exact (Hw c user E)|]
      end
    | phones_auto ].
Qed.

Lemma phones_start {A} (p : Progress A * t) :
  phones_present (snd p) -> phones_present (start p).
Proof. destruct p as [[r|k] m]; simpl; intros H; phones_auto. Qed.

Lemma phones_createAccount name now random now' m :
  wf m -> phones_present m ->
  phones_present (snd (createAccount name now random now' m)).
Proof.
  intros Hwf Hph. unfold createAccount.
  destruct (maxAccounts <=? JsMap.size (accounts m))%nat; [exact Hph|].
  set (account := Account.mk (generateAccountId now random) _ _ _ _ _ _ _ _ _).
  assert (H2 := phones_alloc_set account m Hwf eq_refl Hph).
  cbn [alloc fst snd] in *. cbn [Account.id account] in H2.
  phones_auto.
Qed.

Lemma phones_deleteAccount_commit accountId m :
  phones_present m -> phones_present (deleteAccount_commit accountId m).
Proof.
  intros Hph. unfold deleteAccount_commit.
  assert (phones_present
            (set_accounts (JsMap.delete accountId (accounts m))
               (set_authDirs
                  (filter (fun d => negb (String.eqb d accountId))
                     (authDirs m)) m))) as H
    by (apply (phones_same
                 (set_accounts (JsMap.delete accountId (accounts m)) m));
        [reflexivity..|]; now apply phones_delete).
  phones_auto.
Qed.

Lemma phones_deleteAccount_end accountId rmThrows m :
  phones_present m ->
  phones_present (snd (deleteAccount_end accountId rmThrows m)).
Proof.
  intros Hph. unfold deleteAccount_end.
  destruct (existsb (String.eqb accountId) (authDirs m)), rmThrows;
    cbn [snd]; auto using phones_deleteAccount_commit.
Qed.

Lemma phones_deleteAccount_begin accountId rmThrows m :
  phones_present m ->
  phones_present (snd (deleteAccount_begin accountId rmThrows m)).
Proof.
  intros Hph. unfold deleteAccount_begin.
  destruct (JsMap.get accountId (accounts m)) as [account|]; [|exact Hph].
  destruct (Account.client (read account m)); [exact Hph|].
  now apply phones_deleteAccount_end.
Qed.

Lemma phones_initializeAccount_connect account accountId ctorThrows
  switching m :
  phones_present m ->
  phones_present
    (snd (initializeAccount_connect account accountId ctorThrows switching m)).
Proof. intros H. unfold initializeAccount_connect. phones_auto. Qed.

Lemma phones_initializeAccount_begin accountId ctorThrows switching m :
  phones_present m ->
  phones_present
    (snd (initializeAccount_begin accountId ctorThrows switching m)).
Proof.
  intros H. unfold initializeAccount_begin, initializeAccount_connect.
  phones_auto.
Qed.

Lemma phones_switchAccount_begin accountId ctorThrows m :
  phones_present m ->
  phones_present (snd (switchAccount_begin accountId ctorThrows m)).
Proof.
  intros H. unfold switchAccount_begin.
  destruct (JsMap.get accountId (accounts m)) as [account|]; [|exact H].
  match goal with
  | |- context [set_activeAccountId (Some accountId) ?m1] =>
      assert (phones_present
                (saveAccountsConfig (set_activeAccountId (Some accountId) m1)))
        as H3 by phones_auto;
      generalize dependent (saveAccountsConfig
                              (set_activeAccountId (Some accountId) m1))
  end.
  intros m3 H3. cbv zeta.
  destruct (needsInitialization (read account m3)).
  - pose proof (phones_initializeAccount_begin accountId ctorThrows true m3 H3)
      as Hb.
    destruct (initializeAccount_begin accountId ctorThrows true m3)
      as [[[r|e]|k] m4]; cbn [snd] in *; phones_auto.
  - cbn [snd]. phones_auto.
Qed.

Lemma phones_logoutAccount_end account logout m :
  phones_present m -> phones_present (snd (logoutAccount_end account logout m)).
Proof.
  intros H. unfold logoutAccount_end.
  repeat first
    [ apply phones_modify; [intros ? ?; first [assumption|reflexivity]|]
    | phones_auto ].
Qed.

Lemma phones_switchAccount_end account accountId r :
  phones_present (snd r) ->
  phones_present (snd (switchAccount_end account accountId r)).
Proof.
  intros H. unfold switchAccount_end. destruct r as [[u|e] m]; phones_auto.
Qed.

Lemma phones_suspend k m : phones_present m -> phones_present (suspend k m).
Proof. intros H. phones_auto. Qed.

Lemma phones_initializeAccount_call accountId ctorThrows m :
  phones_present m ->
  phones_present (snd (initializeAccount_begin accountId ctorThrows false m))
  /\ forall k,
       fst (initializeAccount_begin accountId ctorThrows false m) = Pending k ->
       True.
Proof. intros H. split; auto. now apply phones_initializeAccount_begin. Qed.

Lemma phones_initialize_loop rest ctorThrows m :
  phones_present m -> phones_present (initialize_loop rest ctorThrows m).
Proof.
  exact (startup_initialize_loop phones_present (fun _ _ => True)
           (fun k m0 H _ => phones_suspend k m0 H)
           (fun _ _ _ _ _ => I) (fun _ _ _ => I)
           phones_initializeAccount_call rest ctorThrows m).
Qed.

Lemma phones_initialize_next phase rest ctorThrows p :
  phones_present (snd p) ->
  phones_present (initialize_next phase rest ctorThrows p).
Proof.
  intros H.
  exact (startup_initialize_next phones_present (fun _ _ => True)
           (fun k m0 H _ => phones_suspend k m0 H)
           (fun _ _ _ _ _ => I) (fun _ _ _ => I)
           phones_initializeAccount_call phase rest ctorThrows p H
           (fun _ _ => I)).
Qed.

Lemma phones_resume_initializeAccount k s ctorThrows m :
  phones_present m ->
  phones_present (snd (resume_initializeAccount k s ctorThrows m)).
Proof.
  intros H. destruct k; cbn [resume_initializeAccount snd]; auto.
  - now apply phones_initializeAccount_connect.
  - unfold initializeAccount_end. phones_auto.
Qed.

Lemma phones_resume k s ctorThrows world m :
  reports_numbers world ->
  phones_present m -> phones_present (resume k s ctorThrows world m).
Proof.
  intros Hw H. destruct k; cbn [resume].
  - now apply phones_deleteAccount_end.
  - pose proof (phones_initializeAccount_connect account accountId ctorThrows
                  switching m H) as Hc.
    destruct (initializeAccount_connect account accountId ctorThrows
                switching m) as [[r|k'] m1]; cbn [snd] in Hc.
    + destruct switching; [|exact Hc].
      now apply phones_switchAccount_end.
    + phones_auto.
  - assert (phones_present (snd (initializeAccount_end account s m))) as He
      by (unfold initializeAccount_end; phones_auto).
    destruct switching; [|exact He].
    now apply phones_switchAccount_end.
  - now apply phones_logoutAccount_end.
  - unfold getChats_end. cbv zeta. phones_auto.
  - now apply phones_checkAndSetReady_end.
  - now apply phones_initialize_next, phones_resume_initializeAccount.
  - now apply phones_initialize_loop.
Qed.

Lemma phones_runCallback cb world m :
  phones_present m -> phones_present (runCallback cb world m).
Proof.
  intros H. destruct cb; simpl.
  - destruct (negb _); auto.
    now apply phones_start, phones_checkAndSetReady_begin.
  - unfold on_ready_settled. phones_auto.
  - now apply phones_start, phones_checkAndSetReady_begin.
Qed.

Lemma phones_loadAccounts accs m :
  wf m -> Forall (fun a => Js.truthy (meta_id a) = true) accs ->
  phones_present m ->
  phones_present (fold_left (fun s acc => loadAccount acc s) accs m).
Proof.
  revert m. induction accs as [|acc rest IH]; intros m Hwf Hall Hph; simpl;
    auto.
  inversion Hall as [|? ? Hacc Hrest]; subst.
  destruct (loadAccount_spec acc m Hwf Hacc) as (Hw1 & _).
  apply IH; auto. unfold loadAccount.
  set (a := loadedAccount _ acc).
  pose proof (phones_alloc_set a m Hwf (or_null_idem _) Hph) as H.
  cbn [alloc fst snd] in *. exact H.
Qed.

Lemma phones_restart m : Inv m -> phones_present (restart m).
Proof.
  intros [_ _ Hf]. unfold restart, constructor.
  match goal with
  | |- phones_present (loadDeletedMessages ?x) =>
      apply (phones_same x);
      [unfold loadDeletedMessages; destruct (deletedMessagesFile x);
       reflexivity..|]
  end.
  unfold loadAccountsConfig. cbn [configFile].
  destruct (configFile m) as [| |data]; try (constructor).
  simpl in Hf. destruct (cfg_accounts data) as [accs|]; [|constructor].
  apply phones_loadAccounts; [| apply Hf | constructor].
  split; simpl; auto using or_null_idem. constructor.
Qed.

Lemma phones_initialize_begin now random now' ctorThrows m :
  Inv m -> phones_present m ->
  phones_present (snd (initialize_begin now random now' ctorThrows m)).
Proof.
  intros HI Hph. unfold initialize_begin. cbv zeta.
  assert (forall id x, phones_present x ->
            phones_present
              (snd (initializeAccount_begin id ctorThrows false x))) as Hinit
    by (intros; now apply phones_initializeAccount_begin).
  pose proof (phones_createAccount (Some "Main Account") now random now' m
                (inv_wf _ HI) Hph) as Hc.
  assert (phones_present
            (saveAccountsConfig
               (set_activeAccountId (JsMap.first_key (accounts m)) m)))
    as Hs by phones_auto.
  destruct (createAccount (Some "Main Account") now random now' m)
    as [[r|e] m1]; cbn [snd] in *;
    destruct (activeAccountId m) as [id|];
    repeat first [ apply Hinit | assumption | progress cbn [snd]
                 | break_match ].
Qed.

Lemma phones_step world i m :
  reports_numbers world -> Inv m ->
  phones_present m -> phones_present (step world i m).
Proof.
  intros Hw HI Hph. destruct i; simpl.
  - apply phones_createAccount; auto. apply HI.
  - now apply phones_start, phones_deleteAccount_begin.
  - unfold renameAccount. phones_auto.
  - now apply phones_start, phones_initializeAccount_begin.
  - now apply phones_start, phones_switchAccount_begin.
  - destruct (logoutAccount_begin accountId m); phones_auto.
  - unfold getAllAccounts. cbn [snd].
    generalize (JsMap.values (accounts m)). intros refs.
    revert m HI Hph. induction refs as [|r rest IH]; intros m HI Hph; simpl;
      auto.
    apply IH; [now apply Inv_fixReadyState|now apply phones_fixReadyState].
  - unfold getAccountStatus.
    destruct (JsMap.get accountId (accounts m)); cbn [snd]; auto.
    now apply phones_fixReadyState.
  - destruct (getChats_begin now world m); phones_auto.
  - unfold initialize.
    now apply phones_initialize_next, phones_initialize_begin.
  - destruct (nth_error (wired m) client) as [[account accountId]|]; auto.
    now apply phones_handle.
  - destruct (nth_error (timers m) n); auto.
    apply phones_runCallback; phones_auto.
  - destruct (nth_error (awaiting m) n); auto.
    apply phones_resume; auto; phones_auto.
  - phones_auto.
  - phones_auto.
  - now apply phones_restart.
Qed.

(** Every state the event loop reaches from a fresh installation, with
    clients that report actual numbers, satisfies the hypotheses of the
    round trip. *)
Lemma roundtrip_hypotheses_reachable trace :
  Forall (fun wi => reports_numbers (fst wi)) trace ->
  wf (run trace fresh) /\ phones_present (run trace fresh).
Proof.
  intros Hall. split; [apply Inv_reachable|].
  unfold run.
  assert (forall m, Inv m -> phones_present m ->
            phones_present
              (fold_left (fun s wi => step (fst wi) (snd wi) s) trace m)) as H.
  { induction Hall as [|[world i] rest Hw Hrest IH]; intros m HI Hph; simpl;
      auto.
    apply IH; [now apply Inv_step|now apply phones_step]. }
  apply H; [apply Inv_fresh|constructor].
Qed.


(** ** The round trip of the accounts configuration *)

(** C9.  Round trip of the accounts configuration.  For every manager
    state that satisfies the invariant of the accounts map and in which
    every phone on record is an actual number, what [saveAccountsConfig]
    writes, when the write succeeds, is read back by [loadAccountsConfig] in
    the constructor of a restarted process as the same accounts: the same
    ids, names, phones and creation times, in the same order and under the
    same keys, and the same active pointer.  Every reloaded account is
    uninitialized (no client, not ready, not authenticated, not
    initializing, no QR code), and no timer, suspended method or client is
    left.  The two conditions on the state hold in every state the event
    loop reaches from a fresh installation as long as the clients report
    actual numbers. *)
Theorem accounts_config_roundtrip :
  forall m : t,
    wf m -> phones_present m -> fsWritable m = true ->
    let m' := restart (saveAccountsConfig m) in
    map meta_of (account_values m') = map meta_of (account_values m)
    /\ JsMap.keys (accounts m') = JsMap.keys (accounts m)
    /\ activeAccountId m' = activeAccountId m
    /\ Forall Account.uninitialized (account_values m')
    /\ (timers m' = [] /\ awaiting m' = [] /\ wired m' = [])
    /\ (forall trace,
          Forall (fun wi => reports_numbers (fst wi)) trace ->
          wf (run trace fresh) /\ phones_present (run trace fresh)).
Proof.
  intros m Hwf Hph Hw m'.
  destruct (restart_after_save m Hwf Hw) as (Hv & Hk & Ha).
  fold m' in Hv, Hk, Ha.
  refine (conj _ (conj Hk (conj Ha (conj _ (conj _ _)))));
    [| | |apply roundtrip_hypotheses_reachable].
  - rewrite Hv, map_map. apply map_ext_in. intros acc Hin.
    unfold phones_present in Hph. rewrite Forall_forall in Hph.
    unfold meta_of, loadedAccount. simpl. now rewrite (Hph acc Hin).
  - rewrite Hv. apply Forall_map, Forall_forall. intros acc _.
    unfold Account.uninitialized, loadedAccount. simpl. auto.
  - unfold m', restart, constructor, loadDeletedMessages, loadAccountsConfig,
      saveAccountsConfig. rewrite Hw.
    cbn [configFile deletedMessagesFile authDirs fsWritable set_configFile
         cfg_accounts cfg_activeAccountId].
    assert (forall accs b,
              timers (fold_left (fun s acc => loadAccount acc s) accs b)
                = timers b /\
              awaiting (fold_left (fun s acc => loadAccount acc s) accs b)
                = awaiting b /\
              wired (fold_left (fun s acc => loadAccount acc s) accs b)
                = wired b /\
              deletedMessagesFile
                (fold_left (fun s acc => loadAccount acc s) accs b)
                = deletedMessagesFile b) as Hfold.
    { induction accs as [|a rest IH]; intros b; simpl; auto.
      destruct (IH (loadAccount a b)) as (-> & -> & -> & ->).
      repeat split. }
    match goal with
    | |- context [fold_left _ ?accs ?b] =>
        destruct (Hfold accs b) as (Ht & Haw & Hwi & Hdf)
    end.
    rewrite Hdf. cbn [deletedMessagesFile set_activeAccountId].
    destruct (deletedMessagesFile m); cbn [timers awaiting wired
      set_deletedMessages]; rewrite ?Ht, ?Haw, ?Hwi; auto.
Qed.

Lemma phones_presentb_ok m : phones_presentb m = true -> phones_present m.
Proof.
  unfold phones_presentb, phones_present. rewrite forallb_forall.
  intros H. apply Forall_forall. intros acc Hin. specialize (H acc Hin).
  destruct (Account.phone acc) as [s|]; simpl; auto. now rewrite H.
Qed.

Lemma accounts_config_roundtrip_witness :
  wf a_ready /\ phones_present a_ready /\ fsWritable a_ready = true
  /\ map meta_of (account_values (restart (saveAccountsConfig a_ready))) =
     [ {| meta_id := idA; meta_name := "A";
          meta_phone := Some "15551234567";
          meta_createdAt := 1700000000000 |};
       {| meta_id := idB; meta_name := "B"; meta_phone := None;
          meta_createdAt := 1700000005000 |} ]
  /\ activeAccountId (restart (saveAccountsConfig a_ready)) = Some idA
  /\ Forall Account.uninitialized
       (account_values (restart (saveAccountsConfig a_ready))).
Proof.
  assert (wf a_ready) as Hwf by (apply wfb_wf; vm_compute; reflexivity).
  assert (phones_present a_ready) as Hph
    by (apply phones_presentb_ok; vm_compute; reflexivity).
  assert (fsWritable a_ready = true) as Hw by (vm_compute; reflexivity).
  pose proof (accounts_config_roundtrip a_ready Hwf Hph Hw) as H.
  cbv zeta in H. destruct H as (Hm & _ & Ha & Hu & _).
  refine (conj Hwf (conj Hph (conj Hw (conj _ (conj _ Hu))))).
  - rewrite Hm. vm_compute. reflexivity.
  - rewrite Ha. vm_compute. reflexivity.
Defined.


(** ** The accounts file is never stale *)

Lemma fsWritable_saveAccountsConfig m :
  fsWritable (saveAccountsConfig m) = fsWritable m.
Proof. apply saveAccountsConfig_keeps. Qed.

Lemma fsWritable_saveDeletedMessage d m :
  fsWritable (saveDeletedMessage d m) = fsWritable m.
Proof.
  unfold saveDeletedMessage, saveDeletedMessages.
  destruct m; simpl. now destruct fsWritable0.
Qed.

(** Goals [fsWritable (...) = true] over compositions of assignments. *)
Ltac writable_auto :=
  repeat first
    [ assumption
    | rewrite fsWritable_saveAccountsConfig
    | rewrite fsWritable_saveDeletedMessage
    | progress cbn [fsWritable fst snd alloc modify emit setTimeout suspend
                    set_heap set_accounts set_activeAccountId
                    set_deletedMessages set_chatsCache set_configFile
                    set_deletedMessagesFile set_authDirs set_wired
                    set_timers set_awaiting set_emitted]
    | break_match ].

Lemma durable_saveAccountsConfig m :
  fsWritable m = true -> durable (saveAccountsConfig m).
Proof.
  intros Hw. unfold durable, synced, saveAccountsConfig. rewrite Hw.
  split; [exact Hw|left; reflexivity].
Qed.

Lemma durable_same m m' :
  heap m' = heap m -> accounts m' = accounts m ->
  activeAccountId m' = activeAccountId m -> configFile m' = configFile m ->
  fsWritable m' = fsWritable m -> durable m -> durable m'.
Proof.
  intros Hh Ha Hp Hc Hw. unfold durable, synced, account_values, read.
  now rewrite Hh, Ha, Hp, Hc, Hw.
Qed.

Lemma durable_modify r f m :
  (forall a, meta_of (f a) = meta_of a) -> durable m -> durable (modify r f m).
Proof.
  intros Hf [Hw Hs]. split; [exact Hw|].
  unfold synced. rewrite account_values_modify by exact Hf. exact Hs.
Qed.

Lemma durable_saveDeletedMessage d m :
  durable m -> durable (saveDeletedMessage d m).
Proof.
  apply durable_same; unfold saveDeletedMessage, saveDeletedMessages;
    destruct m; simpl; now destruct fsWritable0.
Qed.

(** Goals [durable (...)] over compositions of the basic assignments: a
    write brings the file up to date, and what changes no id, name, phone or
    creation time leaves it up to date. *)
Ltac durable_auto :=
  repeat first
    [ assumption
    | apply durable_saveAccountsConfig; writable_auto
    | apply durable_saveDeletedMessage
    | apply durable_modify; [intros ?; reflexivity|]
    | match goal with
      | |- durable (emit _ ?m) => apply (durable_same m); [reflexivity..|]
      | |- durable (setTimeout _ _ ?m) =>
          apply (durable_same m); [reflexivity..|]
      | |- durable (suspend _ ?m) => apply (durable_same m); [reflexivity..|]
      | |- durable (set_timers _ ?m) =>
          apply (durable_same m); [reflexivity..|]
      | |- durable (set_awaiting _ ?m) =>
          apply (durable_same m); [reflexivity..|]
      | |- durable (set_wired _ ?m) =>
          apply (durable_same m); [reflexivity..|]
      | |- durable (set_authDirs _ ?m) =>
          apply (durable_same m); [reflexivity..|]
      | |- durable (set_chatsCache _ _ ?m) =>
          apply (durable_same m); [reflexivity..|]
      end
    | progress cbn [fst snd]
    | break_match ].

Lemma durable_createAccount name now random now' m :
  durable m -> durable (snd (createAccount name now random now' m)).
Proof.
  intros Hd. pose proof (proj1 Hd) as Hw. unfold createAccount.
  destruct (maxAccounts <=? JsMap.size (accounts m))%nat; [exact Hd|].
  cbn [alloc fst snd]. durable_auto.
Qed.

Lemma durable_deleteAccount_commit accountId m :
  durable m -> durable (deleteAccount_commit accountId m).
Proof.
  intros Hd. pose proof (proj1 Hd) as Hw. unfold deleteAccount_commit.
  durable_auto.
Qed.

Lemma durable_deleteAccount_end accountId rmThrows m :
  durable m -> durable (snd (deleteAccount_end accountId rmThrows m)).
Proof.
  intros Hd. unfold deleteAccount_end.
  destruct (existsb (String.eqb accountId) (authDirs m)), rmThrows;
    cbn [snd]; auto using durable_deleteAccount_commit.
Qed.

Lemma durable_initializeAccount_connect account accountId ctorThrows
  switching m :
  durable m ->
  durable
    (snd (initializeAccount_connect account accountId ctorThrows switching m)).
Proof. intros Hd. unfold initializeAccount_connect. durable_auto. Qed.

Lemma durable_initializeAccount_begin accountId ctorThrows switching m :
  durable m ->
  durable (snd (initializeAccount_begin accountId ctorThrows switching m)).
Proof.
  intros Hd. unfold initializeAccount_begin, initializeAccount_connect.
  durable_auto.
Qed.

Lemma durable_switchAccount_begin accountId ctorThrows m :
  durable m -> durable (snd (switchAccount_begin accountId ctorThrows m)).
Proof.
  intros Hd. pose proof (proj1 Hd) as Hw. unfold switchAccount_begin.
  destruct (JsMap.get accountId (accounts m)) as [account|]; [|exact Hd].
  match goal with
  | |- context [set_activeAccountId (Some accountId) ?m1] =>
      assert (durable
                (saveAccountsConfig (set_activeAccountId (Some accountId) m1)))
        as H3 by durable_auto;
      generalize dependent (saveAccountsConfig
                              (set_activeAccountId (Some accountId) m1))
  end.
  intros m3 H3. cbv zeta.
  destruct (needsInitialization (read account m3)).
  - pose proof (durable_initializeAccount_begin accountId ctorThrows true m3
                  H3) as Hb.
    destruct (initializeAccount_begin accountId ctorThrows true m3)
      as [[[r|e]|k] m4]; cbn [snd] in *; durable_auto.
  - cbn [snd]. durable_auto.
Qed.

Lemma durable_start {A} (p : Progress A * t) :
  durable (snd p) -> durable (start p).
Proof. destruct p as [[r|k] m]; simpl; intros H; durable_auto. Qed.

Lemma durable_fixReadyState world account m :
  durable m -> durable (fixReadyState world account m).
Proof.
  intros Hd. pose proof (proj1 Hd) as Hw. unfold fixReadyState. cbv zeta.
  durable_auto.
Qed.

Lemma durable_getAllAccounts world m :
  durable m -> durable (snd (getAllAccounts world m)).
Proof.
  unfold getAllAccounts. cbn [snd].
  generalize (JsMap.values (accounts m)). intros refs. revert m.
  induction refs as [|r rest IH]; intros m Hd; simpl; auto.
  apply IH, durable_fixReadyState, Hd.
Qed.

Lemma durable_handle account accountId view e m :
  durable m -> durable (handle account accountId view e m).
Proof.
  intros Hd. pose proof (proj1 Hd) as Hw.
  destruct e; simpl;
    unfold on_qr, on_loading_screen, on_ready, on_authenticated,
      on_auth_failure, on_disconnected, on_message, on_message_create,
      on_message_revoke_everyone, recordPhone; cbv zeta;
    durable_auto.
Qed.

Lemma durable_checkAndSetReady_begin accountId retryCount world m :
  durable m ->
  durable (snd (checkAndSetReady_begin accountId retryCount world m)).
Proof.
  intros Hd. unfold checkAndSetReady_begin, retryLater. durable_auto.
Qed.

Lemma durable_runCallback cb world m :
  durable m -> durable (runCallback cb world m).
Proof.
  intros Hd. destruct cb; simpl.
  - destruct (negb _); auto.
    now apply durable_start, durable_checkAndSetReady_begin.
  - unfold on_ready_settled. durable_auto.
  - now apply durable_start, durable_checkAndSetReady_begin.
Qed.

Lemma durable_suspend k m : durable m -> durable (suspend k m).
Proof. intros Hd. pose proof (proj1 Hd) as Hw. durable_auto. Qed.

Lemma durable_initializeAccount_call accountId ctorThrows m :
  durable m ->
  durable (snd (initializeAccount_begin accountId ctorThrows false m))
  /\ forall k,
       fst (initializeAccount_begin accountId ctorThrows false m) = Pending k ->
       True.
Proof. intros H. split; auto. now apply durable_initializeAccount_begin. Qed.

Lemma durable_initialize_loop rest ctorThrows m :
  durable m -> durable (initialize_loop rest ctorThrows m).
Proof.
  exact (startup_initialize_loop durable (fun _ _ => True)
           (fun k m0 H _ => durable_suspend k m0 H)
           (fun _ _ _ _ _ => I) (fun _ _ _ => I)
           durable_initializeAccount_call rest ctorThrows m).
Qed.

Lemma durable_initialize_next phase rest ctorThrows p :
  durable (snd p) -> durable (initialize_next phase rest ctorThrows p).
Proof.
  intros H.
  exact (startup_initialize_next durable (fun _ _ => True)
           (fun k m0 H _ => durable_suspend k m0 H)
           (fun _ _ _ _ _ => I) (fun _ _ _ => I)
           durable_initializeAccount_call phase rest ctorThrows p H
           (fun _ _ => I)).
Qed.

Lemma durable_resume_initializeAccount k s ctorThrows m :
  durable m -> durable (snd (resume_initializeAccount k s ctorThrows m)).
Proof.
  intros Hd. pose proof (proj1 Hd) as Hw.
  destruct k; cbn [resume_initializeAccount snd]; auto.
  - now apply durable_initializeAccount_connect.
  - unfold initializeAccount_end. durable_auto.
Qed.

Lemma durable_resume k s ctorThrows world m :
  durable m -> durable (resume k s ctorThrows world m).
Proof.
  intros Hd. pose proof (proj1 Hd) as Hw. destruct k; cbn [resume].
  - now apply durable_deleteAccount_end.
  - pose proof (durable_initializeAccount_connect account accountId
                  ctorThrows switching m Hd) as Hc.
    destruct (initializeAccount_connect account accountId ctorThrows
                switching m) as [[r|k'] m1]; cbn [snd] in Hc.
    + destruct switching; [|exact Hc].
      unfold switchAccount_end. durable_auto.
    + durable_auto.
  - unfold switchAccount_end, initializeAccount_end. durable_auto.
  - unfold logoutAccount_end. durable_auto.
  - unfold getChats_end. cbv zeta. durable_auto.
  - unfold checkAndSetReady_end, retryLater, recordPhone. durable_auto.
  - now apply durable_initialize_next, durable_resume_initializeAccount.
  - now apply durable_initialize_loop.
Qed.

Lemma durable_initialize_begin now random now' ctorThrows m :
  durable m ->
  durable (snd (initialize_begin now random now' ctorThrows m)).
Proof.
  intros Hd. pose proof (proj1 Hd) as Hw. unfold initialize_begin. cbv zeta.
  assert (forall id x, durable x ->
            durable (snd (initializeAccount_begin id ctorThrows false x)))
    as Hinit by (intros; now apply durable_initializeAccount_begin).
  pose proof (durable_createAccount (Some "Main Account") now random now' m
                Hd) as Hc.
  assert (durable
            (saveAccountsConfig
               (set_activeAccountId (JsMap.first_key (accounts m)) m)))
    as Hs by durable_auto.
  destruct (createAccount (Some "Main Account") now random now' m)
    as [[r|e] m1]; cbn [snd] in *;
    destruct (activeAccountId m) as [id|];
    repeat first [ apply Hinit | assumption | progress cbn [snd]
                 | break_match ].
Qed.

(** What the constructor keeps of the disk it was given. *)
Lemma loadAccounts_keeps accs m :
  let m' := fold_left (fun s acc => loadAccount acc s) accs m in
  configFile m' = configFile m
  /\ deletedMessagesFile m' = deletedMessagesFile m
  /\ authDirs m' = authDirs m
  /\ fsWritable m' = fsWritable m
  /\ deletedMessages m' = deletedMessages m
  /\ wired m' = wired m
  /\ awaiting m' = awaiting m
  /\ timers m' = timers m.
Proof.
  revert m. induction accs as [|a rest IH]; intros m; simpl.
  - repeat split.
  - destruct (IH (loadAccount a m)) as (-> & -> & -> & -> & -> & -> & -> & ->).
    repeat split.
Qed.

Lemma loadAccountsConfig_keeps m :
  configFile (loadAccountsConfig m) = configFile m
  /\ deletedMessagesFile (loadAccountsConfig m) = deletedMessagesFile m
  /\ authDirs (loadAccountsConfig m) = authDirs m
  /\ fsWritable (loadAccountsConfig m) = fsWritable m
  /\ deletedMessages (loadAccountsConfig m) = deletedMessages m
  /\ wired (loadAccountsConfig m) = wired m
  /\ awaiting (loadAccountsConfig m) = awaiting m
  /\ timers (loadAccountsConfig m) = timers m.
Proof.
  unfold loadAccountsConfig.
  destruct (configFile m) as [| |data] eqn:Hc; rewrite <- ?Hc;
    try (repeat split; reflexivity).
  destruct (cfg_accounts data) as [accs|].
  - apply (loadAccounts_keeps accs
             (set_activeAccountId (Js.or_null (cfg_activeAccountId data)) m)).
  - repeat split.
Qed.

Lemma constructor_keeps config deleted dirs writable :
  let m := constructor config deleted dirs writable in
  configFile m = config /\ deletedMessagesFile m = deleted
  /\ authDirs m = dirs /\ fsWritable m = writable
  /\ wired m = [] /\ awaiting m = [] /\ timers m = [].
Proof.
  unfold constructor.
  match goal with
  | |- context [loadAccountsConfig ?b] =>
      destruct (loadAccountsConfig_keeps b)
        as (Hc & Hd & Ha & Hw & _ & Hwi & Haw & Ht)
  end.
  unfold loadDeletedMessages. rewrite Hd. cbn [deletedMessagesFile].
  destruct deleted;
    cbn [configFile deletedMessagesFile authDirs fsWritable wired awaiting
         timers set_deletedMessages];
    rewrite Hc, Hd, Ha, Hw, Hwi, Haw, Ht; repeat split.
Qed.

Lemma saveAccountsConfig_synced m :
  fsWritable m = true ->
  configFile m =
    Json {| cfg_activeAccountId := activeAccountId m;
            cfg_accounts := Some (map meta_of (account_values m)) |} ->
  saveAccountsConfig m = m.
Proof.
  intros Hw Hc. unfold saveAccountsConfig. rewrite Hw, <- Hc.
  apply manager_eta.
Qed.

(** The metadata a restart reconstructs. *)
Lemma restart_metadata m :
  wf m -> phones_present m -> durable m ->
  map meta_of (account_values (restart m)) = map meta_of (account_values m)
  /\ JsMap.keys (accounts (restart m)) = JsMap.keys (accounts m)
  /\ activeAccountId (restart m) = activeAccountId m.
Proof.
  intros Hwf Hph [Hw [Hc|(Hc & Ha & Hp)]].
  - rewrite <- (saveAccountsConfig_synced m Hw Hc) at 1 3 5.
    destruct (restart_after_save m Hwf Hw) as (Hv & Hk & Hact).
    cbv zeta in *. refine (conj _ (conj Hk Hact)).
    rewrite Hv, map_map. apply map_ext_in. intros acc Hin.
    unfold phones_present in Hph. rewrite Forall_forall in Hph.
    unfold meta_of, loadedAccount. simpl. now rewrite (Hph acc Hin).
  - unfold restart, constructor, loadAccountsConfig. cbn [configFile].
    rewrite Hc. unfold account_values. rewrite Ha, Hp.
    unfold loadDeletedMessages. cbn [deletedMessagesFile].
    destruct (deletedMessagesFile m); repeat split.
Qed.

Lemma durable_restart m :
  wf m -> phones_present m -> durable m -> durable (restart m).
Proof.
  intros Hwf Hph Hd.
  destruct (restart_metadata m Hwf Hph Hd) as (Hv & Hk & Hact).
  destruct (constructor_keeps (configFile m) (deletedMessagesFile m)
              (authDirs m) (fsWritable m)) as (Hc & _ & _ & Hw & _).
  fold (restart m) in Hc, Hw.
  destruct Hd as [Hw0 [HJ|(HA & Ha & Hp)]].
  - split; [now rewrite Hw|]. left. now rewrite Hc, Hv, Hact.
  - split; [now rewrite Hw|]. right. rewrite Hc, Hact.
    refine (conj HA (conj _ Hp)).
    rewrite Ha in Hk. unfold JsMap.keys in Hk.
    destruct (accounts (restart m)); [reflexivity|discriminate].
Qed.

Lemma durable_step world i m :
  reports_numbers world -> diskFails i = false ->
  Inv m -> phones_present m -> durable m -> durable (step world i m).
Proof.
  intros Hrn Hdisk HI Hph Hd. pose proof (proj1 Hd) as Hw.
  destruct i; cbn [step].
  - now apply durable_createAccount.
  - apply durable_start. unfold deleteAccount_begin.
    repeat first [apply durable_deleteAccount_end | durable_auto].
  - unfold renameAccount. durable_auto.
  - now apply durable_start, durable_initializeAccount_begin.
  - now apply durable_start, durable_switchAccount_begin.
  - destruct (logoutAccount_begin accountId m); durable_auto.
  - now apply durable_getAllAccounts.
  - unfold getAccountStatus.
    destruct (JsMap.get accountId (accounts m)); cbn [snd]; auto.
    now apply durable_fixReadyState.
  - destruct (getChats_begin now world m); durable_auto.
  - unfold initialize.
    now apply durable_initialize_next, durable_initialize_begin.
  - destruct (nth_error (wired m) client) as [[account accountId]|]; auto.
    now apply durable_handle.
  - destruct (nth_error (timers m) n); auto.
    apply durable_runCallback. durable_auto.
  - destruct (nth_error (awaiting m) n); auto.
    apply durable_resume. durable_auto.
  - durable_auto.
  - destruct writable; [|discriminate].
    destruct Hd as [_ Hs]. split; [reflexivity|exact Hs].
  - apply durable_restart; auto. apply HI.
Qed.

Lemma durable_run trace :
  Forall (fun wi => reports_numbers (fst wi) /\ diskFails (snd wi) = false)
    trace ->
  Inv (run trace fresh) /\ phones_present (run trace fresh)
  /\ durable (run trace fresh).
Proof.
  intros Hall. unfold run.
  assert (forall m, Inv m -> phones_present m -> durable m ->
            let m' :=
              fold_left (fun s wi => step (fst wi) (snd wi) s) trace m in
            Inv m' /\ phones_present m' /\ durable m') as H.
  { induction Hall as [|[world i] rest [Hw Hdisk] Hrest IH];
      intros m HI Hph Hd; simpl; auto.
    apply IH; [now apply Inv_step|now apply phones_step
              |now apply durable_step]. }
  apply H; [apply Inv_fresh|constructor|].
  split; [reflexivity|right; repeat split].
Qed.

Lemma world_reports_numbers : reports_numbers world.
Proof.
  intros client user. unfold world.
  destruct client; simpl; intros [= <-]; reflexivity.
Qed.

(** X1.  The accounts file is never stale.  Along every run of the event
    loop from a fresh installation in which the disk accepts writes and the
    clients report actual numbers, the file [accounts.json] holds at every
    moment between two runs of the manager what [saveAccountsConfig] would
    write at that moment; so a restart at that moment reconstructs the same
    account ids, names, phones and creation times, under the same keys and
    in the same order, and the same active pointer. *)
Theorem accounts_file_never_stale :
  forall trace : list (World * Input),
    Forall (fun wi => reports_numbers (fst wi) /\ diskFails (snd wi) = false)
      trace ->
    let s := run trace fresh in
    synced s
    /\ map meta_of (account_values (restart s)) = map meta_of (account_values s)
    /\ JsMap.keys (accounts (restart s)) = JsMap.keys (accounts s)
    /\ activeAccountId (restart s) = activeAccountId s.
Proof.
  intros trace Hall s.
  destruct (durable_run trace Hall) as (HI & Hph & Hd). fold s in HI, Hph, Hd.
  split; [apply Hd|].
  apply restart_metadata; auto. apply HI.
Qed.

Lemma accounts_file_never_stale_witness :
  Forall (fun wi => reports_numbers (fst wi) /\ diskFails (snd wi) = false)
    a_ready_trace
  /\ run a_ready_trace fresh = a_ready
  /\ map meta_of (account_values (restart a_ready)) =
     [ {| meta_id := idA; meta_name := "A";
          meta_phone := Some "15551234567";
          meta_createdAt := 1700000000000 |};
       {| meta_id := idB; meta_name := "B"; meta_phone := None;
          meta_createdAt := 1700000005000 |} ]
  /\ activeAccountId (restart a_ready) = Some idA.
Proof.
  assert (Forall
            (fun wi => reports_numbers (fst wi) /\ diskFails (snd wi) = false)
            a_ready_trace) as Hall.
  { unfold a_ready_trace.
    repeat (apply Forall_cons;
            [split; [exact world_reports_numbers|reflexivity]|]).
    apply Forall_nil. }
  assert (run a_ready_trace fresh = a_ready) as Hrun
    by (vm_compute; reflexivity).
  pose proof (accounts_file_never_stale a_ready_trace Hall) as H.
  cbv zeta in H. rewrite Hrun in H. destruct H as (_ & Hm & _ & Ha).
  refine (conj Hall (conj Hrun (conj _ _))).
  - rewrite Hm. vm_compute. reflexivity.
  - rewrite Ha. vm_compute. reflexivity.
Defined.


(** ** The active client is a session of the active account *)

Lemma held_same m m' k :
  heap m' = heap m -> held m k -> held m' k.
Proof.
  intros Hh. induction k; cbn [held]; auto. unfold read. now rewrite ?Hh.
Qed.

Lemma routed_same m m' :
  heap m' = heap m -> wired m' = wired m -> awaiting m' = awaiting m ->
  routed m -> routed m'.
Proof.
  intros Hh Hw Ha [Hr Hk]. split.
  - intros r c. unfold read. rewrite Hh, Hw. apply Hr.
  - rewrite Ha. eapply Forall_impl; [|exact Hk].
    intros k. now apply held_same.
Qed.

Lemma held_modify r f m k :
  (forall a, Account.id (f a) = Account.id a) ->
  held m k -> held (modify r f m) k.
Proof.
  intros Hi. induction k; cbn [held]; auto.
  rewrite length_heap_modify, id_read_modify by exact Hi. auto.
Qed.

Lemma routed_modify r f m :
  (forall a, Account.client (f a) = Account.client a) ->
  (forall a, Account.id (f a) = Account.id a) ->
  routed m -> routed (modify r f m).
Proof.
  intros Hc Hi [Hr Hk]. split.
  - intros r' c. rewrite id_read_modify by exact Hi.
    change (wired (modify r f m)) with (wired m).
    rewrite read_modify.
    destruct ((r' =? r)%nat && (r <? List.length (heap m))%nat) eqn:E.
    + rewrite Hc. apply andb_prop in E as [E _].
      apply Nat.eqb_eq in E as ->. apply Hr.
    + apply Hr.
  - change (awaiting (modify r f m)) with (awaiting m).
    eapply Forall_impl; [|exact Hk]. intros k. now apply held_modify.
Qed.

Lemma routed_saveAccountsConfig m : routed m -> routed (saveAccountsConfig m).
Proof.
  destruct (saveAccountsConfig_keeps m)
    as (Hh & _ & _ & Hw & _ & _ & Ha & _).
  now apply routed_same.
Qed.

Lemma routed_saveDeletedMessage d m :
  routed m -> routed (saveDeletedMessage d m).
Proof.
  apply routed_same; unfold saveDeletedMessage, saveDeletedMessages;
    destruct m; simpl; now destruct fsWritable0.
Qed.

Lemma routed_suspend k m : held m k -> routed m -> routed (suspend k m).
Proof.
  intros Hk [Hr Ha]. split; [exact Hr|].
  cbn [awaiting suspend set_awaiting]. apply Forall_app. split.
  - eapply Forall_impl; [|exact Ha]. intros k'. now apply held_same.
  - constructor; [|constructor]. revert Hk. now apply held_same.
Qed.

Lemma Forall_remove_nth {A} (P : A -> Prop) n l :
  Forall P l -> Forall P (remove_nth n l).
Proof.
  revert n. induction l as [|x rest IH]; intros [|n] H; simpl; auto;
    inversion H; subst; auto.
Qed.

Lemma routed_remove n m :
  routed m -> routed (set_awaiting (remove_nth n (awaiting m)) m).
Proof.
  intros [Hr Ha]. split; [exact Hr|].
  cbn [awaiting set_awaiting]. apply Forall_remove_nth.
  eapply Forall_impl; [|exact Ha]. intros k. now apply held_same.
Qed.

(** Goals [routed (...)] over compositions of the basic assignments that
    make no client and suspend nothing. *)
Ltac routed_auto :=
  repeat first
    [ assumption
    | apply routed_saveAccountsConfig
    | apply routed_saveDeletedMessage
    | apply routed_modify; [intros ?; reflexivity|intros ?; reflexivity|]
    | match goal with
      | |- routed (emit _ ?m) => apply (routed_same m); [reflexivity..|]
      | |- routed (setTimeout _ _ ?m) =>
          apply (routed_same m); [reflexivity..|]
      | |- routed (set_timers _ ?m) => apply (routed_same m); [reflexivity..|]
      | |- routed (set_authDirs _ ?m) =>
          apply (routed_same m); [reflexivity..|]
      | |- routed (set_fsWritable _ ?m) =>
          apply (routed_same m); [reflexivity..|]
      | |- routed (set_chatsCache _ _ ?m) =>
          apply (routed_same m); [reflexivity..|]
      | |- routed (set_activeAccountId _ ?m) =>
          apply (routed_same m); [reflexivity..|]
      | |- routed (set_accounts _ ?m) =>
          apply (routed_same m); [reflexivity..|]
      | |- routed (suspend (AfterLogout _) _) =>
          apply routed_suspend; [exact I|]
      | |- routed (suspend (AfterFetch _ _) _) =>
          apply routed_suspend; [exact I|]
      | |- routed (suspend (AfterProbe _ _ _) _) =>
          apply routed_suspend; [exact I|]
      | |- routed (suspend (AfterTeardown _) _) =>
          apply routed_suspend; [exact I|]
      | |- routed (suspend (AfterInitialize _ _ _) _) =>
          apply routed_suspend; [exact I|]
      end
    | progress cbn [fst snd]
    | break_match ].

(** A new object that holds no client. *)
Lemma routed_alloc a m :
  Account.client a = None -> routed m -> routed (snd (alloc a m)).
Proof.
  intros Hc [Hr Hk]. unfold alloc. cbn [snd]. split.
  - intros r c. unfold read. cbn [heap wired set_heap].
    destruct (Nat.lt_ge_cases r (List.length (heap m))) as [Hlt|Hge].
    + rewrite app_nth1 by exact Hlt. apply Hr.
    + rewrite app_nth2 by exact Hge.
      destruct (r - List.length (heap m))%nat as [|[|n]]; simpl;
        rewrite ?Hc; discriminate.
  - cbn [awaiting set_heap]. eapply Forall_impl; [|exact Hk].
    intros k. induction k; simpl; auto. intros [Hlt Hid]. unfold read.
    cbn [heap set_heap]. rewrite length_app, app_nth1 by exact Hlt.
    split; [lia|exact Hid].
Qed.

Lemma routed_createAccount name now random now' m :
  routed m -> routed (snd (createAccount name now random now' m)).
Proof.
  intros Hr. unfold createAccount.
  destruct (maxAccounts <=? JsMap.size (accounts m))%nat; [exact Hr|].
  match goal with
  | |- context [alloc ?a m] =>
      pose proof (routed_alloc a m eq_refl Hr) as Ha
  end.
  cbn [alloc fst snd] in *. routed_auto.
Qed.

Lemma routed_deleteAccount_commit accountId m :
  routed m -> routed (deleteAccount_commit accountId m).
Proof. intros Hr. unfold deleteAccount_commit. routed_auto. Qed.

Lemma routed_deleteAccount_end accountId rmThrows m :
  routed m -> routed (snd (deleteAccount_end accountId rmThrows m)).
Proof.
  intros Hr. unfold deleteAccount_end.
  destruct (existsb (String.eqb accountId) (authDirs m)), rmThrows;
    cbn [snd]; auto using routed_deleteAccount_commit.
Qed.

(** The client made by [initializeAccount] is wired to the object and the
    id the call holds. *)
Lemma routed_initializeAccount_connect account accountId ctorThrows
  switching m :
  (account < List.length (heap m))%nat ->
  Account.id (read account m) = accountId ->
  routed m ->
  routed
    (start (initializeAccount_connect account accountId ctorThrows switching
              m))
  /\ routed
       (snd (initializeAccount_connect account accountId ctorThrows
               switching m)).
Proof.
  intros Hlt Hid Hr. unfold initializeAccount_connect.
  destruct ctorThrows as [msg|]; cbn [start snd]; [split; routed_auto|].
  assert (routed
            (modify account
               (Account.set_client (Some (List.length (wired m))))
               (set_wired (wired m ++ [(account, accountId)]) m))) as H.
  { destruct Hr as [Hr Hk]. split.
    - intros r c. rewrite id_read_modify by (intros ?; reflexivity).
      change (read r (set_wired ?w m)) with (read r m).
      cbn [wired modify set_heap set_wired].
      destruct (Nat.eq_dec r account) as [->|Hne].
      + rewrite read_modify_same by exact Hlt. cbn [Account.client
          Account.set_client]. intros [= <-].
        rewrite nth_error_app2, Nat.sub_diag by lia. simpl. now rewrite Hid.
      + rewrite read_modify_other by exact Hne.
        change (read r (set_wired ?w m)) with (read r m).
        intros Hc. specialize (Hr r c Hc).
        rewrite nth_error_app1; [exact Hr|].
        apply nth_error_Some. now rewrite Hr.
    - cbn [awaiting modify set_heap set_wired].
      eapply Forall_impl; [|exact Hk]. intros k Hk'.
      apply held_modify; [intros ?; reflexivity|].
      revert Hk'. now apply held_same. }
  split; [apply routed_suspend; [exact I|exact H]|exact H].
Qed.

Lemma routed_initializeAccount_begin accountId ctorThrows switching m :
  wf m -> routed m ->
  routed (start (initializeAccount_begin accountId ctorThrows switching m))
  /\ routed (snd (initializeAccount_begin accountId ctorThrows switching m)).
Proof.
  intros Hwf Hr. unfold initializeAccount_begin.
  destruct (JsMap.get accountId (accounts m)) as [account|] eqn:Hget;
    [|split; exact Hr].
  assert ((account < List.length (heap m))%nat
          /\ Account.id (read account m) = accountId) as [Hlt Hid].
  { apply get_In in Hget. destruct Hwf as [_ He _].
    rewrite Forall_forall in He. now destruct (He _ Hget) as (? & ? & _). }
  destruct (Account.isInitializing (read account m)); [split; exact Hr|].
  cbv zeta.
  assert (routed (modify account (Account.set_isInitializing true) m)) as H1
    by routed_auto.
  destruct (Account.client
              (read account
                 (modify account (Account.set_isInitializing true) m))).
  - cbn [start snd]. split; [|exact H1].
    apply routed_suspend; [|exact H1]. cbn [held].
    rewrite length_heap_modify, id_read_modify by (intros ?; reflexivity).
    auto.
  - apply routed_initializeAccount_connect; auto.
    + now rewrite length_heap_modify.
    + now rewrite id_read_modify by (intros ?; reflexivity).
Qed.

Lemma routed_switchAccount_begin accountId ctorThrows m :
  Inv m -> routed m ->
  routed (start (switchAccount_begin accountId ctorThrows m)).
Proof.
  intros HI Hr. unfold switchAccount_begin.
  destruct (JsMap.get accountId (accounts m)) as [account|] eqn:Hget;
    [|exact Hr].
  assert (Js.truthy accountId = true) as Ht
    by (eapply get_truthy; eauto; apply HI).
  match goal with
  | |- context [set_activeAccountId (Some accountId) ?m1] =>
      assert (Inv m1) as HI1 by inv_auto;
      assert (routed m1) as H1 by routed_auto;
      assert (Inv (saveAccountsConfig (set_activeAccountId (Some accountId) m1))
              /\ routed
                   (saveAccountsConfig
                      (set_activeAccountId (Some accountId) m1))) as H3
        by (split;
            [ apply Inv_saveAccountsConfig, Inv_set_activeAccountId;
              [exact HI1 | now apply or_null_Some_truthy]
            | routed_auto ]);
      generalize dependent (saveAccountsConfig
                              (set_activeAccountId (Some accountId) m1))
  end.
  intros m3 [HI3 H3]. cbv zeta.
  destruct (needsInitialization (read account m3)).
  - destruct (routed_initializeAccount_begin accountId ctorThrows true m3
                (inv_wf _ HI3) H3) as [Hs Hb].
    destruct (initializeAccount_begin accountId ctorThrows true m3)
      as [[[r|e]|k] m4]; cbn [start snd] in *; routed_auto.
  - cbn [start]. routed_auto.
Qed.

Lemma routed_fixReadyState world account m :
  routed m -> routed (fixReadyState world account m).
Proof. intros Hr. unfold fixReadyState. cbv zeta. routed_auto. Qed.

Lemma routed_getAllAccounts world m :
  routed m -> routed (snd (getAllAccounts world m)).
Proof.
  unfold getAllAccounts. cbn [snd].
  generalize (JsMap.values (accounts m)). intros refs. revert m.
  induction refs as [|r rest IH]; intros m Hr; simpl; auto.
  apply IH, routed_fixReadyState, Hr.
Qed.

Lemma routed_handle account accountId view e m :
  routed m -> routed (handle account accountId view e m).
Proof.
  intros Hr. destruct e; simpl;
    unfold on_qr, on_loading_screen, on_ready, on_authenticated,
      on_auth_failure, on_disconnected, on_message, on_message_create,
      on_message_revoke_everyone, recordPhone; cbv zeta;
    routed_auto.
Qed.

Lemma routed_checkAndSetReady_begin accountId retryCount world m :
  routed m ->
  routed (start (checkAndSetReady_begin accountId retryCount world m)).
Proof.
  intros Hr. unfold checkAndSetReady_begin, retryLater.
  repeat first [progress cbn [start] | routed_auto].
Qed.

Lemma routed_runCallback cb world m :
  routed m -> routed (runCallback cb world m).
Proof.
  intros Hr. destruct cb; simpl.
  - destruct (negb _); auto. now apply routed_checkAndSetReady_begin.
  - unfold on_ready_settled. routed_auto.
  - now apply routed_checkAndSetReady_begin.
Qed.

Lemma routed_held_pending {A} (p : Progress A * t) k :
  routed (start p) -> fst p = Pending k -> held (snd p) k.
Proof.
  destruct p as [[r|k'] m1]; cbn [fst snd start]; [discriminate|].
  intros [_ Hk] [= ->]. cbn [awaiting suspend set_awaiting] in Hk.
  apply Forall_app in Hk as [_ Hk]. inversion Hk as [|? ? H _]; subst.
  revert H. now apply held_same.
Qed.

Lemma started_suspend k m :
  Inv m /\ routed m -> held m k -> Inv (suspend k m) /\ routed (suspend k m).
Proof.
  intros [HI Hr] Hk. split; [now apply Inv_suspend|now apply routed_suspend].
Qed.

Lemma started_initializeAccount_call accountId ctorThrows m :
  Inv m /\ routed m ->
  (Inv (snd (initializeAccount_begin accountId ctorThrows false m))
   /\ routed (snd (initializeAccount_begin accountId ctorThrows false m)))
  /\ forall k,
       fst (initializeAccount_begin accountId ctorThrows false m) = Pending k ->
       held (snd (initializeAccount_begin accountId ctorThrows false m)) k.
Proof.
  intros [HI Hr].
  destruct (routed_initializeAccount_begin accountId ctorThrows false m
              (inv_wf _ HI) Hr) as [Hs Hb].
  split; [split; [now apply Inv_initializeAccount_begin|exact Hb]|].
  intros k. now apply routed_held_pending.
Qed.

Lemma routed_initialize_loop rest ctorThrows m :
  Inv m -> routed m -> routed (initialize_loop rest ctorThrows m).
Proof.
  intros HI Hr.
  exact (proj2
           (startup_initialize_loop (fun x => Inv x /\ routed x) held
              started_suspend (fun _ _ _ _ H => H) (fun _ _ _ => I)
              started_initializeAccount_call rest ctorThrows m
              (conj HI Hr))).
Qed.

Lemma routed_initialize_next phase rest ctorThrows p :
  Inv (snd p) -> routed (snd p) ->
  (forall k, fst p = Pending k -> held (snd p) k) ->
  routed (initialize_next phase rest ctorThrows p).
Proof.
  intros HI Hr Hk.
  exact (proj2
           (startup_initialize_next (fun x => Inv x /\ routed x) held
              started_suspend (fun _ _ _ _ H => H) (fun _ _ _ => I)
              started_initializeAccount_call phase rest ctorThrows p
              (conj HI Hr) Hk)).
Qed.

Lemma routed_resume_initializeAccount k s ctorThrows m :
  held m k -> routed m ->
  routed (snd (resume_initializeAccount k s ctorThrows m))
  /\ forall k',
       fst (resume_initializeAccount k s ctorThrows m) = Pending k' ->
       held (snd (resume_initializeAccount k s ctorThrows m)) k'.
Proof.
  intros Hk Hr. destruct k; cbn [resume_initializeAccount fst snd];
    try (split; [exact Hr|discriminate]).
  - destruct Hk as [Hlt Hid].
    destruct (routed_initializeAccount_connect account accountId ctorThrows
                false m Hlt Hid Hr) as [Hs Hc].
    split; [exact Hc|]. intros k'. now apply routed_held_pending.
  - split; [unfold initializeAccount_end; routed_auto|discriminate].
Qed.

Lemma routed_resume k s ctorThrows world m :
  Inv m -> held m k -> routed m -> routed (resume k s ctorThrows world m).
Proof.
  intros HI Hk Hr. destruct k; cbn [resume].
  - now apply routed_deleteAccount_end.
  - destruct Hk as [Hlt Hid].
    destruct (routed_initializeAccount_connect account accountId ctorThrows
                switching m Hlt Hid Hr) as [Hs Hc].
    destruct (initializeAccount_connect account accountId ctorThrows
                switching m) as [[r|k'] m1]; cbn [start snd] in *;
      [|exact Hs].
    destruct switching; [|exact Hc].
    unfold switchAccount_end. routed_auto.
  - unfold switchAccount_end, initializeAccount_end. routed_auto.
  - unfold logoutAccount_end. routed_auto.
  - unfold getChats_end. cbv zeta. routed_auto.
  - unfold checkAndSetReady_end, retryLater, recordPhone. routed_auto.
  - cbn [held] in Hk.
    destruct (routed_resume_initializeAccount k s ctorThrows m Hk Hr)
      as [Hs Hp].
    apply routed_initialize_next; auto.
    now apply Inv_resume_initializeAccount.
  - now apply routed_initialize_loop.
Qed.

Lemma routed_initialize_begin now random now' ctorThrows m :
  Inv m -> routed m ->
  routed (start (initialize_begin now random now' ctorThrows m)).
Proof.
  intros HI Hr. unfold initialize_begin. cbv zeta.
  assert (forall id x, Inv x -> routed x ->
            routed (start (initializeAccount_begin id ctorThrows false x)))
    as Hinit
    by (intros id x Hx Hrx;
        now apply routed_initializeAccount_begin; [apply Hx|]).
  pose proof (routed_createAccount (Some "Main Account") now random now' m
                Hr) as Hc.
  pose proof (Inv_createAccount (Some "Main Account") now random now' m HI)
    as HIc.
  assert (Inv (saveAccountsConfig
                 (set_activeAccountId (JsMap.first_key (accounts m)) m)))
    as HIs.
  { apply Inv_saveAccountsConfig, Inv_set_activeAccountId; auto.
    apply first_key_truthy, HI. }
  assert (routed (saveAccountsConfig
                    (set_activeAccountId (JsMap.first_key (accounts m)) m)))
    as Hs by routed_auto.
  destruct (createAccount (Some "Main Account") now random now' m)
    as [[r|e] m1]; cbn [snd] in *;
    destruct (activeAccountId m) as [id|];
    repeat first [ apply Hinit | assumption | progress cbn [start]
                 | break_match ].
Qed.

Lemma routed_start_snd {A} (p : Progress A * t) :
  routed (start p) -> routed (snd p).
Proof.
  destruct p as [[r|k] m1]; cbn [start snd]; auto.
  intros [Hr Hk]. split; [exact Hr|].
  cbn [awaiting suspend set_awaiting] in Hk.
  apply Forall_app in Hk as [Hk _].
  eapply Forall_impl; [|exact Hk]. intros k'. now apply held_same.
Qed.

Lemma routed_initialize_begin_snd now random now' ctorThrows m :
  Inv m -> routed m ->
  routed (snd (initialize_begin now random now' ctorThrows m)).
Proof.
  intros HI Hr. now apply routed_start_snd, routed_initialize_begin.
Qed.

(** The constructor makes objects that hold no client. *)
Lemma loadAccounts_clients accs m :
  Forall (fun a => Account.client a = None) (heap m) ->
  Forall (fun a => Account.client a = None)
    (heap (fold_left (fun s acc => loadAccount acc s) accs m)).
Proof.
  revert m. induction accs as [|acc rest IH]; intros m H; simpl; auto.
  apply IH. unfold loadAccount. cbn [alloc heap set_accounts set_heap].
  apply Forall_app. split; [exact H|]. now constructor.
Qed.

Lemma routed_constructor config deleted dirs writable :
  routed (constructor config deleted dirs writable).
Proof.
  destruct (constructor_keeps config deleted dirs writable)
    as (_ & _ & _ & _ & _ & Ha & _).
  cbv zeta in Ha. split; [|rewrite Ha; constructor].
  assert (Forall (fun a => Account.client a = None)
            (heap (constructor config deleted dirs writable))) as H.
  { unfold constructor, loadDeletedMessages.
    match goal with
    | |- context [loadAccountsConfig ?b] =>
        assert (Forall (fun a => Account.client a = None)
                  (heap (loadAccountsConfig b))) as H
    end.
    { unfold loadAccountsConfig. cbn [configFile].
      destruct config as [| |data]; try constructor.
      destruct (cfg_accounts data); [|constructor].
      apply loadAccounts_clients. constructor. }
    match goal with
    | |- context [deletedMessagesFile ?x] => destruct (deletedMessagesFile x)
    end; exact H. }
  intros r c Hc. exfalso. unfold read in Hc.
  destruct (nth_in_or_default r
              (heap (constructor config deleted dirs writable)) blank)
    as [Hin|Hd].
  - rewrite Forall_forall in H. rewrite (H _ Hin) in Hc. discriminate.
  - rewrite Hd in Hc. discriminate.
Qed.

Lemma routed_step world i m :
  Inv m -> routed m -> routed (step world i m).
Proof.
  intros HI Hr. destruct i; cbn [step].
  - now apply routed_createAccount.
  - unfold deleteAccount_begin.
    repeat first [ progress cbn [start] | apply routed_deleteAccount_end
                 | routed_auto ].
  - unfold renameAccount. routed_auto.
  - apply routed_initializeAccount_begin; auto. apply HI.
  - now apply routed_switchAccount_begin.
  - unfold logoutAccount_begin. routed_auto.
  - now apply routed_getAllAccounts.
  - unfold getAccountStatus.
    destruct (JsMap.get accountId (accounts m)); cbn [snd]; auto.
    now apply routed_fixReadyState.
  - unfold getChats_begin. routed_auto.
  - pose proof (routed_initialize_begin now random now' ctorThrows m HI Hr)
      as Hs.
    unfold initialize. apply routed_initialize_next.
    + now apply Inv_initialize_begin.
    + now apply routed_initialize_begin_snd.
    + intros k. now apply routed_held_pending.
  - destruct (nth_error (wired m) client) as [[account accountId]|]; auto.
    now apply routed_handle.
  - destruct (nth_error (timers m) n); auto.
    apply routed_runCallback. routed_auto.
  - destruct (nth_error (awaiting m) n) as [k|] eqn:Hn; auto.
    apply routed_resume; [auto with inv| |now apply routed_remove].
    apply nth_error_In in Hn. destruct Hr as [_ Hk].
    rewrite Forall_forall in Hk. specialize (Hk k Hn).
    revert Hk. now apply held_same.
  - routed_auto.
  - routed_auto.
  - apply routed_constructor.
Qed.

Lemma routed_reachable trace : routed (run trace fresh).
Proof.
  unfold run.
  assert (forall m, Inv m -> routed m ->
            routed (fold_left (fun s wi => step (fst wi) (snd wi) s) trace m))
    as H.
  { induction trace as [|[world i] rest IH]; intros m HI Hr; simpl; auto.
    apply IH; [now apply Inv_step|now apply routed_step]. }
  apply H; [apply Inv_fresh|apply routed_constructor].
Qed.

(** X2.  The active client is a session of the active account.  In every
    state the event loop reaches from a fresh installation, the client that
    [getActiveClient] answers, and to which [getChatById], [sendMessage],
    [getContactById], [getMessages] and [getContactInfo] hand their call, is
    a client that [initializeAccount] made for the account the active
    pointer names, under that account's id; and when there is no such
    client, each of these methods throws 'No active client'. *)
Theorem active_client_serves_active_account :
  forall (trace : list (World * Input)) (chatId content contactId : string),
    let s := run trace fresh in
    match getActiveClient s with
    | Some client =>
        (exists account id,
            activeAccountId s = Some id
            /\ JsMap.get id (accounts s) = Some account
            /\ Account.client (read account s) = Some client
            /\ nth_error (wired s) client = Some (account, id))
        /\ getChatById chatId s = Returns client
        /\ sendMessage chatId content s = Returns client
        /\ getContactById contactId s = Returns client
        /\ getMessages chatId s = Returns client
        /\ getContactInfo contactId s = Returns client
    | None =>
        getChatById chatId s = Throws NoActiveSession
        /\ sendMessage chatId content s = Throws NoActiveSession
        /\ getContactById contactId s = Throws NoActiveSession
        /\ getMessages chatId s = Throws NoActiveSession
        /\ getContactInfo contactId s = Throws NoActiveSession
    end.
Proof.
  intros trace chatId content contactId s.
  pose proof (inv_wf _ (Inv_reachable trace)) as Hwf.
  pose proof (routed_reachable trace) as [Hr _].
  fold s in Hwf, Hr.
  unfold getChatById, sendMessage, getContactById, getMessages,
    getContactInfo, requireActiveClient.
  destruct (getActiveClient s) as [client|] eqn:Hc; [|repeat split].
  split; [|repeat split].
  unfold getActiveClient, getActiveAccount in Hc.
  destruct (activeAccountId s) as [id|] eqn:Hact; [|discriminate].
  destruct (Js.truthy id); [|discriminate].
  destruct (JsMap.get id (accounts s)) as [account|] eqn:Hget;
    [|discriminate].
  exists account, id. refine (conj eq_refl (conj Hget (conj Hc _))).
  rewrite (Hr account client Hc). f_equal. f_equal.
  apply get_In in Hget. destruct Hwf as [_ He _].
  rewrite Forall_forall in He. now destruct (He _ Hget) as (_ & ? & _).
Qed.


(** ** The ledger of deleted messages along the runs *)

Lemma deletedMessages_saveAccountsConfig m :
  deletedMessages (saveAccountsConfig m) = deletedMessages m.
Proof. unfold saveAccountsConfig. now destruct (fsWritable m). Qed.

Lemma deletedMessagesFile_saveAccountsConfig m :
  deletedMessagesFile (saveAccountsConfig m) = deletedMessagesFile m.
Proof. unfold saveAccountsConfig. now destruct (fsWritable m). Qed.

(** Goals that a field the basic assignments do not write is the same
    after a composition of them. *)
Ltac frame_auto :=
  repeat first
    [ reflexivity
    | assumption
    | progress rewrite ?deletedMessages_saveAccountsConfig,
        ?deletedMessagesFile_saveAccountsConfig,
        ?fsWritable_saveAccountsConfig
    | progress unfold ledger
    | progress cbn [fst snd start alloc modify emit setTimeout suspend
                    deletedMessages deletedMessagesFile fsWritable
                    set_heap set_accounts set_activeAccountId
                    set_chatsCache set_configFile set_authDirs set_wired
                    set_timers set_awaiting set_emitted set_fsWritable]
    | break_match ].

Ltac unfold_methods :=
  unfold resume, runCallback, handle, initialize_begin, getAccountStatus,
    switchAccount_begin, switchAccount_end, createAccount,
    deleteAccount_begin, deleteAccount_end, deleteAccount_commit,
    renameAccount,
    initializeAccount_begin, initializeAccount_connect,
    initializeAccount_end, logoutAccount_begin, logoutAccount_end,
    fixReadyState, getChats_begin, getChats_end, on_qr, on_loading_screen,
    on_ready, on_ready_settled, on_authenticated, on_auth_failure,
    on_disconnected, on_message, on_message_create,
    on_message_revoke_everyone, checkAndSetReady_begin,
    checkAndSetReady_end, retryLater, recordPhone;
  cbv zeta.

Lemma ledger_getAllAccounts world m :
  ledger (snd (getAllAccounts world m)) = ledger m
  /\ fsWritable (snd (getAllAccounts world m)) = fsWritable m.
Proof.
  unfold getAllAccounts. cbn [snd].
  generalize (JsMap.values (accounts m)). intros refs. revert m.
  induction refs as [|r rest IH]; intros m; simpl; auto.
  destruct (IH (fixReadyState world r m)) as [-> ->].
  unfold fixReadyState. cbv zeta. split; frame_auto.
Qed.

Lemma framed_trans m0 m1 m2 : framed m0 m1 -> framed m1 m2 -> framed m0 m2.
Proof. unfold framed. intros [-> ->] [-> ->]. auto. Qed.

Lemma framed_suspend m0 k m : framed m0 m -> framed m0 (suspend k m).
Proof. intros H. exact H. Qed.

Lemma framed_initializeAccount_begin accountId ctorThrows switching m :
  framed m (snd (initializeAccount_begin accountId ctorThrows switching m)).
Proof. split; unfold_methods; frame_auto. Qed.

Lemma framed_initializeAccount_call m0 accountId ctorThrows m :
  framed m0 m ->
  framed m0 (snd (initializeAccount_begin accountId ctorThrows false m))
  /\ forall k,
       fst (initializeAccount_begin accountId ctorThrows false m) = Pending k ->
       True.
Proof.
  intros H. split; auto.
  eapply framed_trans; [exact H|apply framed_initializeAccount_begin].
Qed.

Lemma framed_initialize_loop rest ctorThrows m :
  framed m (initialize_loop rest ctorThrows m).
Proof.
  apply (startup_initialize_loop (framed m) (fun _ _ => True)
           (fun k m1 H _ => framed_suspend m k m1 H)
           (fun _ _ _ _ _ => I) (fun _ _ _ => I)
           (framed_initializeAccount_call m) rest ctorThrows m).
  split; reflexivity.
Qed.

Lemma framed_initialize_next m0 phase rest ctorThrows p :
  framed m0 (snd p) -> framed m0 (initialize_next phase rest ctorThrows p).
Proof.
  intros H.
  exact (startup_initialize_next (framed m0) (fun _ _ => True)
           (fun k m1 H _ => framed_suspend m0 k m1 H)
           (fun _ _ _ _ _ => I) (fun _ _ _ => I)
           (framed_initializeAccount_call m0) phase rest ctorThrows p H
           (fun _ _ => I)).
Qed.

Lemma framed_initialize now random now' ctorThrows m :
  framed m (initialize now random now' ctorThrows m).
Proof.
  unfold initialize. apply framed_initialize_next.
  split; unfold_methods; frame_auto.
Qed.

Lemma framed_resume k s ctorThrows world m :
  framed m (resume k s ctorThrows world m).
Proof.
  destruct k; cbn [resume];
    try (split; unfold_methods; frame_auto; fail).
  - apply framed_initialize_next.
    destruct k; cbn [resume_initializeAccount snd];
      split; unfold_methods; frame_auto.
  - apply framed_initialize_loop.
Qed.

(** What writes the ledger: nothing but a retraction event and the reload
    at a restart. *)
Lemma ledger_step world i m :
  touchesLedger i = false -> ledger (step world i m) = ledger m.
Proof.
  intros Ht. destruct i; try discriminate; cbn [step].
  13: { destruct (nth_error (awaiting m) n) as [k|]; [|reflexivity].
        apply (framed_resume k s ctorThrows world
                 (set_awaiting (remove_nth n (awaiting m)) m)). }
  11: { destruct e; try (destruct revokedMsg; [discriminate|]);
        unfold_methods; frame_auto. }
  10: apply framed_initialize.
  7: apply ledger_getAllAccounts.
  all: unfold_methods; frame_auto.
Qed.

Lemma fsWritable_restart m : fsWritable (restart m) = fsWritable m.
Proof.
  apply (constructor_keeps (configFile m) (deletedMessagesFile m)
           (authDirs m) (fsWritable m)).
Qed.

Lemma fsWritable_step world i m :
  diskFails i = false -> fsWritable m = true ->
  fsWritable (step world i m) = true.
Proof.
  intros Hd Hw. destruct i; cbn [step].
  16: now rewrite fsWritable_restart.
  15: { destruct writable; [reflexivity|discriminate]. }
  13: { destruct (nth_error (awaiting m) n) as [k|]; [|exact Hw].
        now rewrite (proj2 (framed_resume k s ctorThrows world
                              (set_awaiting (remove_nth n (awaiting m)) m))). }
  11: { destruct (nth_error (wired m) client) as [[account accountId]|];
          [|exact Hw].
        destruct e; unfold_methods;
          rewrite ?fsWritable_saveDeletedMessage; frame_auto;
          rewrite ?fsWritable_saveDeletedMessage; frame_auto. }
  10: now rewrite (proj2 (framed_initialize now random now' ctorThrows m)).
  7: now rewrite (proj2 (ledger_getAllAccounts world m)).
  all: unfold_methods; frame_auto.
Qed.

(** Reloading a ledger whose ids are distinct gives the ledger back. *)
Lemma load_entries (l acc : JsMap.t DeletedMessage.t) :
  NoDup (JsMap.keys acc ++ JsMap.keys l) ->
  fold_left (fun a kv => JsMap.set (fst kv) (snd kv) a) l acc = acc ++ l.
Proof.
  revert acc. induction l as [|[k v] rest IH]; intros acc Hnd; simpl.
  - now rewrite app_nil_r.
  - simpl in Hnd. rewrite set_absent.
    + rewrite IH.
      * now rewrite <- app_assoc.
      * unfold JsMap.keys in *. rewrite map_app. simpl.
        rewrite <- app_assoc. exact Hnd.
    + apply has_false_not_In. apply NoDup_remove_2 in Hnd.
      intros Hin. apply Hnd. apply in_or_app. now left.
Qed.

Lemma ledger_restart m :
  ledger_synced m -> ledger (restart m) = ledger m.
Proof.
  intros [Hnd Hf]. unfold ledger, restart, constructor.
  match goal with
  | |- context [loadAccountsConfig ?b] =>
      destruct (loadAccountsConfig_keeps b) as (_ & Hd & _ & _ & Hl & _);
      remember (loadAccountsConfig b) as x eqn:Hx
  end.
  clear Hx. cbn [deletedMessagesFile deletedMessages] in Hd, Hl.
  unfold loadDeletedMessages. rewrite Hd.
  destruct Hf as [HJ|[HA HE]].
  - rewrite HJ.
    cbn [deletedMessages deletedMessagesFile set_deletedMessages].
    rewrite Hd, HJ, load_entries; [reflexivity|exact Hnd].
  - rewrite HA, Hl, Hd, HA, HE. reflexivity.
Qed.

Lemma ledger_synced_same m m' :
  ledger m' = ledger m -> ledger_synced m -> ledger_synced m'.
Proof.
  unfold ledger, ledger_synced. intros [= -> ->]. auto.
Qed.

Lemma ledger_synced_revoke accountId message revoked now m :
  fsWritable m = true -> ledger_synced m ->
  ledger_synced
    (on_message_revoke_everyone accountId message (Some revoked) now m).
Proof.
  intros Hw [Hnd _].
  unfold on_message_revoke_everyone, saveDeletedMessage, saveDeletedMessages.
  cbn [fsWritable set_deletedMessages]. rewrite Hw.
  split; cbn [deletedMessages deletedMessagesFile emit set_emitted
              set_deletedMessagesFile set_deletedMessages].
  - now apply NoDup_keys_set.
  - now left.
Qed.

Lemma ledger_synced_step world i m :
  fsWritable m = true -> ledger_synced m -> ledger_synced (step world i m).
Proof.
  intros Hw Hl. destruct (touchesLedger i) eqn:Ht.
  - destruct i; try discriminate.
    + destruct e; try discriminate. destruct revokedMsg; [|discriminate].
      cbn [step].
      destruct (nth_error (wired m) client) as [[account accountId]|];
        [|exact Hl].
      cbn [handle]. now apply ledger_synced_revoke.
    + cbn [step].
      apply (ledger_synced_same m); [now apply ledger_restart|exact Hl].
  - apply (ledger_synced_same m); [now apply ledger_step|exact Hl].
Qed.

Lemma ledger_synced_run trace :
  Forall (fun wi => diskFails (snd wi) = false) trace ->
  fsWritable (run trace fresh) = true /\ ledger_synced (run trace fresh).
Proof.
  intros Hall. unfold run.
  assert (forall m, fsWritable m = true -> ledger_synced m ->
            let m' :=
              fold_left (fun s wi => step (fst wi) (snd wi) s) trace m in
            fsWritable m' = true /\ ledger_synced m') as H.
  { induction Hall as [|[world i] rest Hd Hrest IH]; intros m Hw Hl; simpl;
      auto.
    apply IH; [now apply fsWritable_step|now apply ledger_synced_step]. }
  apply H; [reflexivity|].
  split; [constructor|right; split; reflexivity].
Qed.

(** X3.  Deleted messages survive a restart.  Along every run of the event
    loop from a fresh installation in which the disk accepts writes, the
    file of deleted messages holds the ledger at every moment between two
    runs of the manager; so after a restart at that moment every id has the
    record it had, and [getDeletedMessagesForChat] answers, for every chat,
    the records it answered before. *)
Theorem deleted_messages_survive_restart :
  forall trace : list (World * Input),
    Forall (fun wi => diskFails (snd wi) = false) trace ->
    let s := run trace fresh in
    (forall id,
        JsMap.get id (deletedMessages (restart s)) =
        JsMap.get id (deletedMessages s))
    /\ (forall chatId r,
          In r (getDeletedMessagesForChat chatId (restart s)) <->
          In r (getDeletedMessagesForChat chatId s)).
Proof.
  intros trace Hall s.
  destruct (ledger_synced_run trace Hall) as [_ Hl]. fold s in Hl.
  pose proof (ledger_restart s Hl) as Hr. unfold ledger in Hr.
  injection Hr as Hd _. unfold getDeletedMessagesForChat. rewrite Hd.
  split; [reflexivity|tauto].
Qed.

Lemma deleted_messages_survive_restart_witness :
  Forall (fun wi => diskFails (snd wi) = false) retraction_trace
  /\ JsMap.keys (deletedMessages (run retraction_trace fresh)) =
     ["false_15550001111@c.us_3EB0A1"]
  /\ (forall r,
        In r (getDeletedMessagesForChat "15550001111@c.us"
                (restart (run retraction_trace fresh))) <->
        In r (getDeletedMessagesForChat "15550001111@c.us"
                (run retraction_trace fresh))).
Proof.
  assert (Forall (fun wi => diskFails (snd wi) = false) retraction_trace)
    as Hall.
  { unfold retraction_trace, a_ready_trace. simpl.
    repeat (apply Forall_cons; [reflexivity|]). apply Forall_nil. }
  pose proof (deleted_messages_survive_restart retraction_trace Hall) as H.
  cbv zeta in H. destruct H as [_ Hin].
  refine (conj Hall (conj _ _)).
  - vm_compute. reflexivity.
  - intros r. apply Hin.
Defined.

(** X4.  A retraction is recorded and found again.  When a client reports
    that a message was retracted for everyone and hands over the retracted
    message, the handler stores one record under the id of the retracted
    message, replacing any record of that id: the record carries the
    retracted body (or "[Media]" when the body is empty), type "revoked",
    the account id of the session and the moment of the retraction.
    [getDeletedMessagesForChat] lists the record under the sender of the
    retraction notice, or its addressee when it has no sender; a record
    whose notice has neither is stored but listed for no chat.  Without a
    retracted message the ledger is left alone.  In both cases exactly one
    [message_revoked] event is emitted. *)
Theorem retraction_is_recorded_and_listed :
  forall (accountId : string) (message revoked : Message) (now : Z) (m : t),
    let m' :=
      on_message_revoke_everyone accountId message (Some revoked) now m in
    let record :=
      {| DeletedMessage.id := msg_id revoked;
         DeletedMessage.chatId :=
           match msg_from message with
           | Some from => if Js.truthy from then Some from else msg_to message
           | None => msg_to message
           end;
         DeletedMessage.body :=
           if Js.truthy (msg_body revoked) then msg_body revoked
           else "[Media]";
         DeletedMessage.timestamp := msg_timestamp revoked;
         DeletedMessage.fromMe := msg_fromMe revoked;
         DeletedMessage.author := Js.or_null (msg_author revoked);
         DeletedMessage.type := "revoked";
         DeletedMessage.hasMedia := msg_hasMedia revoked;
         DeletedMessage.deletedAt := now;
         DeletedMessage.originalType := msg_type revoked;
         DeletedMessage.accountId := accountId |} in
    JsMap.get (msg_id revoked) (deletedMessages m') = Some record
    /\ (forall id, id <> msg_id revoked ->
          JsMap.get id (deletedMessages m') = JsMap.get id (deletedMessages m))
    /\ match DeletedMessage.chatId record with
       | Some chatId => In record (getDeletedMessagesForChat chatId m')
       | None => forall chatId, ~ In record (getDeletedMessagesForChat chatId m')
       end
    /\ emitted m' =
       emitted m ++ [ev_message_revoked accountId message (Some revoked)]
    /\ deletedMessages
         (on_message_revoke_everyone accountId message None now m)
       = deletedMessages m
    /\ emitted (on_message_revoke_everyone accountId message None now m) =
       emitted m ++ [ev_message_revoked accountId message None].
Proof.
  intros accountId message revoked now m m' record.
  assert (deletedMessages m' =
          JsMap.set (msg_id revoked) record (deletedMessages m)) as Hd.
  { unfold m', on_message_revoke_everyone.
    rewrite deletedMessages_emit, deletedMessages_saveDeletedMessage.
    cbn [DeletedMessage.id]. f_equal. unfold record, or_else, Js.or_null,
      Js.or_default.
    destruct (msg_from message) as [from|]; [destruct (Js.truthy from)|];
      reflexivity. }
  assert (JsMap.get (msg_id revoked) (deletedMessages m') = Some record)
    as Hget by (rewrite Hd; apply get_set_same).
  assert (emitted m' =
          emitted m ++ [ev_message_revoked accountId message (Some revoked)])
    as He.
  { unfold m', on_message_revoke_everyone, saveDeletedMessage,
      saveDeletedMessages.
    cbn [fsWritable set_deletedMessages]. now destruct (fsWritable m). }
  refine (conj Hget (conj _ (conj _ (conj He (conj eq_refl eq_refl))))).
  - intros id Hne. rewrite Hd. apply get_set_other. congruence.
  - destruct (DeletedMessage.chatId record) as [chatId|] eqn:Hc.
    + unfold getDeletedMessagesForChat. rewrite collectForChat_filter.
      apply filter_In. split.
      * apply get_In in Hget. unfold JsMap.values.
        change record with (snd (msg_id revoked, record)).
        now apply in_map.
      * rewrite Hc. simpl. apply String.eqb_refl.
    + intros chatId. unfold getDeletedMessagesForChat.
      rewrite collectForChat_filter, filter_In, Hc. simpl.
      intros [_ H]. discriminate.
Qed.

Lemma has_set_keeps {V} k k' (v : V) (m : JsMap.t V) :
  JsMap.has k m = true -> JsMap.has k (JsMap.set k' v m) = true.
Proof.
  rewrite !has_In_keys, keys_set.
  destruct (JsMap.has k' m); auto. intros H. apply in_or_app. now left.
Qed.

(** X5.  Nothing drops a deleted-message record while the process lives.
    Every input of the event loop other than a restart keeps each id the
    ledger holds; every input other than a restart or a retraction event
    that carries the retracted message leaves the ledger and its file
    exactly as they are.  Deleting an account, logging it out or switching
    away from it therefore leaves its records in the ledger, and
    [getDeletedMessagesForChat] goes on listing them. *)
Theorem ledger_is_only_written_by_retractions :
  forall (world : World) (i : Input) (m : t),
    match i with
    | ProcessRestarts => True
    | _ =>
        (forall id,
            JsMap.has id (deletedMessages m) = true ->
            JsMap.has id (deletedMessages (step world i m)) = true)
        /\ (touchesLedger i = false ->
            deletedMessages (step world i m) = deletedMessages m
            /\ deletedMessagesFile (step world i m) = deletedMessagesFile m
            /\ forall chatId,
                 getDeletedMessagesForChat chatId (step world i m) =
                 getDeletedMessagesForChat chatId m)
    end.
Proof.
  intros world i m.
  assert (touchesLedger i = false ->
          deletedMessages (step world i m) = deletedMessages m
          /\ deletedMessagesFile (step world i m) = deletedMessagesFile m
          /\ forall chatId,
               getDeletedMessagesForChat chatId (step world i m) =
               getDeletedMessagesForChat chatId m) as Hframe.
  { intros Ht. pose proof (ledger_step world i m Ht) as H.
    unfold ledger in H. injection H as Hd Hf.
    unfold getDeletedMessagesForChat. rewrite Hd, Hf. auto. }
  assert (touchesLedger i = false ->
          forall id,
            JsMap.has id (deletedMessages m) = true ->
            JsMap.has id (deletedMessages (step world i m)) = true) as Hkeep.
  { intros Ht id. now rewrite (proj1 (Hframe Ht)). }
  destruct i; try (split; [now apply Hkeep|exact Hframe]); [|exact I].
  split; [|exact Hframe].
  destruct e; try (now apply Hkeep).
  destruct revokedMsg as [revoked|]; [|now apply Hkeep].
  intros id Hid. cbn [step].
  destruct (nth_error (wired m) client) as [[account accountId]|];
    [|exact Hid].
  cbn [handle]. unfold on_message_revoke_everyone.
  rewrite deletedMessages_emit, deletedMessages_saveDeletedMessage.
  now apply has_set_keeps.
Qed.


(** ** The operations on the account store, one by one *)

Section MoreJsMapFacts.
Context {V : Type}.
Implicit Types (m : JsMap.t V) (k : string) (v : V).

Lemma get_delete_other k k' m :
  k <> k' -> JsMap.get k' (JsMap.delete k m) = JsMap.get k' m.
Proof.
  intros Hne. induction m as [|[k0 v0] rest IH]; simpl; auto.
  destruct (String.eqb_spec k0 k) as [->|Hk].
  - destruct (String.eqb_spec k k'); [contradiction|reflexivity].
  - simpl. now rewrite IH.
Qed.

Lemma has_delete_same k m :
  NoDup (JsMap.keys m) -> JsMap.has k (JsMap.delete k m) = false.
Proof. intros H. now apply has_false_not_In, not_In_keys_delete. Qed.

Lemma size_delete k m :
  JsMap.has k m = true ->
  JsMap.size (JsMap.delete k m) = pred (JsMap.size m).
Proof.
  unfold JsMap.has, JsMap.size.
  induction m as [|[k0 v0] rest IH]; simpl; [discriminate|].
  destruct (String.eqb k0 k); [reflexivity|].
  intros H. simpl. rewrite IH by exact H.
  destruct rest; [discriminate|reflexivity].
Qed.

Lemma delete_absent k m : JsMap.has k m = false -> JsMap.delete k m = m.
Proof.
  unfold JsMap.has.
  induction m as [|[k0 v0] rest IH]; simpl; auto.
  destruct (String.eqb k0 k); [discriminate|].
  intros H. now rewrite IH.
Qed.

End MoreJsMapFacts.

Lemma deleteAccount_commit_rest accountId m :
  let m' := deleteAccount_commit accountId m in
  authDirs m' = filter (fun d => negb (String.eqb d accountId)) (authDirs m)
  /\ emitted m' = emitted m ++ [ev_account_deleted accountId]
  /\ timers m' = timers m /\ wired m' = wired m /\ awaiting m' = awaiting m.
Proof.
  unfold deleteAccount_commit, saveAccountsConfig. cbv zeta.
  repeat break_match; repeat split.
Qed.

(** X6.  [deleteAccount] removes exactly one account, or nothing.  For an
    id the map does not hold it throws 'Account not found' and changes
    nothing.  Otherwise, once the client (if any) is torn down, the method
    removes the credential directory of the account if there is one: when
    [fs.rmSync] throws on it, [deleteAccount] throws that error and nothing
    is deleted, neither the entry of the map nor the directory, the active
    pointer stays, nothing is saved and no event is emitted.  When there is
    no directory or [rmSync] succeeds, the id is gone from the map and its
    credential directory from the disk, every other entry and every account
    object is as before, the count drops by one, the active pointer stays
    unless it named the deleted account, and one [account_deleted] event is
    emitted.  Timers, suspended methods and the handlers of the clients
    made so far are left in place.  A deletion that was suspended at the
    teardown of its client goes on in the same way. *)
Theorem deleteAccount_removes_one_account :
  forall (m : t) (accountId : string) (rmThrows : option string),
    wf m ->
    (JsMap.has accountId (accounts m) = false ->
     deleteAccount accountId rmThrows m = (Throws NotFound, m)
     /\ deleteAccount_begin accountId rmThrows m =
        (Settled (Throws NotFound), m))
    /\ (JsMap.has accountId (accounts m) = true ->
        deleteAccount accountId rmThrows m =
        deleteAccount_end accountId rmThrows m)
    /\ (forall s world,
          resume (AfterTeardown accountId) s rmThrows world m =
          snd (deleteAccount_end accountId rmThrows m))
    /\ deleteAccount_end accountId rmThrows m =
       match rmThrows with
       | Some message =>
           if existsb (String.eqb accountId) (authDirs m)
           then (Throws (FileSystemError message), m)
           else (Returns tt, deleteAccount_commit accountId m)
       | None => (Returns tt, deleteAccount_commit accountId m)
       end
    /\ let m' := deleteAccount_commit accountId m in
       JsMap.has accountId (accounts m') = false
       /\ (forall k, k <> accountId ->
             JsMap.get k (accounts m') = JsMap.get k (accounts m))
       /\ heap m' = heap m
       /\ (JsMap.has accountId (accounts m) = true ->
           S (JsMap.size (accounts m')) = JsMap.size (accounts m))
       /\ (forall d, In d (authDirs m') <-> In d (authDirs m) /\ d <> accountId)
       /\ (activeAccountId m <> Some accountId ->
           activeAccountId m' = activeAccountId m)
       /\ emitted m' = emitted m ++ [ev_account_deleted accountId]
       /\ timers m' = timers m /\ wired m' = wired m
       /\ awaiting m' = awaiting m.
Proof.
  intros m accountId rmThrows Hwf.
  refine (conj _ (conj _ (conj _ (conj _ _)))).
  - intros Hhas. unfold deleteAccount, deleteAccount_begin.
    unfold JsMap.has in Hhas.
    destruct (JsMap.get accountId (accounts m)); [discriminate|].
    split; reflexivity.
  - intros Hhas. now apply deleteAccount_is_end.
  - reflexivity.
  - unfold deleteAccount_end.
    now destruct (existsb (String.eqb accountId) (authDirs m)), rmThrows.
  - intros m'.
    destruct (deleteAccount_commit_spec accountId m Hwf) as (Ha & Hh & Hp).
    destruct (deleteAccount_commit_rest accountId m)
      as (Hd & He & Ht & Hw & Haw).
    fold m' in Ha, Hh, Hp, Hd, He, Ht, Hw, Haw.
    refine (conj _ (conj _ (conj Hh (conj _ (conj _ (conj _
              (conj He (conj Ht (conj Hw Haw))))))))).
    + rewrite Ha. apply has_delete_same, Hwf.
    + intros k Hne. rewrite Ha. apply get_delete_other. congruence.
    + intros Hhas. rewrite Ha, (size_delete _ _ Hhas).
      unfold JsMap.has, JsMap.size in *.
      destruct (accounts m); [discriminate|reflexivity].
    + intros d. rewrite Hd, filter_In.
      destruct (String.eqb_spec d accountId); simpl; intuition congruence.
    + intros Hne. rewrite Hp.
      destruct (Js.strict_eq (activeAccountId m) accountId) eqn:E; auto.
      apply strict_eq_true in E. contradiction.
Qed.

Lemma deleteAccount_removes_one_account_witness :
  wf b_has_session
  /\ deleteAccount idB (Some "EBUSY: resource busy or locked, rmdir")
       b_has_session
     = (Throws (FileSystemError "EBUSY: resource busy or locked, rmdir"),
        b_has_session)
  /\ JsMap.keys (accounts (snd (deleteAccount idB None b_has_session)))
     = [idA]
  /\ authDirs (snd (deleteAccount idB None b_has_session)) = []
  /\ deleteAccount "acc_0_unknown" None b_has_session
     = (Throws NotFound, b_has_session).
Proof.
  assert (wf b_has_session) as Hwf by (apply wfb_wf; vm_compute; reflexivity).
  pose proof (deleteAccount_removes_one_account b_has_session "acc_0_unknown"
                None Hwf) as (Hmissing & _).
  pose proof (deleteAccount_removes_one_account b_has_session idB
                (Some "EBUSY: resource busy or locked, rmdir") Hwf)
    as (_ & Hsame & _ & Hend & _).
  refine (conj Hwf (conj _ (conj _ (conj _ _)))).
  - rewrite Hsame, Hend by (vm_compute; reflexivity).
    vm_compute. reflexivity.
  - vm_compute. reflexivity.
  - vm_compute. reflexivity.
  - apply Hmissing. vm_compute. reflexivity.
Defined.

(** X7.  [renameAccount] renames exactly one account.  For an id the map
    does not hold it throws 'Account not found' and changes nothing.
    Otherwise the account object of that id gets the new name, whatever it
    is (the empty string included), and keeps everything else; every other
    account object, the map and the active pointer are as before; the new
    name is what the accounts file holds when the write succeeds; and one
    [account_renamed] event is emitted. *)
Theorem renameAccount_renames_one_account :
  forall (m : t) (accountId newName : string),
    wf m ->
    match JsMap.get accountId (accounts m) with
    | None => renameAccount accountId newName m = (Throws NotFound, m)
    | Some account =>
        let m' := snd (renameAccount accountId newName m) in
        fst (renameAccount accountId newName m) = Returns tt
        /\ read account m' = Account.set_name newName (read account m)
        /\ (forall r, r <> account -> read r m' = read r m)
        /\ accounts m' = accounts m
        /\ activeAccountId m' = activeAccountId m
        /\ emitted m' = emitted m ++ [ev_account_renamed accountId newName]
        /\ (fsWritable m = true ->
            configFile m' =
              Json {| cfg_activeAccountId := activeAccountId m;
                      cfg_accounts := Some (map meta_of (account_values m')) |}
            /\ In (newName, accountId)
                 (map (fun a => (meta_name a, meta_id a))
                    (map meta_of (account_values m'))))
    end.
Proof.
  intros m accountId newName Hwf. unfold renameAccount.
  destruct (JsMap.get accountId (accounts m)) as [account|] eqn:Hget;
    [|reflexivity].
  cbn [fst snd].
  assert ((account < List.length (heap m))%nat
          /\ Account.id (read account m) = accountId) as [Hlt Hid].
  { apply get_In in Hget. destruct Hwf as [_ He _].
    rewrite Forall_forall in He. now destruct (He _ Hget) as (? & ? & _). }
  set (m1 := modify account (Account.set_name newName) m).
  destruct (saveAccountsConfig_keeps m1) as (Hh & Ha & Hp & _ & He & _).
  assert (forall r, read r (emit (ev_account_renamed accountId newName)
                             (saveAccountsConfig m1)) = read r m1) as Hread
    by (intros r; unfold read; cbn [heap emit set_emitted]; now rewrite Hh).
  refine (conj eq_refl (conj _ (conj _ (conj Ha (conj Hp (conj _ _)))))).
  - rewrite Hread. now apply read_modify_same.
  - intros r Hne. rewrite Hread. now apply read_modify_other.
  - cbn [emitted emit set_emitted]. now rewrite He.
  - intros Hw.
    assert (account_values
              (emit (ev_account_renamed accountId newName)
                 (saveAccountsConfig m1)) = account_values m1) as Hv.
    { unfold account_values. cbn [accounts emit set_emitted]. rewrite Ha.
      apply map_ext. intros r. apply Hread. }
    rewrite Hv. split.
    + unfold saveAccountsConfig.
      change (fsWritable m1) with (fsWritable m). rewrite Hw. reflexivity.
    + rewrite !map_map. apply in_map_iff. exists (read account m1).
      split.
      * unfold m1. rewrite read_modify_same by exact Hlt.
        cbn [meta_of meta_name meta_id Account.name Account.id
             Account.set_name]. now rewrite Hid.
      * unfold account_values. apply in_map_iff. exists account.
        split; [reflexivity|]. apply get_In in Hget.
        unfold JsMap.values. change (accounts m1) with (accounts m).
        change account with (snd (accountId, account)). now apply in_map.
Qed.

Lemma renameAccount_renames_one_account_witness :
  wf two_accounts
  /\ map Account.name
       (account_values (snd (renameAccount idB "Support" two_accounts)))
     = ["A"; "Support"].
Proof.
  assert (wf two_accounts) as Hwf by (apply wfb_wf; vm_compute; reflexivity).
  pose proof (renameAccount_renames_one_account two_accounts idB "Support"
                Hwf) as H.
  split; [exact Hwf|].
  assert (JsMap.get idB (accounts two_accounts) = Some 1%nat) as Hget
    by (vm_compute; reflexivity).
  rewrite Hget in H. cbv zeta in H. destruct H as (_ & _ & _ & _).
  vm_compute. reflexivity.
Defined.

(** X8.  [logoutAccount] logs out exactly one account and says nothing.
    Without such an account, or without a client for it, it throws
    'Account not found or not initialized'; when the client's [logout()]
    fails it throws that error; in both cases nothing changes.  Otherwise
    the account is no longer ready nor authenticated and its phone is
    forgotten, also on disk; its client handle, every other account object,
    the map and the active pointer are as before, and no event is emitted.
    If the account is the active one, [getChats] then answers the empty
    list without asking the client, whatever the cache holds; and unless an
    initialization is under way a later [switchAccount] to the account
    starts a new session. *)
Theorem logoutAccount_logs_out_one_account :
  forall (m : t) (accountId : string) (logout : Settlement),
    wf m ->
    match JsMap.get accountId (accounts m) with
    | None =>
        logoutAccount accountId logout m = (Throws SessionNotInitialized, m)
    | Some account =>
        match Account.client (read account m), logout with
        | None, _ =>
            logoutAccount accountId logout m =
            (Throws SessionNotInitialized, m)
        | Some _, Rejected msg =>
            logoutAccount accountId logout m =
            (Throws (AutomationLayerError msg), m)
        | Some client, Resolved _ =>
            let m' := snd (logoutAccount accountId logout m) in
            fst (logoutAccount accountId logout m) = Returns tt
            /\ read account m' =
               Account.set_phone None
                 (Account.set_isAuthenticated false
                    (Account.set_isReady false (read account m)))
            /\ (forall r, r <> account -> read r m' = read r m)
            /\ accounts m' = accounts m
            /\ activeAccountId m' = activeAccountId m
            /\ emitted m' = emitted m
            /\ wired m' = wired m
            /\ (fsWritable m = true ->
                configFile m' =
                  Json {| cfg_activeAccountId := activeAccountId m;
                          cfg_accounts :=
                            Some (map meta_of (account_values m')) |})
            /\ (activeAccountId m = Some accountId ->
                forall now world,
                  getChats_begin now world m' = Settled (Js.Arr []))
            /\ (Account.isInitializing (read account m) = false ->
                needsInitialization (read account m') = true)
        end
    end.
Proof.
  intros m accountId logout Hwf.
  unfold logoutAccount, logoutAccount_begin.
  destruct (JsMap.get accountId (accounts m)) as [account|] eqn:Hget;
    [|reflexivity].
  destruct (Account.client (read account m)) as [client|] eqn:Hc;
    [|reflexivity].
  unfold logoutAccount_end. destruct logout as [chats|msg]; [|reflexivity].
  cbn [fst snd].
  assert (account < List.length (heap m))%nat as Hlt.
  { apply get_In in Hget. destruct Hwf as [_ He _].
    rewrite Forall_forall in He. now destruct (He _ Hget) as (? & _). }
  set (m3 := modify account (Account.set_phone None)
               (modify account (Account.set_isAuthenticated false)
                  (modify account (Account.set_isReady false) m))).
  destruct (saveAccountsConfig_keeps m3) as (Hh & Ha & Hp & Hw & He & _).
  assert (forall r, read r (saveAccountsConfig m3) = read r m3) as Hread
    by (intros r; unfold read; now rewrite Hh).
  assert (read account m3 =
          Account.set_phone None
            (Account.set_isAuthenticated false
               (Account.set_isReady false (read account m)))) as Hacc.
  { unfold m3.
    rewrite !read_modify_same by (rewrite ?length_heap_modify; exact Hlt).
    reflexivity. }
  refine (conj eq_refl (conj _ (conj _ (conj Ha (conj Hp (conj He
            (conj Hw (conj _ (conj _ _))))))))).
  - now rewrite Hread.
  - intros r Hne. rewrite Hread. unfold m3.
    now rewrite !read_modify_other by exact Hne.
  - intros Hwr. unfold saveAccountsConfig at 1.
    change (fsWritable m3) with (fsWritable m). rewrite Hwr.
    cbn [configFile set_configFile]. do 3 f_equal.
    unfold account_values. rewrite Ha. f_equal. apply map_ext.
    intros r. now rewrite Hread.
  - intros Hact now world. unfold getChats_begin, getActiveAccount.
    rewrite Hp. change (activeAccountId m3) with (activeAccountId m).
    rewrite Hact, (get_truthy accountId account m Hwf Hget), Ha.
    change (accounts m3) with (accounts m). rewrite Hget, Hread, Hacc.
    cbn [Account.client Account.set_phone Account.set_isAuthenticated
         Account.set_isReady Account.isReady Account.isAuthenticated].
    now rewrite Hc.
  - intros Hinit. rewrite Hread, Hacc. unfold needsInitialization.
    cbn [Account.client Account.set_phone Account.set_isAuthenticated
         Account.set_isReady Account.isReady Account.isInitializing].
    now rewrite Hc, Hinit.
Qed.

Lemma logoutAccount_logs_out_one_account_witness :
  wf a_ready
  /\ map Account.phone (account_values a_ready) = [Some "15551234567"; None]
  /\ map Account.phone
       (account_values (snd (logoutAccount idA (Resolved Js.Null) a_ready)))
     = [None; None]
  /\ getChats_begin 1700000200000 world
       (snd (logoutAccount idA (Resolved Js.Null) a_ready))
     = Settled (Js.Arr []).
Proof.
  assert (wf a_ready) as Hwf by (apply wfb_wf; vm_compute; reflexivity).
  pose proof (logoutAccount_logs_out_one_account a_ready idA
                (Resolved Js.Null) Hwf) as H.
  assert (JsMap.get idA (accounts a_ready) = Some 0%nat) as Hget
    by (vm_compute; reflexivity).
  assert (Account.client (read 0 a_ready) = Some 0%nat) as Hc
    by (vm_compute; reflexivity).
  rewrite Hget, Hc in H. cbv zeta in H.
  destruct H as (_ & _ & _ & _ & _ & _ & _ & _ & Hchats & _).
  refine (conj Hwf (conj _ (conj _ _))).
  - vm_compute. reflexivity.
  - vm_compute. reflexivity.
  - apply Hchats. vm_compute. reflexivity.
Defined.

(** X9.  [createAccount] adds one account and touches no other.  Below the
    limit it returns a new account object that is found under the generated
    id: the given name, or "Account n" with n one more than the number of
    accounts when the name is missing or empty, no phone, no client, all
    flags cleared.  Every other id maps to what it mapped to, every
    existing account object is as before, the new id comes last in the
    order of the map (unless the generated id was already taken, in which
    case the new object replaces the old one in place and the count stays),
    one [account_created] event is emitted, and the invariant of the map
    holds again. *)
Theorem createAccount_adds_one_account :
  forall (m : t) (name : option string) (now : Z) (random : string) (now' : Z),
    wf m ->
    (JsMap.size (accounts m) < maxAccounts)%nat ->
    let id := generateAccountId now random in
    let account := List.length (heap m) in
    let m' := snd (createAccount name now random now' m) in
    let given :=
      match name with
      | Some s =>
          if Js.truthy s then s
          else ("Account "
                ++ Js.string_of_nat (JsMap.size (accounts m) + 1))%string
      | None =>
          ("Account " ++ Js.string_of_nat (JsMap.size (accounts m) + 1))%string
      end in
    fst (createAccount name now random now' m) = Returns account
    /\ JsMap.get id (accounts m') = Some account
    /\ read account m' =
       Account.mk id given None now' None false false false None None
    /\ (forall k, k <> id ->
          JsMap.get k (accounts m') = JsMap.get k (accounts m))
    /\ (forall r, (r < List.length (heap m))%nat -> read r m' = read r m)
    /\ JsMap.keys (accounts m') =
       (if JsMap.has id (accounts m) then JsMap.keys (accounts m)
        else JsMap.keys (accounts m) ++ [id])
    /\ emitted m' = emitted m ++ [ev_account_created id given]
    /\ wf m'.
Proof.
  intros m name now random now' Hwf Hsize id account m' given.
  assert (wf m') as Hwf'.
  { unfold m'.
    pose proof (activeAccountId_createAccount name now random now' m) as Hp.
    unfold createAccount in *.
    destruct (Nat.leb_spec maxAccounts (JsMap.size (accounts m))); [lia|].
    set (a := Account.mk (generateAccountId now random) _ _ _ _ _ _ _ _ _)
      in *.
    assert (Hw2 := wf_alloc_set a m Hwf (truthy_generateAccountId _ _)).
    cbn [alloc fst snd] in *. cbn [Account.id a] in Hw2.
    match goal with
    | |- wf (emit _ (saveAccountsConfig ?x)) =>
        apply (wf_same x);
        [ apply (saveAccountsConfig_keeps x)
        | apply (saveAccountsConfig_keeps x)
        | apply (saveAccountsConfig_keeps x) |]
    end.
    match goal with
    | |- wf (if ?c then _ else _) => destruct c
    end; [|exact Hw2].
    apply wf_set_activeAccountId; [exact Hw2|reflexivity]. }
  assert (accounts m' = JsMap.set id account (accounts m)) as Ha.
  { unfold m'. rewrite accounts_createAccount.
    destruct (Nat.leb_spec maxAccounts (JsMap.size (accounts m)));
      [lia|reflexivity]. }
  assert (forall r, read r m' = nth r (heap m ++ [Account.mk id given None
            now' None false false false None None]) blank) as Hread.
  { intros r. unfold m', createAccount, read.
    destruct (Nat.leb_spec maxAccounts (JsMap.size (accounts m))); [lia|].
    cbn [alloc fst snd].
    match goal with
    | |- context [saveAccountsConfig ?x] =>
        destruct (saveAccountsConfig_keeps x) as (Hh & _)
    end.
    cbn [heap emit set_emitted]. rewrite Hh.
    assert (Js.or_default name
              ("Account " ++ Js.string_of_nat (JsMap.size (accounts m) + 1))
            = given) as ->
      by (unfold given, Js.or_default; now destruct name).
    repeat break_match; reflexivity. }
  refine (conj _ (conj _ (conj _ (conj _ (conj _ (conj _ (conj _ Hwf'))))))).
  - now apply createAccount_returns.
  - rewrite Ha. apply get_set_same.
  - rewrite Hread. unfold account.
    now rewrite app_nth2, Nat.sub_diag by lia.
  - intros k Hne. rewrite Ha. apply get_set_other. congruence.
  - intros r Hlt. rewrite Hread. unfold read. now apply app_nth1.
  - rewrite Ha. apply keys_set.
  - unfold m', createAccount.
    destruct (Nat.leb_spec maxAccounts (JsMap.size (accounts m))); [lia|].
    cbn [alloc fst snd].
    match goal with
    | |- context [saveAccountsConfig ?x] =>
        destruct (saveAccountsConfig_keeps x) as (_ & _ & _ & _ & He & _)
    end.
    cbn [emitted emit set_emitted Account.name]. rewrite He.
    assert (Js.or_default name
              ("Account " ++ Js.string_of_nat (JsMap.size (accounts m) + 1))
            = given) as ->
      by (unfold given, Js.or_default; now destruct name).
    repeat break_match; reflexivity.
Qed.

Lemma createAccount_adds_one_account_witness :
  wf two_accounts
  /\ (JsMap.size (accounts two_accounts) < maxAccounts)%nat
  /\ map Account.name
       (account_values
          (snd (createAccount None 1700000300000 "r5t2y8u1i" 1700000300000
                  two_accounts)))
     = ["A"; "B"; "Account 3"].
Proof.
  assert (wf two_accounts) as Hwf by (apply wfb_wf; vm_compute; reflexivity).
  assert (JsMap.size (accounts two_accounts) < maxAccounts)%nat as Hs
    by (vm_compute; lia).
  pose proof (createAccount_adds_one_account two_accounts None 1700000300000
                "r5t2y8u1i" 1700000300000 Hwf Hs) as H.
  cbv zeta in H. destruct H as (_ & _ & _ & _ & _ & _ & _ & _).
  refine (conj Hwf (conj Hs _)). vm_compute. reflexivity.
Defined.


(** ** Startup, the facade and the listing *)





Lemma id_read_modify_any r account f m :
  (forall a, Account.id (f a) = Account.id a) ->
  Account.id (read r (modify account f m)) = Account.id (read r m).
Proof. intros Hf. now apply id_read_modify. Qed.










(** Distinct keys of the map name distinct account objects. *)
Lemma distinct_keys_distinct_objects m k k' r r' :
  wf m -> JsMap.get k (accounts m) = Some r ->
  JsMap.get k' (accounts m) = Some r' -> k <> k' -> r <> r'.
Proof.
  intros [_ He _] Hk Hk' Hne ->. apply Hne.
  apply get_In in Hk. apply get_In in Hk'. rewrite Forall_forall in He.
  pose proof (He _ Hk) as H. pose proof (He _ Hk') as H'.
  unfold valid_entry in H, H'. cbn [fst snd] in H, H'.
  destruct H as (_ & H & _). destruct H' as (_ & H' & _). congruence.
Qed.

(** X11.  [getQRCode] answers the QR code of the active account, whatever
    id the caller has in mind.  The declaration [getQRCode(accountId)],
    which would look the account up, is replaced by the later
    [getQRCode()]; so for an account that is not the active one the answer
    is read off another account object than the one asked for, and it is
    [null] when there is no active account.  [getStatus] reads the same
    object: it reports a QR code exactly when [getQRCode] answers one, and
    it reports all flags cleared and no account id when there is no active
    account.  In the state [b_shows_qr], where account B is waiting for its
    QR code to be scanned while account A is active and ready, the code of
    B is not handed out. *)
Theorem getQRCode_answers_for_the_active_account :
  forall m : t,
    wf m ->
    match getActiveAccount m with
    | Some active =>
        getQRCode m = Account.qrCode (read active m)
        /\ status_hasQR (getStatus m) = negb (Js.falsy (getQRCode m))
        /\ status_activeAccountId (getStatus m) = activeAccountId m
        /\ (forall accountId account,
              JsMap.get accountId (accounts m) = Some account ->
              activeAccountId m <> Some accountId ->
              account <> active
              /\ getQRCode_replaced accountId m
                 = Account.qrCode (read account m))
    | None =>
        getQRCode m = None
        /\ getStatus m =
           {| status_isReady := false; status_isAuthenticated := false;
              status_hasQR := false; status_activeAccountId := None;
              status_accountName := None; status_phone := None |}
    end
    /\ getQRCode_replaced idB b_shows_qr = Some "2@Xb7Lq4"
    /\ getQRCode b_shows_qr = None.
Proof.
  intros m Hwf. split; [|split; vm_compute; reflexivity].
  unfold getQRCode, getStatus.
  destruct (getActiveAccount m) as [active|] eqn:Hact; [|split; reflexivity].
  refine (conj eq_refl (conj eq_refl (conj eq_refl _))).
  intros accountId account Hget Hne.
  unfold getActiveAccount in Hact.
  destruct (activeAccountId m) as [id|]; [|discriminate].
  destruct (Js.truthy id); [|discriminate].
  split.
  - apply (distinct_keys_distinct_objects m accountId id); auto. congruence.
  - unfold getQRCode_replaced. now rewrite Hget.
Qed.

Lemma getQRCode_answers_for_the_active_account_witness :
  wf b_shows_qr
  /\ getActiveAccount b_shows_qr = Some 0%nat
  /\ getQRCode b_shows_qr = Account.qrCode (read 0 b_shows_qr)
  /\ Account.qrCode (read 1 b_shows_qr) = Some "2@Xb7Lq4".
Proof.
  assert (wf b_shows_qr) as Hwf by (apply wfb_wf; vm_compute; reflexivity).
  pose proof (getQRCode_answers_for_the_active_account b_shows_qr Hwf)
    as [H _].
  assert (getActiveAccount b_shows_qr = Some 0%nat) as Hact
    by (vm_compute; reflexivity).
  rewrite Hact in H. destruct H as (Hq & _).
  refine (conj Hwf (conj Hact (conj Hq _))). vm_compute. reflexivity.
Defined.

(** *** The listing *)

Lemma client_in_range r c m :
  Account.client (read r m) = Some c -> (r < List.length (heap m))%nat.
Proof.
  intros H. destruct (Nat.lt_ge_cases r (List.length (heap m))) as [|Hge];
    auto.
  unfold read in H. rewrite nth_overflow in H by exact Hge. discriminate.
Qed.
















(** ** The readiness monitor, when a probe answers *)

Lemma recordPhone_keeps account i m :
  heap (recordPhone account i m)
  = heap (match i with
          | Wid user => modify account (Account.set_phone (Some user)) m
          | _ => m
          end)
  /\ accounts (recordPhone account i m) = accounts m
  /\ activeAccountId (recordPhone account i m) = activeAccountId m
  /\ emitted (recordPhone account i m) = emitted m
  /\ timers (recordPhone account i m) = timers m.
Proof.
  unfold recordPhone. destruct i; try (repeat split; reflexivity).
  destruct (saveAccountsConfig_keeps
              (modify account (Account.set_phone (Some user)) m))
    as (-> & -> & -> & _ & -> & -> & _).
  repeat split.
Qed.

Lemma length_heap_recordPhone account i m :
  List.length (heap (recordPhone account i m)) = List.length (heap m).
Proof.
  rewrite (proj1 (recordPhone_keeps account i m)).
  destruct i; rewrite ?length_heap_modify; reflexivity.
Qed.

Lemma checkAndSetReady_cases accountId n world probe m :
  wf m ->
  checkAndSetReady accountId n world probe m = m
  \/ checkAndSetReady accountId n world probe m = retryLater accountId n m
  \/ (probeFailed probe = false
      /\ exists account,
           promoted accountId account m
             (checkAndSetReady accountId n world probe m)).
Proof.
  intros Hwf. unfold checkAndSetReady, checkAndSetReady_begin.
  destruct (JsMap.get accountId (accounts m)) as [account|] eqn:Hget; auto.
  destruct (Account.isReady (read account m)) eqn:Hready; auto.
  destruct (Account.client (read account m)) as [c|] eqn:Hc; auto.
  destruct (pupPage (world c)); auto.
  destruct (hasGetChats (world c)); cbn [negb]; auto.
  unfold checkAndSetReady_end.
  destruct probe as [testChats|msg]; auto.
  destruct (Js.is_truthy testChats && Js.isArray testChats) eqn:Harr; auto.
  rewrite Hc.
  assert (account < List.length (heap m))%nat as Hlt
    by (eapply client_in_range; eauto).
  assert (probeFailed (Resolved testChats) = false) as Hprobe.
  { destruct testChats; simpl in *; auto; discriminate. }
  assert (forall i,
            promoted accountId account m
              (emit (ev_ready accountId)
                 (modify account (Account.set_isInitializing false)
                    (modify account (Account.set_isReady true)
                       (recordPhone account i m))))) as Hpromoted.
  { intros i.
    destruct (recordPhone_keeps account i m) as (_ & Ha & Hp & He & Ht).
    unfold promoted.
    change (read account (emit ?e ?x)) with (read account x).
    rewrite !read_modify_same
      by (rewrite ?length_heap_modify, ?length_heap_recordPhone; exact Hlt).
    refine (conj Hget (conj Hready (conj eq_refl (conj eq_refl _)))).
    cbn [emitted emit set_emitted timers accounts activeAccountId].
    repeat change (emitted (modify ?r ?f ?x)) with (emitted x).
    repeat change (timers (modify ?r ?f ?x)) with (timers x).
    repeat change (accounts (modify ?r ?f ?x)) with (accounts x).
    repeat change (activeAccountId (modify ?r ?f ?x)) with (activeAccountId x).
    rewrite He, Ht, Ha, Hp. repeat split. }
  destruct (info (world c)) eqn:Hinfo; auto;
    right; right; (split; [exact Hprobe|]); exists account; apply Hpromoted.
Qed.

(** X13.  A chain of readiness checks during which nothing else runs (no
    other call, client event, timer or settled promise between its probes
    and its timers) promotes its account at most once.  Whatever the probes
    answer, when such a chain started by [checkAndSetReady(accountId, n)]
    has ended it has left no timer behind, and either the manager is
    exactly as it was, or the account, which was not ready, has been marked
    ready and no longer initializing and one [ready] event for it has been
    emitted, the only event of the chain.  The map and the active pointer
    are never touched.  In particular a check of an account that is already
    ready, or that has been deleted in the meantime, does nothing and
    schedules nothing.  The condition cannot be dropped: the part of
    [checkAndSetReady] that follows the probe does not read [isReady]
    again, so a probe that answers an array emits [ready] whatever
    happened while it was pending; when a message for the account arrives
    while the first probe is pending, the account gets two [ready]
    events. *)
Theorem readiness_monitor_promotes_once :
  forall (fuel : nat) (env : nat -> World * Settlement) (accountId : string)
         (n calls : nat) (m m' : t),
    wf m ->
    readinessMonitor fuel env accountId n m = Some (calls, m') ->
    (m' = m \/ exists account, promoted accountId account m m')
    /\ timers m' = timers m
    /\ match JsMap.get accountId (accounts m) with
       | Some account =>
           Account.isReady (read account m) = true -> calls = 1%nat /\ m' = m
       | None => calls = 1%nat /\ m' = m
       end
    /\ (forall account retryCount probe world m0 c,
          Account.client (read account m0) = Some c ->
          probeFailed probe = false ->
          info (world c) <> InfoThrows ->
          emitted
            (checkAndSetReady_end account accountId retryCount probe world m0)
          = emitted m0 ++ [ev_ready accountId])
    /\ map (fun inputs => readyEvents idA (run inputs both_authenticated))
         [ firstn 1 message_during_probe; firstn 2 message_during_probe;
           message_during_probe ]
       = [0; 1; 2]%nat.
Proof.
  intros fuel env accountId n calls m m' Hwf Hrun.
  refine ((fun H => conj (proj1 H) (conj (proj1 (proj2 H))
                      (conj (proj2 (proj2 H)) _))) _).
  { split; [|vm_compute; reflexivity].
    intros account retryCount probe world0 m0 c Hc Hprobe Hinfo.
    unfold checkAndSetReady_end.
    destruct probe as [[]|]; try discriminate.
    cbn [Js.is_truthy Js.isArray andb]. rewrite Hc.
    destruct (info (world0 c)) eqn:Hi; try congruence;
      cbn [emitted emit set_emitted];
      repeat change (emitted (modify ?r ?f ?x)) with (emitted x);
      now rewrite (proj1 (proj2 (proj2 (proj2
                     (recordPhone_keeps account _ m0))))). }
  revert env accountId n calls m m' Hwf Hrun.
  induction fuel as [|fuel IH]; intros env accountId n calls m m' Hwf Hrun;
    [discriminate|].
  cbn [readinessMonitor] in Hrun.
  assert (nth_error (timers m) (List.length (timers m)) = None) as Hnone
    by (apply nth_error_None; lia).
  assert (match JsMap.get accountId (accounts m) with
          | Some account =>
              Account.isReady (read account m) = true ->
              checkAndSetReady accountId n (fst (env n)) (snd (env n)) m = m
          | None =>
              checkAndSetReady accountId n (fst (env n)) (snd (env n)) m = m
          end) as Hnoop.
  { unfold checkAndSetReady, checkAndSetReady_begin.
    destruct (JsMap.get accountId (accounts m)); auto.
    now intros ->. }
  assert (checkAndSetReady accountId n (fst (env n)) (snd (env n)) m = m ->
          calls = 1%nat /\ m' = m) as Hstop.
  { intros E. rewrite E, Hnone in Hrun. now inversion Hrun. }
  split; [|split].
  - destruct (checkAndSetReady_cases accountId n (fst (env n)) (snd (env n))
                m Hwf) as [E|[E|(_ & account & Hp)]].
    + left. now apply Hstop.
    + rewrite E in Hrun. unfold retryLater in Hrun.
      destruct (n <? maxRetries)%nat.
      * cbn [timers setTimeout set_timers] in Hrun.
        rewrite nth_error_length_app, firstn_length_app in Hrun.
        change (set_timers (timers m) (setTimeout ?cb ?ms m))
          with (set_timers (timers m) m) in Hrun.
        rewrite set_timers_same in Hrun.
        destruct (readinessMonitor fuel env accountId (n + 1) m)
          as [[calls0 m0]|] eqn:Hrest; [|discriminate].
        inversion Hrun; subst.
        exact (proj1 (IH env accountId (n + 1)%nat calls0 m m' Hwf Hrest)).
      * rewrite Hnone in Hrun. inversion Hrun. now left.
    + assert (timers (checkAndSetReady accountId n (fst (env n))
                        (snd (env n)) m) = timers m) as Ht by apply Hp.
      rewrite Ht, Hnone in Hrun. inversion Hrun; subst.
      right. now exists account.
  - destruct (checkAndSetReady_cases accountId n (fst (env n)) (snd (env n))
                m Hwf) as [E|[E|(_ & account & Hp)]].
    + now destruct (Hstop E) as (_ & ->).
    + rewrite E in Hrun. unfold retryLater in Hrun.
      destruct (n <? maxRetries)%nat.
      * cbn [timers setTimeout set_timers] in Hrun.
        rewrite nth_error_length_app, firstn_length_app in Hrun.
        change (set_timers (timers m) (setTimeout ?cb ?ms m))
          with (set_timers (timers m) m) in Hrun.
        rewrite set_timers_same in Hrun.
        destruct (readinessMonitor fuel env accountId (n + 1) m)
          as [[calls0 m0]|] eqn:Hrest; [|discriminate].
        inversion Hrun; subst.
        exact (proj1 (proj2 (IH env accountId (n + 1)%nat calls0 m m' Hwf
                               Hrest))).
      * rewrite Hnone in Hrun. now inversion Hrun.
    + assert (timers (checkAndSetReady accountId n (fst (env n))
                        (snd (env n)) m) = timers m) as Ht by apply Hp.
      rewrite Ht, Hnone in Hrun. inversion Hrun; subst. exact Ht.
  - destruct (JsMap.get accountId (accounts m)); auto.
Qed.

Lemma readiness_monitor_promotes_once_witness :
  wf both_authenticated
  /\ (exists m',
        readinessMonitor 100 stores_load_late idA 0 both_authenticated
        = Some (3%nat, m')
        /\ timers m' = timers both_authenticated
        /\ readyEvents idA m' = 1%nat)
  /\ readyEvents idA both_authenticated = 0%nat.
Proof.
  assert (wf both_authenticated) as Hwf
    by (apply wfb_wf; vm_compute; reflexivity).
  destruct (readinessMonitor 100 stores_load_late idA 0 both_authenticated)
    as [[calls m']|] eqn:Hrun; [|vm_compute in Hrun; discriminate].
  pose proof (readiness_monitor_promotes_once 100 stores_load_late idA 0
                calls both_authenticated m' Hwf Hrun) as (_ & Ht & _).
  vm_compute in Hrun. inversion Hrun; subst. clear Hrun.
  refine (conj Hwf (conj _ _)); [|vm_compute; reflexivity].
  eexists. refine (conj eq_refl (conj Ht _)). vm_compute. reflexivity.
Defined.


(** ** The helpers of the routes *)

Lemma lastIncoming_Some messages :
  forall i k,
    Helpers.lastIncoming messages i = Some k ->
    (k < i)%nat
    /\ forall j msg, (k < j < i)%nat -> nth_error messages j = Some msg ->
                     msg_fromMe msg = true.
Proof.
  induction i as [|i IH]; intros k H; [discriminate|].
  cbn [Helpers.lastIncoming] in H.
  destruct (nth_error messages i) as [msg|] eqn:Hi; [|discriminate].
  destruct (msg_fromMe msg) eqn:Hm; cbn [negb] in H.
  - destruct (IH k H) as (Hlt & Hall). split; [lia|].
    intros j msg' Hj Hnth.
    destruct (Nat.eq_dec j i) as [->|Hne]; [congruence|].
    apply (Hall j); auto. lia.
  - inversion H; subst. split; [lia|]. intros j msg' Hj. lia.
Qed.

Lemma hasBeenReplied_snoc (l : list Message) (m : Message) :
  Helpers.hasBeenReplied (Some (l ++ [m])) = msg_fromMe m.
Proof.
  unfold Helpers.hasBeenReplied.
  rewrite length_app. cbn [List.length]. rewrite Nat.add_1_r.
  cbn [Nat.eqb Helpers.lastIncoming].
  rewrite nth_error_length_app.
  destruct (msg_fromMe m) eqn:Hm; cbn [negb].
  - destruct (Helpers.lastIncoming (l ++ [m]) (List.length l))
      as [k|] eqn:Hk; [|reflexivity].
    destruct (lastIncoming_Some _ _ _ Hk) as (Hlt & Hall).
    replace (S (List.length l) - (k + 1))%nat
      with (S (List.length l - (k + 1)))%nat by lia.
    cbn [Helpers.outgoingFrom].
    destruct (nth_error (l ++ [m]) (k + 1)) as [msg|] eqn:Hnth.
    + destruct (Nat.eq_dec (k + 1) (List.length l)) as [E|Hne].
      * rewrite E, nth_error_length_app in Hnth. inversion Hnth; subst.
        now rewrite Hm.
      * rewrite (Hall (k + 1)%nat msg); auto. lia.
    + apply nth_error_None in Hnth. rewrite length_app in Hnth.
      cbn [List.length] in Hnth. lia.
  - rewrite Nat.add_1_r, Nat.sub_diag. reflexivity.
Qed.

(** X14.  A conversation counts as replied exactly when its last message
    is an outgoing one.  [hasBeenReplied] answers [false] for a missing or
    empty list of messages, and for a list that ends with the message [m]
    it answers [m.fromMe], whatever comes before: an incoming message that
    was answered earlier but is followed by a new incoming one counts as
    not replied, and a conversation without any incoming message counts as
    replied. *)
Theorem hasBeenReplied_is_fromMe_of_last_message :
  Helpers.hasBeenReplied None = false
  /\ Helpers.hasBeenReplied (Some []) = false
  /\ forall (l : list Message) (m : Message),
       Helpers.hasBeenReplied (Some (l ++ [m])) = msg_fromMe m.
Proof.
  refine (conj eq_refl (conj eq_refl _)). intros l m.
  apply hasBeenReplied_snoc.
Qed.

Lemma filter_fused {A} (f g : A -> bool) (l : list A) :
  filter g (filter f l) = filter (fun x => f x && g x) l.
Proof.
  induction l as [|x l IH]; simpl; auto.
  destruct (f x); simpl; rewrite ?IH; auto.
Qed.

Lemma filter_all {A} (f : A -> bool) (l : list A) :
  (forall x, In x l -> f x = true) -> filter f l = l.
Proof.
  induction l as [|x l IH]; intros H; simpl; auto.
  rewrite (H x) by now left. f_equal. apply IH. intros y Hy. apply H.
  now right.
Qed.

Lemma applyFilters_passes rt chats filters :
  Helpers.applyFilters rt chats filters = filter (passes rt filters) chats.
Proof.
  unfold Helpers.applyFilters, passes. cbv zeta.
  destruct (Helpers.chatType filters) as [type|],
           (Helpers.readStatus filters) as [status|],
           (Helpers.dateRange filters) as [range|],
           (Helpers.searchQuery filters) as [q|];
    repeat match goal with
           | |- context [if ?b then _ else _] => destruct b
           end;
    first
      [ symmetry; apply filter_all; intros; reflexivity
      | rewrite ?filter_fused; apply filter_ext; intros chat; cbv beta;
        cbn [andb]; rewrite ?Bool.andb_true_r, ?Bool.andb_assoc; reflexivity ].
Qed.

Lemma selective_other s :
  s <> "" -> s <> "all" -> Helpers.selective (Some s) = true.
Proof.
  intros H1 H2. unfold Helpers.selective, Js.truthy.
  apply String.eqb_neq in H1, H2. now rewrite H1, H2.
Qed.

(** X15.  [applyFilters] keeps, in their order, exactly the chats that pass
    every criterion, and nothing else: the answer is the input filtered by
    one test, so it never adds, repeats or reorders a chat, and filtering
    twice is filtering once.  A request without query parameters keeps
    every chat.  A chat type other than 'group' and 'personal', and a read
    status other than 'unread' and 'read', filter nothing; but a date range
    other than 'today', 'week', 'month' and 'all' still drops the chats
    without a timestamp.  The read statuses 'read' and 'unread' do not
    cover the chats: a chat is in one of the two answers exactly when its
    unread count is not negative. *)
Theorem applyFilters_keeps_what_passes :
  forall (rt : Helpers.Runtime) (chats : list Helpers.ChatData)
         (filters : Helpers.Filters),
    Helpers.applyFilters rt chats filters = filter (passes rt filters) chats
    /\ Helpers.applyFilters rt (Helpers.applyFilters rt chats filters) filters
       = Helpers.applyFilters rt chats filters
    /\ Helpers.applyFilters rt chats Helpers.noFilters = chats
    /\ (forall type, type <> "group" -> type <> "personal" ->
          Helpers.applyFilters rt chats (onlyChatType type) = chats)
    /\ (forall status, status <> "unread" -> status <> "read" ->
          Helpers.applyFilters rt chats (onlyReadStatus status) = chats)
    /\ (forall range,
          range <> "" -> range <> "all" -> range <> "today" ->
          range <> "week" -> range <> "month" ->
          Helpers.applyFilters rt chats (onlyDateRange range) =
          filter hasTimestamp chats)
    /\ (forall chat,
          In chat (Helpers.applyFilters rt chats (onlyReadStatus "read"))
          \/ In chat (Helpers.applyFilters rt chats (onlyReadStatus "unread"))
          <-> In chat chats /\ (0 <= Helpers.unreadCount chat)%Z).
Proof.
  intros rt chats filters.
  refine (conj (applyFilters_passes rt chats filters) (conj _ (conj eq_refl
            (conj _ (conj _ (conj _ _)))))).
  - rewrite !applyFilters_passes, filter_fused. apply filter_ext.
    intros chat. now destruct (passes rt filters chat).
  - intros type H1 H2. rewrite applyFilters_passes. apply filter_all.
    intros chat _. unfold passes, onlyChatType, Helpers.byChatType.
    cbn [Helpers.chatType Helpers.readStatus Helpers.dateRange
         Helpers.searchQuery Helpers.selective Js.truthy String.eqb
         Ascii.eqb Bool.eqb negb andb].
    apply String.eqb_neq in H1, H2. rewrite H1, H2.
    now destruct (Js.truthy _ && negb _).
  - intros status H1 H2. rewrite applyFilters_passes. apply filter_all.
    intros chat _. unfold passes, onlyReadStatus, Helpers.byReadStatus.
    cbn [Helpers.chatType Helpers.readStatus Helpers.dateRange
         Helpers.searchQuery Helpers.selective Js.truthy String.eqb
         Ascii.eqb Bool.eqb negb andb].
    apply String.eqb_neq in H1, H2. rewrite H1, H2.
    now destruct (Js.truthy _ && negb _).
  - intros range H0 H1 H2 H3 H4. rewrite applyFilters_passes.
    apply filter_ext. intros chat.
    unfold passes, onlyDateRange, hasTimestamp, Helpers.filterByDateRange.
    cbn [Helpers.chatType Helpers.readStatus Helpers.dateRange
         Helpers.searchQuery].
    rewrite (selective_other range H0 H1).
    cbn [Helpers.selective Js.truthy String.eqb Ascii.eqb Bool.eqb negb
         andb].
    apply String.eqb_neq in H2, H3, H4. rewrite H2, H3, H4.
    destruct (Helpers.timestamp chat) as [ts|]; [|reflexivity].
    now destruct (ts =? 0)%Z.
  - intros chat. rewrite !applyFilters_passes, !filter_In.
    unfold passes, onlyReadStatus, Helpers.byReadStatus.
    cbn [Helpers.chatType Helpers.readStatus Helpers.dateRange
         Helpers.searchQuery Helpers.selective Js.truthy String.eqb
         Ascii.eqb Bool.eqb negb andb].
    rewrite !Bool.andb_true_r.
    split.
    + intros [(Hin & H)|(Hin & H)]; (split; [exact Hin|]).
      * apply Z.eqb_eq in H. lia.
      * apply Z.gtb_lt in H. lia.
    + intros (Hin & Hge).
      destruct (Z.eq_dec (Helpers.unreadCount chat) 0) as [E|Hne].
      * left. split; [exact Hin|]. now apply Z.eqb_eq.
      * right. split; [exact Hin|]. apply Z.gtb_lt. lia.
Qed.


(** ** The calls of the single-session client *)





(** ** The answer of [GET /chats/:id/messages] *)

Lemma ledger_filed_same m m' :
  ledger m' = ledger m -> ledger_filed m -> ledger_filed m'.
Proof.
  unfold ledger, ledger_filed. intros H. inversion H as [[Hd Hf]].
  now rewrite Hd, Hf.
Qed.

Lemma filed_load (data acc : list (string * DeletedMessage.t)) :
  filed data -> NoDup (JsMap.keys acc) -> filed acc ->
  let loaded :=
    fold_left (fun a kv => JsMap.set (fst kv) (snd kv) a) data acc in
  NoDup (JsMap.keys loaded) /\ filed loaded.
Proof.
  revert acc. induction data as [|[k r] rest IH]; intros acc Hdata Hnd Hacc;
    simpl; auto.
  inversion Hdata as [|? ? Hkr Hrest]; subst.
  apply IH; auto.
  - now apply NoDup_keys_set.
  - apply Forall_set; auto.
Qed.

Lemma ledger_filed_restart m : ledger_filed m -> ledger_filed (restart m).
Proof.
  intros (Hnd & Hm & Hf). unfold ledger_filed, restart, constructor.
  match goal with
  | |- context [loadAccountsConfig ?b] =>
      destruct (loadAccountsConfig_keeps b) as (_ & Hd & _ & _ & Hl & _);
      remember (loadAccountsConfig b) as x eqn:Hx
  end.
  clear Hx. cbn [deletedMessagesFile deletedMessages] in Hd, Hl.
  unfold loadDeletedMessages. rewrite Hd.
  destruct (deletedMessagesFile m) as [| |data] eqn:Hfile.
  - rewrite Hl, ?Hd. repeat split; constructor.
  - rewrite Hl, ?Hd. repeat split; constructor.
  - cbn [deletedMessages deletedMessagesFile set_deletedMessages].
    rewrite ?Hd.
    destruct (filed_load data JsMap.empty Hf) as (H1 & H2);
      [constructor|constructor|].
    repeat split; assumption.
Qed.

Lemma ledger_filed_revoke accountId message revoked now m :
  ledger_filed m ->
  ledger_filed
    (on_message_revoke_everyone accountId message (Some revoked) now m).
Proof.
  intros (Hnd & Hm & Hf).
  unfold ledger_filed, on_message_revoke_everyone, saveDeletedMessage,
    saveDeletedMessages.
  cbn [deletedMessages deletedMessagesFile fsWritable emit set_emitted
       set_deletedMessages DeletedMessage.id].
  match goal with
  | |- context [JsMap.set ?k ?v _] =>
      assert (NoDup (JsMap.keys (JsMap.set k v (deletedMessages m)))) as Hnd'
        by (now apply NoDup_keys_set);
      assert (filed (JsMap.set k v (deletedMessages m))) as Hm'
        by (apply Forall_set; [exact Hm|reflexivity])
  end.
  destruct (fsWritable m);
    cbn [deletedMessages deletedMessagesFile set_deletedMessagesFile
         set_deletedMessages];
    repeat split; assumption.
Qed.

Lemma ledger_filed_step world i m :
  ledger_filed m -> ledger_filed (step world i m).
Proof.
  intros Hl. destruct (touchesLedger i) eqn:Ht.
  - destruct i; try discriminate.
    + destruct e; try discriminate. destruct revokedMsg; [|discriminate].
      cbn [step].
      destruct (nth_error (wired m) client) as [[account accountId]|];
        [|exact Hl].
      cbn [handle]. now apply ledger_filed_revoke.
    + cbn [step]. now apply ledger_filed_restart.
  - apply (ledger_filed_same m); [now apply ledger_step|exact Hl].
Qed.

Lemma ledger_filed_reachable trace : ledger_filed (run trace fresh).
Proof.
  unfold run.
  assert (ledger_filed fresh) as H by (repeat split; constructor).
  revert H. generalize fresh.
  induction trace as [|[world i] rest IH]; intros m Hm; simpl; auto.
  apply IH. now apply ledger_filed_step.
Qed.

(** Dropping entries keeps their keys distinct. *)
Lemma filter_keeps_distinct {K V} (key : V -> K) (keep : V -> bool) :
  forall entries,
    NoDup (map key entries) -> NoDup (map key (filter keep entries)).
Proof.
  intros entries Hnd. induction entries as [|x rest IH]; simpl; auto.
  simpl in Hnd. inversion Hnd as [|? ? Hx Hrest]; subst.
  destruct (keep x); simpl; auto.
  constructor; auto. intros Hin. apply Hx.
  apply in_map_iff in Hin as (y & Hy & Hin).
  apply filter_In in Hin as (Hin & _).
  rewrite <- Hy. now apply in_map.
Qed.

Lemma ids_getDeletedMessagesForChat chatId m :
  ledger_filed m ->
  NoDup (map DeletedMessage.id (getDeletedMessagesForChat chatId m)).
Proof.
  intros (Hnd & Hm & _). unfold getDeletedMessagesForChat.
  rewrite collectForChat_filter. apply filter_keeps_distinct.
  unfold JsMap.values. rewrite map_map.
  erewrite map_ext_in; [exact Hnd|].
  intros kv Hin. unfold filed in Hm. rewrite Forall_forall in Hm.
  symmetry. now apply Hm.
Qed.

Lemma pushMissing_app existingIds dels :
  forall formatted,
    Routes.pushMissing existingIds dels formatted =
    formatted
    ++ map Routes.Deleted
         (filter (fun d => negb (existsb (String.eqb (Routes.del_id d))
                                   existingIds)) dels).
Proof.
  induction dels as [|d rest IH]; intros formatted; simpl.
  - now rewrite app_nil_r.
  - rewrite IH.
    destruct (existsb (String.eqb (Routes.del_id d)) existingIds); simpl;
      auto.
    now rewrite <- app_assoc.
Qed.

Lemma insertByTimestamp_Permutation e l :
  Permutation (Routes.insertByTimestamp e l) (e :: l).
Proof.
  induction l as [|x l IH]; simpl; auto.
  destruct (Routes.entry_timestamp e <? Routes.entry_timestamp x)%Z; auto.
  rewrite IH. apply perm_swap.
Qed.

Lemma sortByTimestamp_Permutation l :
  Permutation (Routes.sortByTimestamp l) l.
Proof.
  unfold Routes.sortByTimestamp.
  assert (forall acc,
            Permutation
              (fold_left (fun sorted e => Routes.insertByTimestamp e sorted)
                 l acc) (acc ++ l)) as H.
  { induction l as [|x l IH]; intros acc; simpl.
    - now rewrite app_nil_r.
    - rewrite IH, insertByTimestamp_Permutation. simpl.
      apply Permutation_middle. }
  apply (H []).
Qed.

(** Oldest first. *)
Lemma insertByTimestamp_Sorted e l :
  Sorted (fun a b => Routes.entry_timestamp a <= Routes.entry_timestamp b)%Z l ->
  Sorted (fun a b => Routes.entry_timestamp a <= Routes.entry_timestamp b)%Z
    (Routes.insertByTimestamp e l).
Proof.
  induction l as [|x l IH]; intros H; simpl.
  - repeat constructor.
  - inversion H as [|? ? Hl Hx]; subst.
    destruct (Z.ltb_spec (Routes.entry_timestamp e)
                (Routes.entry_timestamp x)) as [Hlt|Hge].
    + constructor; auto. constructor. lia.
    + constructor; auto.
      destruct l as [|y l]; simpl.
      * constructor. lia.
      * destruct (Routes.entry_timestamp e <? Routes.entry_timestamp y)%Z;
          constructor; auto. now inversion Hx.
Qed.

Lemma sortByTimestamp_Sorted l :
  Sorted (fun a b => Routes.entry_timestamp a <= Routes.entry_timestamp b)%Z
    (Routes.sortByTimestamp l).
Proof.
  unfold Routes.sortByTimestamp.
  assert (forall acc,
            Sorted (fun a b => Routes.entry_timestamp a
                               <= Routes.entry_timestamp b)%Z acc ->
            Sorted (fun a b => Routes.entry_timestamp a
                               <= Routes.entry_timestamp b)%Z
              (fold_left (fun sorted e => Routes.insertByTimestamp e sorted)
                 l acc)) as H.
  { induction l as [|x l IH]; intros acc Hacc; simpl; auto.
    apply IH. now apply insertByTimestamp_Sorted. }
  apply H. constructor.
Qed.

Lemma messagesAnswer_Permutation messages deleted :
  Permutation (Routes.messagesAnswer messages deleted)
    (map Routes.Live messages
     ++ map Routes.Deleted
          (filter (fun d => negb (existsb (String.eqb (Routes.del_id d))
                                    (map msg_id messages)))
             (map Routes.formatDeleted deleted))).
Proof.
  unfold Routes.messagesAnswer. cbv zeta.
  rewrite sortByTimestamp_Permutation, map_map. cbn [Routes.entry_id].
  destruct deleted as [|d rest].
  - cbn. now rewrite app_nil_r.
  - cbn [List.length Nat.ltb Nat.leb]. now rewrite pushMissing_app.
Qed.

Lemma messagesAnswer_shown (s : t) (chatId : string)
  (messages : list Message) :
  ledger_filed s ->
  shown messages (getDeletedMessagesForChat chatId s)
    (Routes.messagesAnswer messages (getDeletedMessagesForChat chatId s)).
Proof.
  intros Hfiled. unfold shown.
  set (deleted := getDeletedMessagesForChat chatId s).
  set (answer := Routes.messagesAnswer messages deleted).
  pose proof (messagesAnswer_Permutation messages deleted) as Hperm.
  fold answer in Hperm.
  assert (forall d : Routes.DeletedEntry,
            negb (existsb (String.eqb (Routes.del_id d)) (map msg_id messages))
            = true <-> ~ In (Routes.del_id d) (map msg_id messages)) as Hmiss.
  { intros d. rewrite Bool.negb_true_iff, <- Bool.not_true_iff_false.
    apply not_iff_compat. rewrite existsb_exists. split.
    - intros (x & Hin & Heq). apply String.eqb_eq in Heq. now subst.
    - intros Hin. exists (Routes.del_id d). split; auto.
      apply String.eqb_refl. }
  refine (conj (sortByTimestamp_Sorted _) (conj _ (conj _ (conj _ _)))).
  - intros message. split.
    + intros Hin. apply (Permutation_in _ Hperm) in Hin.
      apply in_app_or in Hin as [Hin|Hin].
      * apply in_map_iff in Hin as (x & [= ->] & Hx). exact Hx.
      * apply in_map_iff in Hin as (x & Hx & _). discriminate.
    + intros Hin. apply (Permutation_in _ (Permutation_sym Hperm)).
      apply in_or_app. left. now apply in_map.
  - intros entry. split.
    + intros Hin. apply (Permutation_in _ Hperm) in Hin.
      apply in_app_or in Hin as [Hin|Hin].
      * apply in_map_iff in Hin as (x & Hx & _). discriminate.
      * apply in_map_iff in Hin as (x & [= ->] & Hx).
        apply filter_In in Hx as (Hx & Hnew).
        apply in_map_iff in Hx as (msg & <- & Hmsg).
        split; [now exists msg|]. now apply Hmiss.
    + intros ((msg & Hmsg & ->) & Hnew).
      apply (Permutation_in _ (Permutation_sym Hperm)).
      apply in_or_app. right. apply in_map. apply filter_In.
      split; [now apply in_map|]. now apply Hmiss.
  - intros Hnd.
    apply (Permutation_NoDup (Permutation_sym (Permutation_map _ Hperm))).
    rewrite map_app, !map_map. cbn [Routes.entry_id].
    apply NoDup_app; auto.
    + apply filter_keeps_distinct with (key := Routes.del_id).
      rewrite map_map. cbn [Routes.formatDeleted Routes.del_id].
      now apply ids_getDeletedMessagesForChat.
    + intros id Hlive Hdel.
      apply in_map_iff in Hdel as (d & <- & Hd).
      apply filter_In in Hd as (_ & Hnew). now apply Hmiss in Hnew.
  - rewrite (Permutation_length Hperm), length_app, !length_map.
    pose proof (filter_length_le
                  (fun d => negb (existsb (String.eqb (Routes.del_id d))
                                    (map msg_id messages)))
                  (map Routes.formatDeleted deleted)) as Hle.
    rewrite length_map in Hle. lia.
Qed.

(** X17.  What [GET /chats/:id/messages] answers, in every state the event
    loop reaches from a fresh installation ([s0] when the request arrives,
    [s1] when the client has answered the messages, [s2] when the handler
    reads the ledger).  When the active account is neither ready nor
    authenticated, or there is none, the answer is the empty list with the
    notice that the client is initializing, whatever the ledger holds.
    When [getMessages] or [getChatById] finds no active client, or a call
    to the client fails, the answer is the error with status 500 and no
    message.  Otherwise the answer shows every message once: it is sorted
    by timestamp, oldest first; it holds every message of the client; a
    deleted message of the ledger is shown as deleted exactly when the
    client did not answer a message of the same id, so a retracted message
    the client still returns is not shown twice; when the ids of the
    client's messages are distinct so are the ids of the answer; and the
    answer is longer than what the client answered by at most the number
    of deleted messages of the chat.  After a retraction the ledger's
    record is shown while the account is ready, and no longer once its
    session is disconnected. *)
Theorem messages_answer_shows_each_message_once :
  forall (t0 t1 t2 : list (World * Input)) (chatId : string)
         (fetch : Routes.Fetched (list Message))
         (lookup : Routes.Fetched bool),
    let s0 := run t0 fresh in
    let s1 := run t1 s0 in
    let s2 := run t2 s1 in
    let deleted := getDeletedMessagesForChat chatId s2 in
    match Routes.messagesRoute chatId s0 fetch s1 lookup s2 with
    | Routes.Initializing =>
        status_isReady (getStatus s0) = false
        /\ status_isAuthenticated (getStatus s0) = false
    | Routes.Failure code error =>
        code = 500%nat
        /\ (status_isReady (getStatus s0) = true
            \/ status_isAuthenticated (getStatus s0) = true)
        /\ ((getActiveClient s0 = None /\ error = "No active client")
            \/ (getActiveClient s0 <> None /\ fetch = Routes.Fails error)
            \/ (exists messages,
                  fetch = Routes.Answers messages
                  /\ ((getActiveClient s1 = None
                       /\ error = "No active client")
                      \/ lookup = Routes.Fails error)))
    | Routes.Messages count answer =>
        (status_isReady (getStatus s0) = true
         \/ status_isAuthenticated (getStatus s0) = true)
        /\ getActiveClient s0 <> None
        /\ getActiveClient s1 <> None
        /\ exists messages isGroup,
             fetch = Routes.Answers messages
             /\ lookup = Routes.Answers isGroup
             /\ count = List.length answer
             /\ answer = Routes.messagesAnswer messages deleted
             /\ shown messages deleted answer
    end
    /\ (let s := run retraction_trace fresh in
        let chat := "15550001111@c.us" in
        map DeletedMessage.id (getDeletedMessagesForChat chat s)
        = [msg_id hello]
        /\ getDeletedMessagesForChat chat retraction_then_disconnect
           = getDeletedMessagesForChat chat s
        /\ Routes.messagesRoute chat s (Routes.Answers []) s
             (Routes.Answers false) s
           = Routes.Messages 1
               (map Routes.Deleted
                  (map Routes.formatDeleted
                     (getDeletedMessagesForChat chat s)))
        /\ Routes.messagesRoute chat retraction_then_disconnect
             (Routes.Answers []) retraction_then_disconnect
             (Routes.Answers false) retraction_then_disconnect
           = Routes.Initializing).
Proof.
  intros t0 t1 t2 chatId fetch lookup s0 s1 s2 deleted.
  split; [|vm_compute; repeat split; reflexivity].
  assert (forall m e, requireActiveClient m = Throws e ->
                      getActiveClient m = None
                      /\ Routes.errorMessage e = "No active client") as Hno.
  { intros m e. unfold requireActiveClient.
    destruct (getActiveClient m); [discriminate|].
    intros [= <-]. split; reflexivity. }
  assert (forall m c, requireActiveClient m = Returns c ->
                      getActiveClient m <> None) as Hyes.
  { intros m c. unfold requireActiveClient.
    destruct (getActiveClient m); [discriminate|discriminate]. }
  unfold Routes.messagesRoute. cbv zeta.
  destruct (status_isReady (getStatus s0)) eqn:Hr;
    destruct (status_isAuthenticated (getStatus s0)) eqn:Ha;
    cbn [negb andb]; auto.
  all: unfold getMessages, getChatById.
  all: destruct (requireActiveClient s0) as [c0|e0] eqn:H0;
    [|destruct (Hno _ _ H0) as (Hn & ->); auto 6].
  all: destruct fetch as [messages|message];
    [|refine (conj eq_refl (conj _ _)); eauto 6].
  all: destruct (requireActiveClient s1) as [c1|e1] eqn:H1;
    [|destruct (Hno _ _ H1) as (Hn & ->);
      refine (conj eq_refl (conj _ _)); eauto 8].
  all: destruct lookup as [isGroup|message];
    [|refine (conj eq_refl (conj _ _)); eauto 8].
  all: refine (conj _ (conj (Hyes _ _ H0) (conj (Hyes _ _ H1) _))); auto.
  all: exists messages, isGroup;
    refine (conj eq_refl (conj eq_refl (conj eq_refl (conj eq_refl _)))).
  all: apply (messagesAnswer_shown s2 chatId messages).
  all: unfold s2, s1, s0, run; rewrite <- !fold_left_app;
    apply ledger_filed_reachable.
Qed.


(** ** The answer of [GET /analytics] *)

Lemma roundDiv_hours seconds :
  (0 <= seconds)%Z ->
  Routes.roundDiv seconds 3600 =
  (if (seconds mod 3600 <? 1800)%Z then seconds / 3600
   else seconds / 3600 + 1)%Z.
Proof.
  intros H. unfold Routes.roundDiv.
  pose proof (Z.div_mod seconds 3600 ltac:(lia)) as Hdm.
  pose proof (Z.mod_pos_bound seconds 3600 ltac:(lia)) as Hr.
  destruct (Z.ltb_spec (seconds mod 3600) 1800).
  - symmetry. apply (Z.div_unique _ _ _ (2 * (seconds mod 3600) + 3600)); lia.
  - symmetry. apply (Z.div_unique _ _ _ (2 * (seconds mod 3600) - 3600)); lia.
Qed.

Lemma roundDiv_minutes r :
  (0 <= r)%Z ->
  (-30 < Routes.roundDiv r 60 * 60 - r <= 30)%Z.
Proof.
  intros H. unfold Routes.roundDiv.
  pose proof (Z.div_mod (2 * r + 60) (2 * 60) ltac:(lia)) as Hdm.
  pose proof (Z.mod_pos_bound (2 * r + 60) (2 * 60) ltac:(lia)) as Hr.
  lia.
Qed.

(** X18.  [formatDuration] shows an hour too many for half of the
    durations.  Below a minute it shows the seconds; below an hour the
    minutes, rounded to the nearest, which may read 60m.  From an hour on
    it shows hours and minutes that are rounded separately: the minutes
    are those of the remainder, between 0 and 60, and the hours are rounded
    to the nearest hour, so that whenever the remainder is half an hour or
    more the hours shown are one more than the full hours of the duration
    and the time shown exceeds the duration by 59.5 to 60.5 minutes: an
    average response time of 5400 seconds is shown as 2h 30m. *)
Theorem formatDuration_rounds_hours_and_minutes_apart :
  forall seconds : Z,
    ((seconds < 60)%Z ->
     Routes.formatDuration seconds
     = (Js.string_of_Z seconds ++ "s")%string)
    /\ ((60 <= seconds < 3600)%Z ->
        exists m,
          Routes.formatDuration seconds = (Js.string_of_Z m ++ "m")%string
          /\ (1 <= m <= 60)%Z /\ (-30 < m * 60 - seconds <= 30)%Z)
    /\ ((3600 <= seconds)%Z ->
        exists h m,
          Routes.formatDuration seconds =
          (Js.string_of_Z h ++ "h " ++ Js.string_of_Z m ++ "m")%string
          /\ (0 <= m <= 60)%Z
          /\ ((seconds mod 3600 < 1800)%Z ->
              h = (seconds / 3600)%Z
              /\ (-30 < h * 3600 + m * 60 - seconds <= 30)%Z)
          /\ ((1800 <= seconds mod 3600)%Z ->
              h = (seconds / 3600 + 1)%Z
              /\ (3570 < h * 3600 + m * 60 - seconds <= 3630)%Z))
    /\ Routes.formatDuration 5400 = "2h 30m"
    /\ Routes.formatDuration 3599 = "60m".
Proof.
  intros seconds. refine (conj _ (conj _ (conj _ (conj eq_refl eq_refl)))).
  - intros H. unfold Routes.formatDuration.
    now destruct (Z.ltb_spec seconds 60); [|lia].
  - intros H. exists (Routes.roundDiv seconds 60).
    pose proof (roundDiv_minutes seconds ltac:(lia)) as Hm.
    unfold Routes.formatDuration.
    destruct (Z.ltb_spec seconds 60); [lia|].
    destruct (Z.ltb_spec seconds 3600); [|lia].
    split; [reflexivity|]. lia.
  - intros H.
    exists (Routes.roundDiv seconds 3600),
           (Routes.roundDiv (seconds mod 3600) 60).
    pose proof (Z.div_mod seconds 3600 ltac:(lia)) as Hdm.
    pose proof (Z.mod_pos_bound seconds 3600 ltac:(lia)) as Hr.
    pose proof (roundDiv_minutes (seconds mod 3600) ltac:(lia)) as Hm.
    pose proof (roundDiv_hours seconds ltac:(lia)) as Hh.
    unfold Routes.formatDuration.
    destruct (Z.ltb_spec seconds 60); [lia|].
    destruct (Z.ltb_spec seconds 3600); [lia|].
    split; [reflexivity|]. split; [lia|].
    destruct (Z.ltb_spec (seconds mod 3600) 1800); split; intros; lia.
Qed.

Lemma tallyMessage_outgoing c msg :
  msg_fromMe msg = true ->
  let answered :=
    Routes.truthyTimestamp (Routes.lastIncoming c)
    && negb (Routes.truthyTimestamp (Routes.firstReply c)) in
  let c1 := Routes.tallyMessage c msg in
  Routes.chatSent c1 = (Routes.chatSent c + 1)%nat
  /\ Routes.chatReceived c1 = Routes.chatReceived c
  /\ Routes.hasReply c1 = true
  /\ Routes.totalMessagesSent c1 = (Routes.totalMessagesSent c + 1)%nat
  /\ Routes.totalMessagesReceived c1 = Routes.totalMessagesReceived c
  /\ Routes.firstReply c1 =
     (if answered then Some (msg_timestamp msg) else Routes.firstReply c)
  /\ Routes.responseCount c1 =
     (if answered then Routes.responseCount c + 1 else Routes.responseCount c)%nat.
Proof.
  intros H. unfold Routes.tallyMessage. rewrite H. cbn. repeat split.
Qed.

Lemma tallyMessage_incoming c msg :
  msg_fromMe msg = false ->
  let c1 := Routes.tallyMessage c msg in
  Routes.chatSent c1 = Routes.chatSent c
  /\ Routes.chatReceived c1 = (Routes.chatReceived c + 1)%nat
  /\ Routes.hasReply c1 = Routes.hasReply c
  /\ Routes.totalMessagesSent c1 = Routes.totalMessagesSent c
  /\ Routes.totalMessagesReceived c1
     = (Routes.totalMessagesReceived c + 1)%nat
  /\ Routes.firstReply c1 = Routes.firstReply c
  /\ Routes.responseCount c1 = Routes.responseCount c.
Proof.
  intros H. unfold Routes.tallyMessage. rewrite H. cbn. repeat split.
Qed.

Lemma tally_fold messages :
  forall c,
    let c' := fold_left Routes.tallyMessage messages c in
    (Routes.chatSent c' + Routes.chatReceived c'
     = Routes.chatSent c + Routes.chatReceived c + List.length messages)%nat
    /\ Routes.hasReply c' = Routes.hasReply c || existsb msg_fromMe messages
    /\ (Routes.totalMessagesSent c' + Routes.chatSent c
        = Routes.totalMessagesSent c + Routes.chatSent c')%nat
    /\ (Routes.totalMessagesReceived c' + Routes.chatReceived c
        = Routes.totalMessagesReceived c + Routes.chatReceived c')%nat
    /\ (Routes.chatReceived c <= Routes.chatReceived c')%nat
    /\ (Routes.chatReceived c' = Routes.chatReceived c <->
        forallb msg_fromMe messages = true)
    /\ (Forall (fun msg => msg_timestamp msg <> 0%Z) messages ->
        (Routes.truthyTimestamp (Routes.firstReply c) = true ->
         Routes.responseCount c' = Routes.responseCount c)
        /\ (Routes.responseCount c <= Routes.responseCount c'
            <= Routes.responseCount c + 1)%nat).
Proof.
  induction messages as [|msg rest IH]; intros c; cbn [fold_left].
  - cbn. rewrite Bool.orb_false_r. repeat split; auto; lia.
  - specialize (IH (Routes.tallyMessage c msg)). cbv zeta in IH |- *.
    destruct IH as (H1 & H2 & H3 & H4 & H5 & H6 & H7).
    cbn [List.length existsb forallb].
    destruct (msg_fromMe msg) eqn:Hm; cbn [andb orb].
    + destruct (tallyMessage_outgoing c msg Hm)
        as (E1 & E2 & E3 & E4 & E5 & E6 & E7).
      rewrite E1, E2, ?E3, ?E4, ?E5 in *.
      refine (conj _ (conj _ (conj _ (conj _ (conj _ (conj _ _)))))); try lia.
      * rewrite H2. now rewrite Bool.orb_true_r.
      * exact H6.
      * intros Hall. inversion Hall as [|? ? Hts Hrest]; subst.
        destruct (H7 Hrest) as (Hkeep & Hle).
        rewrite E6 in Hkeep. rewrite E7 in Hkeep, Hle.
        destruct (Routes.truthyTimestamp (Routes.lastIncoming c)
                  && negb (Routes.truthyTimestamp (Routes.firstReply c)))
          eqn:Ha.
        -- assert (Routes.truthyTimestamp (Some (msg_timestamp msg)) = true)
             as Hnew by (apply Bool.negb_true_iff, Z.eqb_neq; exact Hts).
           specialize (Hkeep Hnew). split; [|lia].
           intros Hf. rewrite Hf, Bool.andb_false_r in Ha. discriminate.
        -- split; assumption.
    + destruct (tallyMessage_incoming c msg Hm)
        as (E1 & E2 & E3 & E4 & E5 & E6 & E7).
      rewrite E1, E2, ?E3, ?E4, ?E5, ?E6, ?E7 in *.
      refine (conj _ (conj _ (conj _ (conj _ (conj _ (conj _ _)))))); try lia.
      * exact H2.
      * intros Hall. inversion Hall as [|? ? Hts Hrest]; subst.
        exact (H7 Hrest).
Qed.

(** X19.  The analytics count a chat as replied as soon as it holds one
    outgoing message, which is not what [hasBeenReplied] says.  The loop
    over the messages of a chat counts every message once, as sent or as
    received, and adds the same to the totals; with timestamps other than
    0 it measures at most one response time per chat.  Its [hasBeenReplied]
    is true exactly when some message is outgoing: whenever the helper
    [hasBeenReplied] calls the chat replied, in whatever order it gets the
    messages, so do the analytics; but a chat whose last message is
    incoming and that holds an earlier outgoing message is replied for the
    analytics and not replied for the helper, and it is not listed among
    the pending replies, which are the chats with messages all of which are
    incoming. *)
Theorem analytics_replied_means_some_outgoing_message :
  forall (totals : Routes.Tally) (messages : list Message),
    let c := Routes.tallyChat totals messages in
    (Routes.chatSent c + Routes.chatReceived c = List.length messages)%nat
    /\ Routes.totalMessagesSent c
       = (Routes.totalMessagesSent totals + Routes.chatSent c)%nat
    /\ Routes.totalMessagesReceived c
       = (Routes.totalMessagesReceived totals + Routes.chatReceived c)%nat
    /\ (Forall (fun msg => msg_timestamp msg <> 0%Z) messages ->
        (Routes.responseCount totals <= Routes.responseCount c
         <= Routes.responseCount totals + 1)%nat)
    /\ Routes.hasReply c = existsb msg_fromMe messages
    /\ (forall sorted,
          Permutation sorted messages ->
          Helpers.hasBeenReplied (Some sorted) = true ->
          Routes.hasReply c = true)
    /\ (forall earlier last,
          messages = earlier ++ [last] ->
          msg_fromMe last = false ->
          existsb msg_fromMe earlier = true ->
          Routes.hasReply c = true
          /\ Helpers.hasBeenReplied (Some messages) = false
          /\ Routes.pendingReply c = false)
    /\ (Routes.pendingReply c = true <->
        messages <> [] /\ forallb (fun msg => negb (msg_fromMe msg)) messages
                          = true).
Proof.
  intros totals messages. cbv zeta. unfold Routes.tallyChat.
  pose proof (tally_fold messages
                {| Routes.chatSent := 0; Routes.chatReceived := 0;
                   Routes.hasReply := false; Routes.lastIncoming := None;
                   Routes.firstReply := None;
                   Routes.totalMessagesSent := Routes.totalMessagesSent totals;
                   Routes.totalMessagesReceived :=
                     Routes.totalMessagesReceived totals;
                   Routes.totalResponseTime := Routes.totalResponseTime totals;
                   Routes.responseCount := Routes.responseCount totals |})
    as H.
  cbv zeta in H.
  set (c := fold_left Routes.tallyMessage messages _) in *.
  destruct H as (H1 & H2 & H3 & H4 & H5 & H6 & H7).
  cbn [Routes.chatSent Routes.chatReceived Routes.hasReply
       Routes.totalMessagesSent Routes.totalMessagesReceived
       Routes.responseCount Routes.firstReply orb] in H1, H2, H3, H4, H5,
    H6, H7.
  assert (forall l : list Message,
            existsb msg_fromMe l = false <->
            forallb (fun msg => negb (msg_fromMe msg)) l = true) as Hnone.
  { induction l as [|x l IH]; simpl; [tauto|].
    destruct (msg_fromMe x); simpl; [split; discriminate|exact IH]. }
  refine (conj _ (conj _ (conj _ (conj _ (conj H2 (conj _ (conj _ _)))))));
    try lia.
  - intros Hall. exact (proj2 (H7 Hall)).
  - intros sorted Hperm Hreplied. rewrite H2.
    destruct (exists_last (l := sorted)) as (l & m & ->).
    { intros ->. discriminate. }
    rewrite hasBeenReplied_snoc in Hreplied.
    apply existsb_exists. exists m. split; [|exact Hreplied].
    apply (Permutation_in _ Hperm), in_or_app. right. now left.
  - intros earlier last -> Hlast Hearlier.
    assert (Routes.hasReply c = true) as Hr.
    { rewrite H2, existsb_app, Hearlier. reflexivity. }
    refine (conj Hr (conj _ _)).
    + now rewrite hasBeenReplied_snoc.
    + unfold Routes.pendingReply. now rewrite Hr.
  - unfold Routes.pendingReply. rewrite H2, Bool.andb_true_iff,
      Bool.negb_true_iff, Hnone, Nat.ltb_lt.
    split.
    + intros (Hall & Hpos). split; [|exact Hall].
      intros Hnil. rewrite Hnil in H1. cbn [List.length] in H1. lia.
    + intros (Hne & Hall). split; [exact Hall|].
      destruct messages as [|x l]; [congruence|].
      cbn [forallb] in Hall. apply Bool.andb_true_iff in Hall as (Hx & _).
      apply Bool.negb_true_iff in Hx.
      destruct (Nat.eq_dec (Routes.chatReceived c) 0) as [E|]; [|lia].
      exfalso. assert (forallb msg_fromMe (x :: l) = true) as Hf
        by (apply H6; lia).
      cbn [forallb] in Hf. rewrite Hx in Hf. discriminate.
Qed.
